(** * TotalSpineSeg preprocessing utilities: a shallow embedding

    The development follows the Python sources:

    - [fix_metadata.py]: the paired-volume metadata reconciler
      ([fix_metadata], [_fix_metadata_wrapper]) and its batch driver
      ([main]) over a file system of NIfTI volumes;
    - [scripts/update_jsons.py]: the rewriting of the label maps
      ([update_step1_map], [update_step2_map]) and of the data set
      descriptions ([update_step1_dataset], [update_step2_dataset]);
    - [scripts/update_json_order.py] and [scripts/revert_json_order.py]:
      the reordering of [regions_class_order];
    - [scripts/revert_jsons.py]: the files it writes.

    Python statements are embedded in a small monad with three
    completions (normal, [return], raised exception) over an explicit
    file system, so that [try]/[except] and early returns read as in the
    source.  numpy and nibabel are modelled at the interface the
    reconciler uses: voxels as integers and binary floats, transforms
    as matrices of exact rationals, files by their names, their
    content and the permissions of files and folders. *)

From Stdlib Require Import ZArith String Ascii List Lia.
From Stdlib Require QArith_base Qreduction Qabs SpecFloat.
From stdpp Require Import gmap strings list pretty sorting.

Local Open Scope Z_scope.
Local Open Scope string_scope.

(** * Python strings, exceptions and paths *)

Module Py.

(** ** [str] methods used by the scripts *)

(** [old in s]: some position of [s] starts an occurrence of [old]. *)
Fixpoint str_contains (old s : string) : bool :=
  String.prefix old s ||
  match s with
  | EmptyString => false
  | String _ s' => str_contains old s'
  end.

(** [s.replace(old, new)] for a non-empty [old]: the occurrences of
    [old] are found scanning left to right, each one found is replaced
    and the scan resumes after it.  [skip] counts the characters of a
    matched occurrence that are still to be dropped. *)
Fixpoint replace_from (old new : string) (skip : nat) (s : string) : string :=
  match s with
  | EmptyString => EmptyString
  | String c s' =>
      match skip with
      | S k => replace_from old new k s'
      | O =>
          if String.prefix old s
          then new +:+ replace_from old new (String.length old - 1) s'
          else String c (replace_from old new 0 s')
      end
  end.

(** [s.replace("", new)]: [new] goes before every character and after
    the last one. *)
Fixpoint intersperse (new s : string) : string :=
  match s with
  | EmptyString => new
  | String c s' => new +:+ String c (intersperse new s')
  end.

Definition str_replace (s old new : string) : string :=
  match old with
  | EmptyString => intersperse new s
  | _ => replace_from old new 0 s
  end.

(** [s.rfind(c)] for a single character, [None] for Python's [-1]. *)
Fixpoint str_rfind (c : ascii) (s : string) : option nat :=
  match s with
  | EmptyString => None
  | String a s' =>
      match str_rfind c s' with
      | Some i => Some (S i)
      | None => if Ascii.eqb a c then Some O else None
      end
  end.

(** [c in s] for a character. *)
Fixpoint str_mem (c : ascii) (s : string) : bool :=
  match s with
  | EmptyString => false
  | String a s' => Ascii.eqb a c || str_mem c s'
  end.

(** ** Exceptions *)

Inductive exn_class :=
  | FileNotFoundError
  | PermissionError
  | ImageFileError
  | KeyError
  | TypeError
  | ValueError
  | LinAlgError
  | KeyboardInterrupt
  | SystemExit.

(** [issubclass(c, Exception)]: [KeyboardInterrupt] and [SystemExit]
    derive from [BaseException] only. *)
Definition is_Exception (c : exn_class) : bool :=
  match c with
  | KeyboardInterrupt | SystemExit => false
  | _ => true
  end.

(** An exception object: its class and the text [str(e)] gives, which
    the model shortens. *)
Record exn := mk_exn { exn_class_of : exn_class; exn_str : string }.

(** ** [pathlib.Path]: a file name inside a directory *)

Record Path := mkPath { parent : string; name : string }.

#[global] Instance Path_eq_dec : EqDecision Path.
Proof. solve_decision. Defined.

#[global] Instance Path_countable : Countable Path.
Proof.
  refine (inj_countable' (fun p => (parent p, name p))
                         (fun q => mkPath (fst q) (snd q)) _).
  intros []; reflexivity.
Defined.

(** [directory / file_name], for a [file_name] that is one component. *)
Definition joinpath (directory file_name : string) : Path :=
  mkPath directory file_name.

(** [Path.stem]: the name without its last suffix; a dot at the start
    or the end of the name starts no suffix. *)
Definition stem (p : Path) : string :=
  match str_rfind "." (name p) with
  | Some i =>
      if (0 <? i)%nat && (i <? String.length (name p) - 1)%nat
      then String.substring 0 i (name p)
      else name p
  | None => name p
  end.

End Py.

Import Py.

(** * Python statements over an explicit state *)

(** A statement either completes normally with a value, executes
    [return r], or raises. *)
Inductive completion (R A : Type) :=
  | Normal (a : A)
  | Returned (r : R)
  | Raised (e : exn).
Arguments Normal {R A} a.
Arguments Returned {R A} r.
Arguments Raised {R A} e.

Definition stmt (St R A : Type) : Type := St -> completion R A * St.

#[global] Instance stmt_ret {St R} : MRet (stmt St R) :=
  fun A a st => (Normal a, st).

#[global] Instance stmt_bind {St R} : MBind (stmt St R) :=
  fun A B k m st =>
    match m st with
    | (Normal a, st') => k a st'
    | (Returned r, st') => (Returned r, st')
    | (Raised e, st') => (Raised e, st')
    end.

Section Statements.
Context {St R : Type}.

(** [return r] *)
Definition Return {A} (r : R) : stmt St R A :=
  fun st => (Returned r, st).

(** [raise e] *)
Definition raise {A} (e : exn) : stmt St R A :=
  fun st => (Raised e, st).

(** [try: body except Exception as e: handler e]: only instances of
    [Exception] are caught. *)
Definition try_except {A} (body : stmt St R A) (handler : exn -> stmt St R A)
  : stmt St R A :=
  fun st =>
    match body st with
    | (Raised e, st') =>
        if is_Exception (exn_class_of e) then handler e st' else (Raised e, st')
    | other => other
    end.

(** Calling a function whose body is [body]: a [return r] inside it
    gives the call the value [Some r], running off the end of the
    body gives [None], an exception passes through to the caller. *)
Definition call {R'} (body : stmt St R unit) : stmt St R' (option R) :=
  fun st =>
    match body st with
    | (Normal _, st') => (Normal None, st')
    | (Returned r, st') => (Normal (Some r), st')
    | (Raised e, st') => (Raised e, st')
    end.
End Statements.

(** * numpy arrays of voxels

    Modelled from the spec: numpy is no part of the repository.  The
    conversions are those of the C casts in numpy's loops as compiled
    for x86-64. *)

Module np.

Local Open Scope Z_scope.

Inductive dtype := uint8 | int16 | int32 | int64 | float32 | float64.

#[global] Instance dtype_eq_dec : EqDecision dtype.
Proof. solve_decision. Defined.

(** A voxel: an integer, or a binary floating-point number (zero,
    infinity, not-a-number, or sign, mantissa and exponent: the value
    [± m * 2 ^ e]).  Every [float32] is a [float64]. *)
Inductive scalar :=
  | Int (z : Z)
  | Float (f : SpecFloat.spec_float).

Record ndarray := mk_ndarray {
  shape : list nat;
  dtype_of : dtype;
  data : list scalar
}.

(** Two's complement wrap-around of a C integer conversion. *)
Definition wrap_signed (bits : Z) (v : Z) : Z :=
  (v + 2 ^ (bits - 1)) mod 2 ^ bits - 2 ^ (bits - 1).

(** The conversion of an integer to an integer type. *)
Definition of_int (t : dtype) (v : Z) : Z :=
  match t with
  | uint8 => v mod 256
  | int16 => wrap_signed 16 v
  | int32 => wrap_signed 32 v
  | _ => wrap_signed 64 v
  end.

(** The finite float [± m * 2 ^ e] without its fractional part. *)
Definition truncate (s : bool) (m : positive) (e : Z) : Z :=
  let a := if 0 <=? e then Z.pos m * 2 ^ e else Z.pos m / 2 ^ (- e) in
  if s then - a else a.

(** The C conversion of a float to a signed integer of [bits] bits:
    the fractional part is dropped.  C leaves the conversion undefined
    for a value the integer cannot hold, an infinity and a
    not-a-number; the conversion instruction of x86-64 gives the
    smallest integer then. *)
Definition float_to_signed (bits : Z) (f : SpecFloat.spec_float) : Z :=
  match f with
  | SpecFloat.S754_zero _ => 0
  | SpecFloat.S754_finite s m e =>
      let t := truncate s m e in
      if (- 2 ^ (bits - 1) <=? t) && (t <? 2 ^ (bits - 1)) then t
      else - 2 ^ (bits - 1)
  | _ => - 2 ^ (bits - 1)
  end.

(** The conversion of a float to an integer type: to a type of at most
    32 bits through a signed 32-bit integer, of which the low bits are
    kept. *)
Definition of_float (t : dtype) (f : SpecFloat.spec_float) : Z :=
  match t with
  | uint8 | int16 | int32 => of_int t (float_to_signed 32 f)
  | _ => float_to_signed 64 f
  end.

(** The conversion to a float type of precision [prec] and largest
    exponent [emax], rounding to nearest, ties to even. *)
Definition to_float (prec emax : Z) (v : scalar) : SpecFloat.spec_float :=
  match v with
  | Int z => SpecFloat.binary_normalize prec emax z 0 false
  | Float (SpecFloat.S754_finite s m e) => SpecFloat.binary_round prec emax s m e
  | Float f => f
  end.

(** The conversion of a voxel to type [t]. *)
Definition cast (t : dtype) (v : scalar) : scalar :=
  match t with
  | float32 => Float (to_float 24 128 v)
  | float64 => Float (to_float 53 1024 v)
  | _ =>
      match v with
      | Int z => Int (of_int t z)
      | Float f => Int (of_float t f)
      end
  end.

(** [a.astype(t)] *)
Definition astype (a : ndarray) (t : dtype) : ndarray :=
  {| shape := shape a; dtype_of := t; data := map (cast t) (data a) |}.

End np.

(** * The nibabel interface used by the reconciler

    Modelled from the spec: the format library is no part of the
    repository.  A volume is voxel data with a header; its affine is
    the one the header gives: the sform when its code is set, else the
    qform when its code is set, else the transform of the shape and
    the zooms.  Transform entries are exact rationals in lowest terms:
    the rounding of numbers stored in single precision is not part of
    the model, except where the library computes a zoom as a square
    root.  The texts of the library's error messages are shortened. *)

Module nib.

Local Open Scope Z_scope.

Abbreviation Q := QArith_base.Q.

(** ** Rational numbers *)

Definition qz (n : Z) : Q := QArith_base.Qmake n 1.
Definition qadd (x y : Q) : Q := Qreduction.Qplus' x y.
Definition qmul (x y : Q) : Q := Qreduction.Qmult' x y.
Definition qneg (x : Q) : Q := Qreduction.Qred (QArith_base.Qopp x).
Definition qeqb (x y : Q) : bool := QArith_base.Qeq_bool x y.

(** The square root of a rational that has a rational one. *)
Definition sqrt_exact (q : Q) : option Q :=
  let q := Qreduction.Qred q in
  let n := QArith_base.Qnum q in
  let d := Z.pos (QArith_base.Qden q) in
  if (0 <=? n) && (Z.sqrt n * Z.sqrt n =? n) && (Z.sqrt d * Z.sqrt d =? d)
  then Some (QArith_base.Qmake (Z.sqrt n) (Z.to_pos (Z.sqrt d)))
  else None.

(** [q / 4 ^ e] as a fraction of integers. *)
Definition scaled (q : Q) (e : Z) : Z * Z :=
  let n := QArith_base.Qnum q in
  let d := Z.pos (QArith_base.Qden q) in
  if 0 <=? e then (n, d * 4 ^ e) else (n * 4 ^ (- e), d).

(** The square root of a positive rational that has no rational one,
    rounded to the 24 significant bits of a single-precision number:
    the exponent [e] is the one that puts the integer part of
    [sqrt q / 2 ^ e] between [2 ^ 23] and [2 ^ 24]. *)
Definition sqrt_single (q : Q) : Q :=
  let q := Qreduction.Qred q in
  let k := Z.log2 (QArith_base.Qnum q) - Z.log2 (Z.pos (QArith_base.Qden q)) in
  let e0 := k / 2 - 23 in
  let mantissa (e : Z) := let '(n, d) := scaled q e in Z.sqrt (n / d) in
  let fits (e : Z) := (2 ^ 23 <=? mantissa e) && (mantissa e <? 2 ^ 24) in
  let e := if fits (e0 - 1) then e0 - 1 else if fits e0 then e0 else e0 + 1 in
  let '(n, d) := scaled q e in
  let m := Z.sqrt (n / d) in
  let m := if (2 * m + 1) * (2 * m + 1) * d <? 4 * n then m + 1 else m in
  if 0 <=? e then qz (m * 2 ^ e)
  else Qreduction.Qred (QArith_base.Qmake m (Z.to_pos (2 ^ (- e)))).

(** ** Transforms *)

(** A 4x4 voxel-to-world transform, by rows. *)
Definition Affine : Type := list (list Q).

Definition entry (a : Affine) (i j : nat) : Q := nth j (nth i a []) (qz 0).

(** Column [j] of the upper left 3x3 block. *)
Definition column (a : Affine) (j : nat) : list Q :=
  [entry a 0 j; entry a 1 j; entry a 2 j].

Definition sum_of_squares (c : list Q) : Q :=
  foldr (fun x s => qadd (qmul x x) s) (qz 0) c.

(** The length of a column, as the header stores it. *)
Definition norm (c : list Q) : Q :=
  match sqrt_exact (sum_of_squares c) with
  | Some r => r
  | None => sqrt_single (sum_of_squares c)
  end.

(** The zooms of a transform: the lengths of its three columns. *)
Definition zooms_of (a : Affine) : list Q :=
  [norm (column a 0); norm (column a 1); norm (column a 2)].

(** A transform with a zero column has no rotation part. *)
Definition degenerate (a : Affine) : bool :=
  existsb (fun j => qeqb (sum_of_squares (column a j)) (qz 0)) [0; 1; 2]%nat.

(** [np.allclose(a, b)] on two transforms; the model compares the
    sixteen entries exactly. *)
Definition allclose (a b : Affine) : bool :=
  forallb (fun i => forallb (fun j => qeqb (entry a i j) (entry b i j))
                      [0; 1; 2; 3]%nat)
    [0; 1; 2; 3]%nat.

(** A zoom as the library reads it from a header: it takes the
    absolute value of a negative zoom and 1 for a zoom of 0 when it
    loads the header. *)
Definition zoom_read (z : Q) : Q :=
  if qeqb z (qz 0) then qz 1 else Qreduction.Qred (Qabs.Qabs z).

(** [shape_zoom_affine(shape, zooms, x_flip=True)]: the transform of a
    header without codes.  The first three axes count, missing ones
    have length 1 and zoom 1; the first axis is flipped, and the
    centre of the volume goes to the origin. *)
Definition base_affine (shape : list nat) (pixdim : list Q) : Affine :=
  let ndim := length shape in
  let zoom (i : nat) : Q :=
    if (i <? ndim)%nat then zoom_read (nth i pixdim (qz 1)) else qz 1 in
  let extent (i : nat) : Z :=
    if (i <? ndim)%nat then Z.of_nat (nth i shape 1%nat) else 1 in
  let origin (i : nat) : Q := Qreduction.Qred (QArith_base.Qmake (extent i - 1) 2) in
  let z0 := qneg (zoom 0%nat) in
  let z1 := zoom 1%nat in
  let z2 := zoom 2%nat in
  [ [z0; qz 0; qz 0; qneg (qmul (origin 0%nat) z0)];
    [qz 0; z1; qz 0; qneg (qmul (origin 1%nat) z1)];
    [qz 0; qz 0; z2; qneg (qmul (origin 2%nat) z2)];
    [qz 0; qz 0; qz 0; qz 1] ].

(** ** Headers and images *)

(** The header fields the reconciler reads or writes.  [sform] is the
    transform of the three [srow] fields, [pixdim] the zooms
    [pixdim[1:]].  [qform] is the transform the qform was set from:
    the quaternion, the offsets and the zooms of the header encode it
    without its shears, hence exactly when it has none, as is the
    case of every transform read from a qform or made of a shape and
    zooms.  The codes are those the library reports for a loaded
    header.  The shape of the data is the array's. *)
Record Nifti1Header := mk_header {
  qform_code : Z;
  sform_code : Z;
  qform : Affine;
  sform : Affine;
  pixdim : list Q;
  datatype : np.dtype;
  descrip : string
}.

(** [hdr.get_best_affine()] of a header whose data has shape [shape]. *)
Definition get_best_affine (h : Nifti1Header) (shape : list nat) : Affine :=
  if negb (sform_code h =? 0) then sform h
  else if negb (qform_code h =? 0) then qform h
  else base_affine shape (pixdim h).

Record Nifti1Image := mk_image {
  dataobj : np.ndarray;
  header : Nifti1Header
}.

(** [img.affine]: the library keeps it equal to the best affine of the
    header. *)
Definition affine (img : Nifti1Image) : Affine :=
  get_best_affine (header img) (np.shape (dataobj img)).

(** [hdr.set_sform(a, code)] writes the rows of [a] and the code. *)
Definition header_set_sform (h : Nifti1Header) (a : Affine) (code : Z)
  : Nifti1Header :=
  {| qform_code := qform_code h; sform_code := code;
     qform := qform h; sform := a;
     pixdim := pixdim h; datatype := datatype h; descrip := descrip h |}.

Definition header_set_data_dtype (h : Nifti1Header) (t : np.dtype) : Nifti1Header :=
  {| qform_code := qform_code h; sform_code := sform_code h;
     qform := qform h; sform := sform h;
     pixdim := pixdim h; datatype := t; descrip := descrip h |}.

Section Building.
Context {St R : Type}.

(** [hdr.set_qform(a, code)] splits [a] into zooms, a rotation and an
    offset; the first three zooms of the header become the lengths of
    the columns of [a].  The rotation is found by a singular value
    decomposition, which fails on a transform with a zero column. *)
Definition header_set_qform (h : Nifti1Header) (a : Affine) (code : Z)
  : stmt St R Nifti1Header :=
  if degenerate a
  then raise (mk_exn LinAlgError "SVD did not converge")
  else mret {| qform_code := code; sform_code := sform_code h;
               qform := a; sform := sform h;
               pixdim := zooms_of a ++ drop 3 (pixdim h);
               datatype := datatype h; descrip := descrip h |}.

(** [nib.Nifti1Image(dataobj, affine, header)] combines the voxel data
    with a copy of the header.  When the transform is not the one the
    header gives for the shape of the data, it is written into the
    header as sform with code 2 (aligned) and as qform with code 0
    (unknown). *)
Definition Nifti1Image_init (d : np.ndarray) (a : Affine) (h : Nifti1Header)
  : stmt St R Nifti1Image :=
  if allclose a (get_best_affine h (np.shape d))
  then mret {| dataobj := d; header := h |}
  else
    h' ← header_set_qform (header_set_sform h a 2) a 0;
    mret {| dataobj := d; header := h' |}.

(** [img.set_data_dtype(t)] *)
Definition set_data_dtype (img : Nifti1Image) (t : np.dtype) : Nifti1Image :=
  {| dataobj := dataobj img; header := header_set_data_dtype (header img) t |}.

(** [img.set_qform(a, code=c)] and [img.set_sform(a, code=c)] change
    the header; the image's affine follows the header. *)
Definition set_qform (img : Nifti1Image) (a : Affine) (code : Z)
  : stmt St R Nifti1Image :=
  h' ← header_set_qform (header img) a code;
  mret {| dataobj := dataobj img; header := h' |}.

Definition set_sform (img : Nifti1Image) (a : Affine) (code : Z) : Nifti1Image :=
  {| dataobj := dataobj img; header := header_set_sform (header img) a code |}.

End Building.

(** ** File names *)

(** [s.lower()] on the letters A to Z. *)
Definition lower_ascii (c : ascii) : ascii :=
  let n := nat_of_ascii c in
  if (65 <=? n)%nat && (n <=? 90)%nat then ascii_of_nat (n + 32) else c.

Fixpoint lower (s : string) : string :=
  match s with
  | EmptyString => EmptyString
  | String c s' => String (lower_ascii c) (lower s')
  end.

(** [s.endswith(suffix)] *)
Fixpoint endswith (s suffix : string) : bool :=
  String.eqb s suffix ||
  match s with
  | EmptyString => false
  | String _ s' => endswith s' suffix
  end.

(** The suffix of a compressed file, matched without regard to case. *)
Definition compressed (n : string) : bool :=
  endswith (lower n) ".gz" || endswith (lower n) ".bz2" || endswith (lower n) ".zst".

(** The name without its compression suffix. *)
Definition uncompressed (n : string) : string :=
  if endswith (lower n) ".gz" then String.substring 0 (String.length n - 3) n
  else if endswith (lower n) ".bz2" || endswith (lower n) ".zst"
       then String.substring 0 (String.length n - 4) n
       else n.

(** The name of a single-file NIfTI volume: [.nii], compressed or
    not, in any case of the letters. *)
Definition nii_name (n : string) : bool :=
  endswith (lower (uncompressed n)) ".nii".

(** [s.lstrip('.')] *)
Fixpoint lstrip_dots (s : string) : string :=
  match s with
  | String "." s' => lstrip_dots s'
  | _ => s
  end.

(** A name with no extension at all: the library saves under it with
    [.nii] added. *)
Definition bare_name (n : string) : bool :=
  negb (compressed n) && negb (str_mem "." (lstrip_dots n)).

(** ** Files *)

(** A file holds a volume or bytes that are no volume.  The data of a
    stored volume is the array [np.asanyarray(img.dataobj)] gives for
    it, with the scaling of the header applied. *)
Inductive File :=
  | NiftiFile (img : Nifti1Image)
  | Garbage (bytes : string).

(** The files, the paths that cannot be read or written, and the
    directories that can be listed but not searched: no file in them
    can be examined or opened. *)
Record FileSystem := mk_fs {
  files : gmap Path File;
  read_denied : gset Path;
  write_denied : gset Path;
  unsearchable : gset string
}.

(** [p.exists()]: the test raises when the directory cannot be
    searched. *)
Definition exists_ {R} (p : Path) : stmt FileSystem R bool :=
  fun fs =>
    if bool_decide (parent p ∈ unsearchable fs)
    then (Raised (mk_exn PermissionError ("Permission denied: " +:+ name p)), fs)
    else (Normal (bool_decide (is_Some (files fs !! p))), fs).

Definition write_file (fs : FileSystem) (p : Path) (f : File) : FileSystem :=
  {| files := <[p := f]> (files fs);
     read_denied := read_denied fs;
     write_denied := write_denied fs;
     unsearchable := unsearchable fs |}.

(** Modelled from the spec: [nib.load(p)] gives the volume stored at
    [p].  It raises [FileNotFoundError] when the file cannot be
    examined (no file, or a directory that cannot be searched) and
    [ImageFileError] when the name has not the extension of a volume
    or the content cannot be read as one.  Names with the extension of
    another format of the library ([.img], [.hdr], [.mgh], ...) are
    taken as names of no volume. *)
Definition load {R} (p : Path) : stmt FileSystem R Nifti1Image :=
  fun fs =>
    if bool_decide (parent p ∈ unsearchable fs)
    then (Raised (mk_exn FileNotFoundError ("No such file or no access: " +:+ name p)), fs)
    else
      match files fs !! p with
      | None =>
          (Raised (mk_exn FileNotFoundError ("No such file or no access: " +:+ name p)), fs)
      | Some f =>
          if negb (nii_name (name p)) || bool_decide (p ∈ read_denied fs)
          then (Raised (mk_exn ImageFileError ("Cannot work out file type of " +:+ name p)), fs)
          else match f with
               | NiftiFile img => (Normal img, fs)
               | Garbage _ =>
                   (Raised (mk_exn ImageFileError ("Cannot work out file type of " +:+ name p)), fs)
               end
      end.

(** The path [nib.save] writes for [p]: [p] itself when its name is
    the name of a volume, [p] with [.nii] added when the name has no
    extension, and none otherwise. *)
Definition save_target (p : Path) : option Path :=
  if nii_name (name p) then Some p
  else if bare_name (name p) then Some (mkPath (parent p) (name p +:+ ".nii"))
  else None.

(** Modelled from the spec: [nib.save(img, p)] makes [img] the content
    of the file.  It raises [ImageFileError] for a name with an
    extension that is not the one of a volume, and [PermissionError]
    when the file cannot be written.  Names with the extension of
    another format of the library are taken as names of no volume. *)
Definition save {R} (img : Nifti1Image) (p : Path) : stmt FileSystem R unit :=
  fun fs =>
    match save_target p with
    | None =>
        (Raised (mk_exn ImageFileError ("Cannot work out file type of " +:+ name p)), fs)
    | Some q =>
        if bool_decide (parent q ∈ unsearchable fs) || bool_decide (q ∈ write_denied fs)
        then (Raised (mk_exn PermissionError ("Permission denied: " +:+ name q)), fs)
        else (Normal tt, write_file fs q (NiftiFile img))
    end.

End nib.

(** * fix_metadata.py *)

Import nib.

(** Line 21: the [_0001] companion of a [_0000] file. *)
Definition img_0001_path_of (img_0000_path : Path) : Path :=
  joinpath (parent img_0000_path)
           (str_replace (name img_0000_path) "_0000.nii.gz" "_0001.nii.gz").

(** Line 74: where the original [_0001] file is kept. *)
Definition backup_path_of (image_0001_path : Path) : Path :=
  joinpath (parent image_0001_path)
           (str_replace (stem image_0001_path) ".nii" "_backup.nii" +:+ ".gz").

(** Lines 46-77: everything before the trailing [return False]. *)
Definition fix_metadata_save_and_return
    (image_0000_path image_0001_path : Path) (overwrite : bool)
  : stmt FileSystem bool unit :=
  img_0000 ← load image_0000_path;
  img_0001 ← load image_0001_path;
  let data_0001 := np.astype (dataobj img_0001) np.uint8 in
  let ref_affine := affine img_0000 in
  let ref_header := header img_0000 in
  fixed_img_0001 ← Nifti1Image_init data_0001 ref_affine ref_header;
  let fixed_img_0001 := set_data_dtype fixed_img_0001 np.uint8 in
  let qform_code := qform_code (header img_0000) in
  let sform_code := sform_code (header img_0000) in
  fixed_img_0001 ← set_qform fixed_img_0001 ref_affine qform_code;
  let fixed_img_0001 := set_sform fixed_img_0001 ref_affine sform_code in
  if overwrite then
    save fixed_img_0001 image_0001_path;;
    Return true
  else
    let backup_path := backup_path_of image_0001_path in
    save img_0001 backup_path;;
    save fixed_img_0001 image_0001_path;;
    Return true.

Definition fix_metadata_body
    (image_0000_path image_0001_path : Path) (overwrite : bool)
  : stmt FileSystem bool unit :=
  fix_metadata_save_and_return image_0000_path image_0001_path overwrite;;
  Return false.

Definition fix_metadata {R} (image_0000_path image_0001_path : Path) (overwrite : bool)
  : stmt FileSystem R (option bool) :=
  call (fix_metadata_body image_0000_path image_0001_path overwrite).

(** ** The vocabulary of the statements on [fix_metadata] *)

(** The volume lines 50-67 build from the two loaded images: the
    voxels of the dependent volume as bytes under the header of the
    reference, in which both transforms are the affine of the
    reference and the zooms are those of that affine. *)
Definition reconciled (img_0000 img_0001 : Nifti1Image) : Nifti1Image :=
  {| dataobj := np.astype (dataobj img_0001) np.uint8;
     header :=
       {| qform_code := qform_code (header img_0000);
          sform_code := sform_code (header img_0000);
          qform := affine img_0000;
          sform := affine img_0000;
          pixdim := zooms_of (affine img_0000) ++ drop 3 (pixdim (header img_0000));
          datatype := np.uint8;
          descrip := descrip (header img_0000) |} |}.

(** The file system a completed run leaves. *)
Definition after_fix (image_0001_path : Path) (overwrite : bool)
    (img_0000 img_0001 : Nifti1Image) (fs : FileSystem) : FileSystem :=
  if overwrite
  then write_file fs image_0001_path (NiftiFile (reconciled img_0000 img_0001))
  else write_file
         (write_file fs (backup_path_of image_0001_path) (NiftiFile img_0001))
         image_0001_path (NiftiFile (reconciled img_0000 img_0001)).

(** When a run can complete: both files are readable volumes under
    the name of a volume in directories that can be searched, the
    affine of the reference has no zero column, and every path written
    is writable and has the name of a volume. *)
Definition can_fix (ref dep : Path) (ow : bool) (img0 img1 : Nifti1Image)
    (fs : FileSystem) : Prop :=
  files fs !! ref = Some (NiftiFile img0) /\ (ref ∉ read_denied fs)
  /\ files fs !! dep = Some (NiftiFile img1) /\ (dep ∉ read_denied fs)
  /\ (dep ∉ write_denied fs)
  /\ (ow = false -> backup_path_of dep ∉ write_denied fs)
  /\ (parent ref ∉ unsearchable fs) /\ (parent dep ∉ unsearchable fs)
  /\ nii_name (name ref) = true /\ nii_name (name dep) = true
  /\ degenerate (affine img0) = false
  /\ (ow = false -> nii_name (name (backup_path_of dep)) = true).

(** ** The wrapper and the command line *)

(** The tuple a pair's processing reports: a status and a payload. *)
Definition outcome : Type := string * option string.

(** Lines 21-30. *)
Definition _fix_metadata_wrapper_body (img_0000_path : Path) (overwrite : bool)
  : stmt FileSystem outcome unit :=
  let img_0001_path := img_0001_path_of img_0000_path in
  img_0001_exists ← exists_ img_0001_path;
  (if negb img_0001_exists
   then Return ("missing", Some (name img_0000_path))
   else mret tt);;
  try_except
    (fix_metadata img_0000_path img_0001_path overwrite;;
     Return ("success", None))
    (fun e => Return ("error", Some (name img_0001_path +:+ ": " +:+ exn_str e))).

Definition _fix_metadata_wrapper {R} (img_0000_path : Path) (overwrite : bool)
  : stmt FileSystem R (option outcome) :=
  call (_fix_metadata_wrapper_body img_0000_path overwrite).

(** Lines 98-102 of [main]: the parsed command line and the flag handed
    to every pair. *)
Record Namespace := mk_args {
  dataset_path : string;
  no_backup : bool;
  max_workers : nat
}.

Definition main_overwrite (args : Namespace) : bool := no_backup args.

(** ** A small data set to run the code on *)

Module Sample.

Definition identity_affine : Affine :=
  [ [qz 1; qz 0; qz 0; qz 0]; [qz 0; qz 1; qz 0; qz 0];
    [qz 0; qz 0; qz 1; qz 0]; [qz 0; qz 0; qz 0; qz 1] ].

Definition scanner_affine : Affine :=
  [ [qz (-1); qz 0; qz 0; qz 90]; [qz 0; qz 1; qz 0; qz (-126)];
    [qz 0; qz 0; qz 2; qz (-72)]; [qz 0; qz 0; qz 0; qz 1] ].

(** The intensity image: scanner geometry, both codes set. *)
Definition mri : Nifti1Image :=
  {| dataobj := np.mk_ndarray [2; 2; 1]%nat np.int16 (map np.Int [120; 340; 15; 0]);
     header := mk_header 1 1 scanner_affine scanner_affine [qz 1; qz 1; qz 2]
                 np.int16 "t2w" |}.

(** The mask: no code set, unit zooms, one value above 255. *)
Definition mask : Nifti1Image :=
  {| dataobj := np.mk_ndarray [2; 2; 1]%nat np.int16 (map np.Int [0; 1; 2; 300]);
     header := mk_header 0 0 identity_affine identity_affine [qz 1; qz 1; qz 1]
                 np.int16 "mask" |}.

(** An intensity image without codes, and a mask with more voxels
    along the first axis. *)
Definition plain : Nifti1Image :=
  {| dataobj := np.mk_ndarray [2; 2; 1]%nat np.int16 (map np.Int [120; 340; 15; 0]);
     header := mk_header 0 0 identity_affine identity_affine [qz 1; qz 1; qz 1]
                 np.int16 "t2w" |}.

Definition wide_mask : Nifti1Image :=
  {| dataobj := np.mk_ndarray [4; 2; 1]%nat np.uint8 (map np.Int [0; 1; 2; 3; 0; 1; 2; 3]);
     header := mk_header 0 0 identity_affine identity_affine [qz 1; qz 1; qz 1]
                 np.uint8 "mask" |}.

Definition p_0000 : Path := mkPath "imagesTr" "case_0000.nii.gz".
Definition p_0001 : Path := mkPath "imagesTr" "case_0001.nii.gz".
Definition p_backup : Path := mkPath "imagesTr" "case_0001_backup.nii.gz".

Definition fs0 : FileSystem :=
  {| files := <[p_0000 := NiftiFile mri]> (<[p_0001 := NiftiFile mask]> ∅);
     read_denied := ∅; write_denied := ∅; unsearchable := ∅ |}.

(** The same directory with the mask not writable. *)
Definition fs_locked : FileSystem :=
  {| files := files fs0; read_denied := ∅; write_denied := {[p_0001]};
     unsearchable := ∅ |}.

(** The same directory with a mask that is no volume. *)
Definition fs_corrupt : FileSystem :=
  {| files := <[p_0001 := Garbage "not a gzip stream"]> (files fs0);
     read_denied := ∅; write_denied := ∅; unsearchable := ∅ |}.

(** A directory holding the intensity image only. *)
Definition fs_alone : FileSystem :=
  {| files := {[p_0000 := NiftiFile mri]}; read_denied := ∅; write_denied := ∅;
     unsearchable := ∅ |}.

(** A directory where the mask's backup name is taken by another
    volume, here a copy of the intensity image. *)
Definition fs_backup_taken : FileSystem :=
  {| files := <[p_backup := NiftiFile mri]> (<[p_0001 := NiftiFile mask]> ∅);
     read_denied := ∅; write_denied := ∅; unsearchable := ∅ |}.

(** The two files in a directory that can be listed but not
    searched. *)
Definition fs_unsearchable : FileSystem :=
  {| files := files fs0; read_denied := ∅; write_denied := ∅;
     unsearchable := {["imagesTr"]} |}.

(** A mask stored as floats: 2.5, 300, -1, 2^32 + 5, 7.75 and
    -212.5. *)
Definition float_mask : Nifti1Image :=
  {| dataobj :=
       np.mk_ndarray [3; 2; 1]%nat np.float64
         (map np.Float
            [SpecFloat.S754_finite false 5 (-1); SpecFloat.S754_finite false 75 2;
             SpecFloat.S754_finite true 1 0; SpecFloat.S754_finite false 4294967301 0;
             SpecFloat.S754_finite false 31 (-2); SpecFloat.S754_finite true 425 (-1)]);
     header := mk_header 0 0 identity_affine identity_affine [qz 1; qz 1; qz 1]
                 np.float64 "mask" |}.

Definition fs_float : FileSystem :=
  {| files := <[p_0000 := NiftiFile mri]> (<[p_0001 := NiftiFile float_mask]> ∅);
     read_denied := ∅; write_denied := ∅; unsearchable := ∅ |}.

(** A reference without codes and a mask of another shape. *)
Definition fs_no_codes : FileSystem :=
  {| files := <[p_0000 := NiftiFile plain]> (<[p_0001 := NiftiFile wide_mask]> ∅);
     read_denied := ∅; write_denied := ∅; unsearchable := ∅ |}.

End Sample.

(** * The JSON scripts *)

Module json.

(** A parsed JSON document; numbers are Python [int]s. *)
#[local] Set Warnings "-register-all".
Inductive value :=
  | JNull
  | JBool (b : bool)
  | JNum (n : Z)
  | JStr (s : string)
  | JArr (items : list value)
  | JObj (fields : list (string * value)).

(** [n == v] for a Python [int] [n]: [True] and [False] compare as 1
    and 0, values of other types are never equal to an [int]. *)
Definition int_eq (n : Z) (v : value) : bool :=
  match v with
  | JNum m => Z.eqb n m
  | JBool b => Z.eqb n (if b then 1 else 0)
  | _ => false
  end.

(** [n in l] *)
Definition list_contains (n : Z) (l : list value) : bool :=
  existsb (int_eq n) l.

(** [l.remove(n)]: the first item equal to [n] is dropped; [None] is
    Python's [ValueError] when there is none. *)
Fixpoint list_remove (n : Z) (l : list value) : option (list value) :=
  match l with
  | [] => None
  | x :: l' =>
      if int_eq n x then Some l'
      else match list_remove n l' with
           | Some r => Some (x :: r)
           | None => None
           end
  end.

(** [list(range(lo, hi))] *)
Definition range (lo hi : Z) : list value :=
  map JNum (seqZ lo (hi - lo)).

Section Files.
Context {V R : Type}.

(** [with open(path, 'r') as f: json.load(f)] on a store that holds,
    for every file whose text is a JSON object, the parsed document.
    A file with other text (a list at the top level, text that does
    not parse) has no place in the store: the statements on the
    scripts speak of files that hold an object and of paths without a
    file. *)
Definition load (path : string) : stmt (gmap string V) R V :=
  fun st =>
    match st !! path with
    | Some doc => (Normal doc, st)
    | None => (Raised (mk_exn FileNotFoundError ("No such file or directory: " +:+ path)), st)
    end.

(** [with open(path, 'w') as f: json.dump(doc, f, indent=4)] *)
Definition dump (doc : V) (path : string) : stmt (gmap string V) R unit :=
  fun st => (Normal tt, <[path := doc]> st).
End Files.

End json.

(** ** scripts/update_jsons.py: the label maps *)

Module UpdateJsons.

(** A label map file: label names to class numbers. *)
Abbreviation label_map := (gmap string Z).

Definition step1_map_path : string :=
  "totalspineseg/resources/labels_maps/nnunet_step1.json".
Definition step2_map_path : string :=
  "totalspineseg/resources/labels_maps/nnunet_step2.json".

(** Lines 3-15.  The loop over [data.items()] is a fold over the
    entries of the dictionary; their keys are distinct, so the order
    of the visits does not show in the map built. *)
Definition update_step1_map_body : stmt (gmap string label_map) Empty_set unit :=
  data ← json.load step1_map_path;
  let new_data : label_map := ∅ in
  let new_data := <["101" := 1]> new_data in
  let new_data := map_fold (fun k v new_data => <[k := v + 1]> new_data) new_data data in
  json.dump new_data step1_map_path.

Definition update_step1_map {R} : stmt (gmap string label_map) R (option Empty_set) :=
  call update_step1_map_body.

(** Lines 37-48. *)
Definition update_step2_map_body : stmt (gmap string label_map) Empty_set unit :=
  data ← json.load step2_map_path;
  let new_data : label_map := ∅ in
  let new_data := <["101" := 1]> new_data in
  let new_data := map_fold (fun k v new_data => <[k := v + 1]> new_data) new_data data in
  json.dump new_data step2_map_path.

Definition update_step2_map {R} : stmt (gmap string label_map) R (option Empty_set) :=
  call update_step2_map_body.

(** The label map written for the label map read. *)
Definition shifted (data : gmap string Z) : gmap string Z :=
  map_fold (fun k v new_data => <[k := v + 1]> new_data) (<["101" := 1]> ∅) data.

(** What is proved of each of the two functions, [update] rewriting the
    file at [path]. *)
Definition shifts_label_map (path : string)
    (update : forall R, stmt (gmap string (gmap string Z)) R (option Empty_set)) : Prop :=
  forall (R : Type) (st : gmap string (gmap string Z)) (data : gmap string Z),
    st !! path = Some data ->
    exists once twice : gmap string Z,
      update R st = (Normal None, <[path := once]> st)
      /\ update R (<[path := once]> st) = (Normal None, <[path := twice]> st)
      /\ (forall k v, data !! k = Some v -> once !! k = Some (v + 1))
      /\ is_Some (once !! "101")
      /\ (data !! "101" = None -> once !! "101" = Some 1)
      /\ (forall v, data !! "101" = Some v -> once !! "101" = Some (v + 1))
      /\ (once !! "101" = Some 1 <-> data !! "101" = None \/ data !! "101" = Some 0)
      /\ (forall k, k <> "101" -> data !! k = None -> once !! k = None)
      /\ (forall k v, data !! k = Some v -> twice !! k = Some (v + 2))
      /\ twice <> once.

End UpdateJsons.

(** ** scripts/update_json_order.py and scripts/revert_json_order.py *)

Module JsonOrder.

Import json.

(** A dataset description: the fields of its top-level object. *)
Abbreviation dataset := (gmap string value).

Definition step1_path : string := "totalspineseg/resources/datasets/dataset_step1.json".
Definition step2_path : string := "totalspineseg/resources/datasets/dataset_step2.json".

(** [data[key]] *)
Definition getitem {St R} (data : dataset) (key : string) : stmt St R value :=
  match data !! key with
  | Some v => mret v
  | None => raise (mk_exn KeyError key)
  end.

(** The [if n in current_order: remove; insert] block on the value
    read from the document.  The list is changed in place; [n in d]
    on an object looks among its keys, which are strings; the other
    values do not support [in] with an [int]. *)
Definition move_to_front {St R} (n : Z) (current_order : value) : stmt St R value :=
  match current_order with
  | JArr l =>
      if list_contains n l then
        match list_remove n l with
        | Some l' => mret (JArr (JNum n :: l'))
        | None => raise (mk_exn ValueError "list.remove(x): x not in list")
        end
      else mret (JArr l)
  | JObj fields => mret (JObj fields)
  | _ => raise (mk_exn TypeError "argument is not iterable")
  end.

(** update_json_order.py, lines 3-16. *)
Definition update_step1_json_body : stmt (gmap string dataset) Empty_set unit :=
  data ← json.load step1_path;
  current_order ← getitem data "regions_class_order";
  current_order ← move_to_front 10 current_order;
  let data := <["regions_class_order" := current_order]> data in
  json.dump data step1_path.

Definition update_step1_json {R} : stmt (gmap string dataset) R (option Empty_set) :=
  call update_step1_json_body.

(** update_json_order.py, lines 18-31. *)
Definition update_step2_json_body : stmt (gmap string dataset) Empty_set unit :=
  data ← json.load step2_path;
  current_order ← getitem data "regions_class_order";
  current_order ← move_to_front 12 current_order;
  let data := <["regions_class_order" := current_order]> data in
  json.dump data step2_path.

Definition update_step2_json {R} : stmt (gmap string dataset) R (option Empty_set) :=
  call update_step2_json_body.

(** revert_json_order.py, lines 3-15. *)
Definition revert_step1_json_body : stmt (gmap string dataset) Empty_set unit :=
  data ← json.load step1_path;
  let data := <["regions_class_order" := JArr (range 1 11)]> data in
  json.dump data step1_path.

Definition revert_step1_json {R} : stmt (gmap string dataset) R (option Empty_set) :=
  call revert_step1_json_body.

(** revert_json_order.py, lines 17-29. *)
Definition revert_step2_json_body : stmt (gmap string dataset) Empty_set unit :=
  data ← json.load step2_path;
  let data := <["regions_class_order" := JArr (range 1 13)]> data in
  json.dump data step2_path.

Definition revert_step2_json {R} : stmt (gmap string dataset) R (option Empty_set) :=
  call revert_step2_json_body.

(** The list [move_to_front n] leaves in the document. *)
Definition front_moved (n : Z) (l : list value) : list value :=
  if list_contains n l
  then match list_remove n l with
       | Some l' => JNum n :: l'
       | None => l
       end
  else l.

(** What is proved of each step: [update] moves [n] to the front and
    [revert] writes [1 .. hi - 1], both in the file at [path]. *)
Definition reorders_classes (n hi : Z) (path : string)
    (update revert : forall R, stmt (gmap string (gmap string value)) R (option Empty_set))
  : Prop :=
  (forall (R : Type) (st : gmap string (gmap string value))
          (data : gmap string value) (l : list value),
      st !! path = Some data ->
      data !! "regions_class_order" = Some (JArr l) ->
      exists l' data',
        update R st = (Normal None, <[path := data']> st)
        /\ data' !! "regions_class_order" = Some (JArr l')
        /\ (forall k, k <> "regions_class_order" -> data' !! k = data !! k)
        /\ l' ≡ₚ l
        /\ (list_contains n l = true ->
            exists pre post,
              l = (pre ++ JNum n :: post)%list
              /\ list_contains n pre = false
              /\ l' = (JNum n :: pre ++ post)%list)
        /\ (list_contains n l = false -> l' = l)
        /\ exists restored,
             revert R (<[path := data']> st) = (Normal None, <[path := restored]> st)
             /\ restored !! "regions_class_order" = Some (JArr (range 1 hi))
             /\ (restored !! "regions_class_order" = data !! "regions_class_order"
                 <-> l = range 1 hi)
             /\ (<[path := restored]> st = st <-> l = range 1 hi))
  /\ (forall (R : Type) (st : gmap string (gmap string value)) (data : gmap string value),
        st !! path = Some data ->
        exists data',
          revert R st = (Normal None, <[path := data']> st)
          /\ data' !! "regions_class_order" = Some (JArr (range 1 hi))
          /\ (forall k, k <> "regions_class_order" -> data' !! k = data !! k)).

(** What is proved of each update on a file it cannot reorder: the
    exception each cause gives, what is accepted, and that a run that
    raises changes no file. *)
Definition rejects_order (path : string)
    (update : forall R, stmt (gmap string (gmap string value)) R (option Empty_set))
  : Prop :=
  forall (R : Type) (st : gmap string (gmap string value)),
    (st !! path = None ->
     exists e, update R st = (Raised e, st)
               /\ exn_class_of e = FileNotFoundError)
    /\ (forall data,
          st !! path = Some data ->
          data !! "regions_class_order" = None ->
          exists e, update R st = (Raised e, st) /\ exn_class_of e = KeyError)
    /\ (forall data v,
          st !! path = Some data ->
          data !! "regions_class_order" = Some v ->
          (forall l, v <> JArr l) -> (forall fields, v <> JObj fields) ->
          exists e, update R st = (Raised e, st) /\ exn_class_of e = TypeError)
    /\ (forall data fields,
          st !! path = Some data ->
          data !! "regions_class_order" = Some (JObj fields) ->
          update R st = (Normal None, st))
    /\ (forall data l,
          st !! path = Some data ->
          data !! "regions_class_order" = Some (JArr l) ->
          exists st', update R st = (Normal None, st'))
    /\ (forall e st', update R st = (Raised e, st') -> st' = st).

End JsonOrder.

(** What a run of [update_step1_json] ([n] = 10) and of
    [update_step2_json] ([n] = 12) comes to on each store, read off
    lines 4-16 and 19-31 statement by statement. *)
Definition order_update_run {R} (n : Z) (path : string)
    (st : gmap string (gmap string json.value))
  : completion R (option Empty_set) * gmap string (gmap string json.value) :=
  match st !! path with
  | None => (Raised (mk_exn FileNotFoundError ("No such file or directory: " +:+ path)), st)
  | Some data =>
      match data !! "regions_class_order" with
      | None => (Raised (mk_exn KeyError "regions_class_order"), st)
      | Some (json.JArr l) =>
          (Normal None,
           <[path := <["regions_class_order" := json.JArr (JsonOrder.front_moved n l)]> data]> st)
      | Some (json.JObj fields) => (Normal None, st)
      | Some _ => (Raised (mk_exn TypeError "argument is not iterable"), st)
      end
  end.

(** ** scripts/update_jsons.py: the data set descriptions *)

Module UpdateDatasets.

Import json.

(** The exceptions the two functions can raise, each with what it is
    raised on: the path that cannot be opened, the key that is not in
    the document, the value that has no [items] method, the operand
    [x] for which [x + 1] is not defined. *)
Inductive error :=
  | FileNotFoundError (path : string)
  | KeyError (key : string)
  | AttributeError (receiver : value)
  | TypeError (operand : value).

(** A statement that reads and writes the store of documents and may
    raise. *)
Definition io (A : Type) : Type :=
  gmap string (gmap string value) -> (error + A) * gmap string (gmap string value).

#[export] Instance io_ret : MRet io :=
  fun A a st => (inr a, st).

#[export] Instance io_bind : MBind io :=
  fun A B k m st =>
    match m st with
    | (inr a, st') => k a st'
    | (inl e, st') => (inl e, st')
    end.

Definition throw {A} (e : error) : io A :=
  fun st => (inl e, st).

(** An expression that may raise and touches no file. *)
Definition eval {A} (r : error + A) : io A :=
  fun st => (r, st).

(** [with open(path, 'r') as f: json.load(f)], on a store of the files
    that hold a JSON object, as [json.load] above. *)
Definition load (path : string) : io (gmap string value) :=
  fun st =>
    match st !! path with
    | Some doc => (inr doc, st)
    | None => (inl (FileNotFoundError path), st)
    end.

(** [with open(path, 'w') as f: json.dump(doc, f, indent=4)] *)
Definition dump (doc : gmap string value) (path : string) : io unit :=
  fun st => (inr tt, <[path := doc]> st).

(** [data[key]] *)
Definition getitem (data : gmap string value) (key : string) : io value :=
  match data !! key with
  | Some v => mret v
  | None => throw (KeyError key)
  end.

(** A Python [dict] in its insertion order. *)
Abbreviation dict := (list (string * value)).

(** [d[k] = v]: the value of a key already there is replaced where it
    stands, a new key goes to the end. *)
Fixpoint dict_set (k : string) (v : value) (d : dict) : dict :=
  match d with
  | [] => [(k, v)]
  | (k', v') :: d' =>
      if String.eqb k' k then (k', v) :: d' else (k', v') :: dict_set k v d'
  end.

(** [d.get(k)] *)
Fixpoint dict_get (k : string) (d : dict) : option value :=
  match d with
  | [] => None
  | (k', v) :: d' => if String.eqb k' k then Some v else dict_get k d'
  end.

(** [labels.items()]: only an object has the method. *)
Definition items (labels : value) : error + dict :=
  match labels with
  | JObj fields => inr fields
  | _ => inl (AttributeError labels)
  end.

(** [x + 1], defined on [int] and on [bool], its subclass. *)
Definition add_1 (x : value) : error + value :=
  match x with
  | JNum n => inr (JNum (n + 1))
  | JBool b => inr (JNum ((if b then 1 else 0) + 1))
  | _ => inl (TypeError x)
  end.

(** [[x + 1 for x in v]] *)
Fixpoint add_1_each (v : list value) : error + list value :=
  match v with
  | [] => inr []
  | x :: v' =>
      match add_1 x with
      | inl e => inl e
      | inr y =>
          match add_1_each v' with
          | inl e => inl e
          | inr r => inr (y :: r)
          end
      end
  end.

(** The loop of lines 24-29 and 57-62 over the items still to visit:
    [isinstance(v, int)] holds of numbers and booleans,
    [isinstance(v, list)] of arrays, and a value of another type is
    passed over. *)
Fixpoint shift_labels (todo : dict) (new_labels : dict) : error + dict :=
  match todo with
  | [] => inr new_labels
  | (k, v) :: todo' =>
      if String.eqb k "background" then shift_labels todo' new_labels
      else
        match v with
        | JNum _ | JBool _ =>
            match add_1 v with
            | inl e => inl e
            | inr v' => shift_labels todo' (dict_set k v' new_labels)
            end
        | JArr l =>
            match add_1_each l with
            | inl e => inl e
            | inr l' => shift_labels todo' (dict_set k (JArr l') new_labels)
            end
        | _ => shift_labels todo' new_labels
        end
  end.

Definition step1_path : string := "totalspineseg/resources/datasets/dataset_step1.json".
Definition step2_path : string := "totalspineseg/resources/datasets/dataset_step2.json".

(** Lines 17-35. *)
Definition update_step1_dataset : io unit :=
  data ← load step1_path;
  labels ← getitem data "labels";
  let new_labels := [("background", JNum 0); ("LDH", JNum 1)] in
  todo ← eval (items labels);
  new_labels ← eval (shift_labels todo new_labels);
  let data := <["labels" := JObj new_labels]> data in
  let data := <["regions_class_order" := JArr (range 1 11)]> data in
  dump data step1_path.

(** Lines 50-68. *)
Definition update_step2_dataset : io unit :=
  data ← load step2_path;
  labels ← getitem data "labels";
  let new_labels := [("background", JNum 0); ("LDH", JNum 1)] in
  todo ← eval (items labels);
  new_labels ← eval (shift_labels todo new_labels);
  let data := <["labels" := JObj new_labels]> data in
  let data := <["regions_class_order" := JArr (range 1 13)]> data in
  dump data step2_path.

(** The two functions differ in the file and in the number of classes
    only. *)
Definition update_dataset_at (path : string) (n_classes : Z) : io unit :=
  data ← load path;
  labels ← getitem data "labels";
  let new_labels := [("background", JNum 0); ("LDH", JNum 1)] in
  todo ← eval (items labels);
  new_labels ← eval (shift_labels todo new_labels);
  let data := <["labels" := JObj new_labels]> data in
  let data := <["regions_class_order" := JArr (range 1 n_classes)]> data in
  dump data path.

(** The vocabulary of the statements: a label the loop carries over,
    and the value it gets. *)
Definition carried (v : value) : bool :=
  match v with
  | JNum _ | JBool _ | JArr _ => true
  | _ => false
  end.

Definition is_int (x : value) : bool :=
  match x with
  | JNum _ | JBool _ => true
  | _ => false
  end.

Definition int_of (x : value) : Z :=
  match x with
  | JNum n => n
  | JBool true => 1
  | _ => 0
  end.

(** A label whose value can be raised: an integer or a list of
    integers. *)
Definition raisable (v : value) : bool :=
  match v with
  | JArr l => forallb is_int l
  | _ => true
  end.

Definition raised_value (v : value) : value :=
  match v with
  | JArr l => JArr (map (fun x => JNum (int_of x + 1)) l)
  | _ => JNum (int_of v + 1)
  end.

(** The keys of the labels the loop carries over, in the order of the
    document. *)
Definition kept_keys (todo : dict) : list string :=
  (filter (fun kv : string * value => kv.1 <> "background" /\ carried kv.2 = true) todo).*1.

(** What is proved of each function on a document whose labels can all
    be raised, [update] rewriting the file at [path]. *)
Definition raises_labels (path : string) (n_classes : Z) (update : io unit) : Prop :=
  forall (st : gmap string (gmap string value)) (data : gmap string value)
         (fields : dict),
    st !! path = Some data ->
    data !! "labels" = Some (JObj fields) ->
    NoDup fields.*1 ->
    (forall k v, (k, v) ∈ fields -> k <> "background" -> raisable v = true) ->
    exists new_labels : dict,
      update st
      = (inr tt,
         <[path := <["regions_class_order" := JArr (range 1 n_classes)]>
                     (<["labels" := JObj new_labels]> data)]> st)
      /\ NoDup new_labels.*1
      /\ new_labels.*1
         = "background" :: "LDH" :: filter (fun k => k <> "LDH") (kept_keys fields)
      /\ dict_get "background" new_labels = Some (JNum 0)
      /\ (forall k v,
            k <> "background" -> dict_get k fields = Some v -> carried v = true ->
            dict_get k new_labels = Some (raised_value v))
      /\ (forall k,
            k <> "background" ->
            (forall v, dict_get k fields = Some v -> carried v = false) ->
            dict_get k new_labels = if String.eqb k "LDH" then Some (JNum 1) else None).


(** What is proved of two runs in a row. *)
Definition raises_again (path : string) (update : io unit) : Prop :=
  forall (st : gmap string (gmap string value)) (data : gmap string value)
         (fields : dict),
    st !! path = Some data ->
    data !! "labels" = Some (JObj fields) ->
    NoDup fields.*1 ->
    (forall k v, (k, v) ∈ fields -> k <> "background" -> raisable v = true) ->
    exists (st1 st2 : gmap string (gmap string value)) (data2 : gmap string value)
           (twice : dict),
      update st = (inr tt, st1)
      /\ update st1 = (inr tt, st2)
      /\ st2 !! path = Some data2
      /\ data2 !! "labels" = Some (JObj twice)
      /\ dict_get "background" twice = Some (JNum 0)
      /\ (forall k v,
            k <> "background" -> dict_get k fields = Some v -> carried v = true ->
            dict_get k twice = Some (raised_value (raised_value v)))
      /\ (forall k,
            k <> "background" ->
            (forall v, dict_get k fields = Some v -> carried v = false) ->
            dict_get k twice = if String.eqb k "LDH" then Some (JNum 2) else None).

(** A description with an integer label, a list label, a label of
    another type and a label named LDH. *)
Definition sample_labels : dict :=
  [("background", JNum 0); ("disc", JArr [JNum 1; JNum 2]); ("disc_C2_C3", JNum 2);
   ("comment", JStr "draft"); ("cord", JNum 9)].

Definition sample_store : gmap string (gmap string value) :=
  {[step1_path := <["labels" := JObj sample_labels]> {["numTraining" := JNum 0]}]}.

End UpdateDatasets.

(** ** scripts/revert_jsons.py *)

Module RevertJsons.

Import json.

(** Lines 3-28. *)
Definition revert_and_append_ldh_step1_body
  : stmt (gmap string (gmap string value)) Empty_set unit :=
  let data : gmap string value :=
    list_to_map
      [("channel_names", JObj [("0", JStr "MRI")]);
       ("labels",
        JObj [("background", JNum 0);
              ("disc", JArr (map JNum [1; 2; 3; 4; 5]));
              ("disc_C2_C3", JNum 2);
              ("disc_C7_T1", JNum 3);
              ("disc_T12_L1", JNum 4);
              ("disc_L5_S", JNum 5);
              ("vertebrae", JArr (map JNum [6; 7]));
              ("vertebrae_C1", JNum 7);
              ("canal", JArr (map JNum [8; 9]));
              ("cord", JNum 9);
              ("LDH", JNum 10)]);
       ("regions_class_order", JArr (map JNum [1; 2; 3; 4; 5; 6; 7; 8; 9; 10]));
       ("numTraining", JNum 0);
       ("file_ending", JStr ".nii.gz")] in
  json.dump data "totalspineseg/resources/datasets/dataset_step1.json".

Definition revert_and_append_ldh_step1 {R}
  : stmt (gmap string (gmap string value)) R (option Empty_set) :=
  call revert_and_append_ldh_step1_body.

(** Lines 30-58. *)
Definition revert_and_append_ldh_step2_body
  : stmt (gmap string (gmap string value)) Empty_set unit :=
  let data : gmap string value :=
    list_to_map
      [("channel_names", JObj [("0", JStr "MRI"); ("1", JStr "noNorm")]);
       ("labels",
        JObj [("background", JNum 0);
              ("disc", JArr (map JNum [1; 2; 3; 4; 5]));
              ("disc_C2_C3", JNum 2);
              ("disc_C7_T1", JNum 3);
              ("disc_T12_L1", JNum 4);
              ("disc_L5_S", JNum 5);
              ("vertebrae", JArr (map JNum [6; 7; 8; 9]));
              ("vertebrae_O", JNum 7);
              ("vertebrae_E", JNum 8);
              ("sacrum", JNum 9);
              ("canal", JArr (map JNum [10; 11]));
              ("cord", JNum 11);
              ("LDH", JNum 12)]);
       ("regions_class_order",
        JArr (map JNum [1; 2; 3; 4; 5; 6; 7; 8; 9; 10; 11; 12]));
       ("numTraining", JNum 0);
       ("file_ending", JStr ".nii.gz")] in
  json.dump data "totalspineseg/resources/datasets/dataset_step2.json".

Definition revert_and_append_ldh_step2 {R}
  : stmt (gmap string (gmap string value)) R (option Empty_set) :=
  call revert_and_append_ldh_step2_body.

(** Lines 60-109. *)
Definition update_maps_body : stmt (gmap string (gmap string Z)) Empty_set unit :=
  let map1 : gmap string Z :=
    list_to_map
      [("64", 1); ("65", 1); ("66", 1); ("67", 1); ("72", 1); ("73", 1); ("74", 1);
       ("75", 1); ("76", 1); ("77", 1); ("78", 1); ("79", 1); ("80", 1); ("81", 1);
       ("82", 1); ("92", 1); ("93", 1); ("94", 1); ("95", 1);
       ("63", 2);
       ("71", 3);
       ("91", 4);
       ("100", 5);
       ("11", 6); ("12", 6); ("13", 6); ("14", 6); ("15", 6); ("16", 6); ("17", 6);
       ("21", 6); ("22", 6); ("23", 6); ("24", 6); ("25", 6); ("26", 6); ("27", 6);
       ("28", 6); ("29", 6); ("30", 6); ("31", 6); ("32", 6); ("41", 6); ("42", 6);
       ("43", 6); ("44", 6); ("45", 6); ("50", 6);
       ("2", 8);
       ("1", 9);
       ("101", 10)] in
  json.dump map1 "totalspineseg/resources/labels_maps/nnunet_step1.json";;
  let map2 : gmap string Z :=
    list_to_map
      [("64", 1); ("65", 1); ("66", 1); ("67", 1); ("72", 1); ("73", 1); ("74", 1);
       ("75", 1); ("76", 1); ("77", 1); ("78", 1); ("79", 1); ("80", 1); ("81", 1);
       ("82", 1); ("92", 1); ("93", 1); ("94", 1); ("95", 1);
       ("63", 2);
       ("71", 3);
       ("91", 4);
       ("100", 5);
       ("11", 7); ("13", 7); ("15", 7); ("17", 7); ("22", 7); ("24", 7); ("26", 7);
       ("28", 7); ("30", 7); ("32", 7); ("42", 7); ("44", 7);
       ("12", 8); ("14", 8); ("16", 8); ("21", 8); ("23", 8); ("25", 8); ("27", 8);
       ("29", 8); ("31", 8); ("41", 8); ("43", 8); ("45", 8);
       ("50", 9);
       ("2", 10);
       ("1", 11);
       ("101", 12)] in
  json.dump map2 "totalspineseg/resources/labels_maps/nnunet_step2.json".

Definition update_maps {R} : stmt (gmap string (gmap string Z)) R (option Empty_set) :=
  call update_maps_body.

(** The vocabulary of the statements: the classes a description names,
    as the value of a label or as an entry of a list label. *)
Definition names_class (labels : list (string * value)) (c : Z) : bool :=
  existsb (fun kv : string * value =>
             match kv.2 with
             | JNum n => Z.eqb n c
             | JArr l => list_contains c l
             | _ => false
             end) labels.

(** A label map and a description that go together: every class of
    the map is named by the description and listed in its
    [regions_class_order], and the map sends label 101 to the class of
    [LDH]. *)
Definition consistent (label_map : gmap string Z) (data : gmap string value) : Prop :=
  exists (labels : list (string * value)) (order : list value) (ldh : Z),
    data !! "labels" = Some (JObj labels)
    /\ data !! "regions_class_order" = Some (JArr order)
    /\ (forall k c, label_map !! k = Some c ->
                    names_class labels c = true /\ list_contains c order = true)
    /\ UpdateDatasets.dict_get "LDH" labels = Some (JNum ldh)
    /\ label_map !! "101" = Some ldh.

End RevertJsons.

(** * fix_metadata.py: the batch driver *)

Module Batch.

(** What [main] works on: the volumes, the directories that exist and
    the lines printed so far. *)
Record World := mk_world {
  volumes : FileSystem;
  directories : gset string;
  stdout : list string
}.

(** A statement on the volumes, run in the world. *)
Definition on_volumes {R A} (m : stmt FileSystem R A) : stmt World R A :=
  fun w =>
    let (c, fs') := m (volumes w) in
    (c, {| volumes := fs'; directories := directories w; stdout := stdout w |}).

(** [print(line)] *)
Definition print {R} (line : string) : stmt World R unit :=
  fun w =>
    (Normal tt,
     {| volumes := volumes w; directories := directories w;
        stdout := stdout w ++ [line] |}).

(** ["\n"] *)
Definition nl : string := String (ascii_of_nat 10) EmptyString.

(** [c * n] *)
Fixpoint str_repeat (c : string) (n : nat) : string :=
  match n with
  | O => EmptyString
  | S n' => c +:+ str_repeat c n'
  end.

(** [directory / component], on the text of a normalised path. *)
Definition joindir (directory component : string) : string :=
  if decide (directory = "/") then "/" +:+ component
  else if decide (directory = ".") then component
  else directory +:+ "/" +:+ component.

(** [str(p)] *)
Definition path_text (p : Path) : string := joindir (parent p) (name p).

(** Whether a directory or a file is at the path with this text. *)
Definition exists_at (w : World) (text : string) : bool :=
  bool_decide (text ∈ directories w)
  || bool_decide (set_Exists (fun p => path_text p = text)
                    (dom (files (volumes w)))).

(** [str(Path(text).parent)], on the text of a normalised path. *)
Definition dirname (text : string) : string :=
  match str_rfind "/" text with
  | Some O => "/"
  | Some i => String.substring 0 i text
  | None => "."
  end.

(** [Path(text).exists()]: the test raises when the folder of the path
    cannot be searched. *)
Definition path_exists {R} (text : string) : stmt World R bool :=
  fun w =>
    if bool_decide (dirname text ∈ unsearchable (volumes w))
    then (Raised (mk_exn PermissionError ("Permission denied: " +:+ text)), w)
    else (Normal (exists_at w text), w).

(** The pattern [*suffix] of [glob]: the name ends in [suffix]. *)
Fixpoint ends_with (s suffix : string) : bool :=
  String.eqb s suffix ||
  match s with
  | EmptyString => false
  | String _ s' => ends_with s' suffix
  end.

(** The value of [sorted(directory.glob('*_0000.nii.gz'))] in a
    directory that holds files only and can be listed: the files of
    the directory whose name matches, in the order of their names (the
    paths compared have the same parent). *)
Definition references_in (fs : FileSystem) (directory : string) : list Path :=
  merge_sort (fun p q => String.le (name p) (name q))
    (filter (fun p => parent p = directory
                      /\ ends_with (name p) "_0000.nii.gz" = true)
            (elements (dom (files fs)))).

Definition sorted_glob_0000 {R} (directory : string) : stmt World R (list Path) :=
  fun w => (Normal (references_in (volumes w) directory), w).

(** The calls [fn(x)] of [process_map(fn, iterable)], made one after
    the other in the order of [iterable], as a single worker makes
    them; an exception of a call ends the map. *)
Fixpoint map_in_order {R} (fn : Path -> stmt FileSystem R (option outcome))
    (iterable : list Path) : stmt FileSystem R (list (option outcome)) :=
  match iterable with
  | [] => mret []
  | x :: rest =>
      r ← fn x;
      rs ← map_in_order fn rest;
      mret (r :: rs)
  end.

(** [process_map(fn, iterable, max_workers=n, chunksize=1)]: the pool
    wants at least one worker; the results come in the order of
    [iterable]. *)
Definition process_map {R} (fn : Path -> stmt FileSystem R (option outcome))
    (iterable : list Path) (max_workers : nat)
  : stmt World R (list (option outcome)) :=
  if (max_workers =? 0)%nat
  then raise (mk_exn ValueError "max_workers must be greater than 0")
  else on_volumes (map_in_order fn iterable).

(** [sum(1 for status, _ in results if status == wanted)]; unpacking
    [None] raises. *)
Fixpoint count_status {St R} (wanted : string) (results : list (option outcome))
  : stmt St R nat :=
  match results with
  | [] => mret O
  | None :: _ => raise (mk_exn TypeError "cannot unpack non-iterable NoneType object")
  | Some (status, _) :: rest =>
      n ← count_status wanted rest;
      mret (if String.eqb status wanted then S n else n)
  end.

(** [str(msg)] for the payload of a result. *)
Definition str_of_payload (msg : option string) : string :=
  match msg with
  | Some m => m
  | None => "None"
  end.

(** [for status, msg in results: if status == 'error': print(...)] *)
Fixpoint print_errors {R} (results : list (option outcome)) : stmt World R unit :=
  match results with
  | [] => mret tt
  | None :: _ => raise (mk_exn TypeError "cannot unpack non-iterable NoneType object")
  | Some (status, msg) :: rest =>
      (if String.eqb status "error"
       then print (nl +:+ "Error: " +:+ str_of_payload msg)
       else mret tt);;
      print_errors rest
  end.

(** Lines 100-182, for a parsed command line whose [dataset_path] is
    the text of a normalised path. *)
Definition main_body (args : Namespace) : stmt World unit unit :=
  let dataset_path := dataset_path args in
  let overwrite := main_overwrite args in
  let max_workers := max_workers args in
  dataset_path_exists ← path_exists dataset_path;
  (if negb dataset_path_exists
   then print ("Error: Dataset path does not exist: " +:+ dataset_path);;
        Return tt
   else mret tt);;
  let images_tr_path := joindir dataset_path "imagesTr" in
  images_tr_exists ← path_exists images_tr_path;
  (if negb images_tr_exists
   then print ("Error: imagesTr folder not found: " +:+ images_tr_path);;
        Return tt
   else mret tt);;
  image_0000_files ← sorted_glob_0000 images_tr_path;
  (if (length (image_0000_files : list Path) =? 0)%nat
   then print ("No _0000.nii.gz files found in " +:+ images_tr_path);;
        Return tt
   else mret tt);;
  print ("Found " +:+ pretty (length image_0000_files) +:+ " image pairs to process");;
  print ("Workers: " +:+ pretty max_workers);;
  print ("Backup: " +:+ (if overwrite then "No" else "Yes"));;
  print "";;
  print "Processing training set...";;
  results ← process_map (fun p => _fix_metadata_wrapper p overwrite)
              image_0000_files max_workers;
  fixed_count ← count_status "success" results;
  error_count ← count_status "error" results;
  missing_count ← count_status "missing" results;
  print_errors results;;
  let images_ts_path := joindir dataset_path "imagesTs" in
  images_ts_exists ← path_exists images_ts_path;
  counts ←
    (if (images_ts_exists : bool) return stmt World unit (nat * nat * nat)
     then
       image_0000_files_ts ← sorted_glob_0000 images_ts_path;
       if (0 <? length (image_0000_files_ts : list Path))%nat
          return stmt World unit (nat * nat * nat)
       then
         print (nl +:+ "Processing test set: " +:+ pretty (length image_0000_files_ts)
                +:+ " image pairs");;
         results_ts ← process_map (fun p => _fix_metadata_wrapper p overwrite)
                        image_0000_files_ts max_workers;
         fixed_ts ← count_status "success" results_ts;
         error_ts ← count_status "error" results_ts;
         missing_ts ← count_status "missing" results_ts;
         print_errors results_ts;;
         mret (fixed_count + fixed_ts, error_count + error_ts,
               missing_count + missing_ts)%nat
       else mret (fixed_count, error_count, missing_count)
     else mret (fixed_count, error_count, missing_count));
  let '(fixed_count, error_count, missing_count) := counts in
  print (nl +:+ str_repeat "=" 50);;
  print "Summary:";;
  print ("  Fixed: " +:+ pretty fixed_count);;
  print ("  Missing _0001 files: " +:+ pretty missing_count);;
  print ("  Errors: " +:+ pretty error_count);;
  print (str_repeat "=" 50);;
  (if (0 <? fixed_count)%nat
   then print (nl +:+ "Metadata has been fixed. You can now run:");;
        print "  nnUNetv2_extract_fingerprint -d 102 -np 8"
   else mret tt).

(** [main()] on the parsed command line; both a bare [return] and the
    end of the body give [None] in Python. *)
Definition main {R} (args : Namespace) : stmt World R (option unit) :=
  call (main_body args).

(** ** The vocabulary of the statements on [main] *)

(** The world after more lines were printed. *)
Definition add_lines (w : World) (lines : list string) : World :=
  {| volumes := volumes w; directories := directories w;
     stdout := stdout w ++ lines |}.

(** The world with other volumes. *)
Definition with_volumes (w : World) (fs : FileSystem) : World :=
  {| volumes := fs; directories := directories w; stdout := stdout w |}.

(** The folders [main] examines a path in: those of the data set path
    and of its two subfolders, for the existence tests of [main], and
    the two subfolders, for the existence tests on the dependent
    files. *)
Definition searched_folders (args : Namespace) : list string :=
  let d := dataset_path args in
  [dirname d; dirname (joindir d "imagesTr"); dirname (joindir d "imagesTs");
   joindir d "imagesTr"; joindir d "imagesTs"].


(** A statement that leaves the file at [q] as it is, whatever its
    completion, and whose value satisfies [post]. *)
Definition keeps (q : Path) {R A} (m : stmt World R A) (post : A -> Prop) : Prop :=
  forall w,
    files (volumes (snd (m w))) !! q = files (volumes w) !! q
    /\ match fst (m w) with
       | Normal a => post a
       | _ => True
       end.

(** A data set with two training pairs, one of them without its mask,
    and one test pair whose mask cannot be written. *)
Definition sample_world : World :=
  {| volumes :=
       {| files :=
            <[mkPath "ds/imagesTr" "a_0000.nii.gz" := NiftiFile Sample.mri]>
            (<[mkPath "ds/imagesTr" "a_0001.nii.gz" := NiftiFile Sample.mask]>
            (<[mkPath "ds/imagesTr" "b_0000.nii.gz" := NiftiFile Sample.mri]>
            (<[mkPath "ds/imagesTs" "c_0000.nii.gz" := NiftiFile Sample.mri]>
            (<[mkPath "ds/imagesTs" "c_0001.nii.gz" := NiftiFile Sample.mask]> ∅))));
          read_denied := ∅;
          write_denied := {[mkPath "ds/imagesTs" "c_0001.nii.gz"]};
          unsearchable := ∅ |};
     directories := {["ds"; "ds/imagesTr"; "ds/imagesTs"]};
     stdout := [] |}.

Definition sample_args : Namespace := mk_args "ds" true 2.

End Batch.

(** * Running the code on the sample data *)

Example replace_once :
  str_replace "case_0000.nii.gz" "_0000.nii.gz" "_0001.nii.gz" = "case_0001.nii.gz".
Proof. reflexivity. Qed.

Example replace_every_occurrence :
  str_replace "a.nii.b.nii" ".nii" "_backup.nii" = "a_backup.nii.b_backup.nii".
Proof. reflexivity. Qed.

Example replace_overlapping : str_replace "aaa" "aa" "b" = "ba".
Proof. reflexivity. Qed.

Example replace_empty_pattern : str_replace "ab" "" "-" = "-a-b-".
Proof. reflexivity. Qed.

Example stem_nii_gz : stem (mkPath "imagesTr" "case_0001.nii.gz") = "case_0001.nii".
Proof. reflexivity. Qed.

Example stem_hidden : stem (mkPath "d" ".bashrc") = ".bashrc".
Proof. reflexivity. Qed.

Example companion_of_sample : img_0001_path_of Sample.p_0000 = Sample.p_0001.
Proof. reflexivity. Qed.

Example backup_of_sample : backup_path_of Sample.p_0001 = Sample.p_backup.
Proof. reflexivity. Qed.

Example wrapper_success :
  fst (_fix_metadata_wrapper (R := unit) Sample.p_0000 true Sample.fs0)
  = Normal (Some ("success", None)).
Proof. vm_compute. reflexivity. Qed.

Example wrapper_missing :
  _fix_metadata_wrapper (R := unit) Sample.p_0000 true Sample.fs_alone
  = (Normal (Some ("missing", Some "case_0000.nii.gz")), Sample.fs_alone).
Proof. vm_compute. reflexivity. Qed.

Example wrapper_error_locked :
  fst (_fix_metadata_wrapper (R := unit) Sample.p_0000 true Sample.fs_locked)
  = Normal (Some ("error", Some "case_0001.nii.gz: Permission denied: case_0001.nii.gz")).
Proof. vm_compute. reflexivity. Qed.

Example wrapper_error_corrupt :
  fst (_fix_metadata_wrapper (R := unit) Sample.p_0000 false Sample.fs_corrupt)
  = Normal (Some ("error", Some "case_0001.nii.gz: Cannot work out file type of case_0001.nii.gz")).
Proof. vm_compute. reflexivity. Qed.

(** The existence test of line 23 raises in a folder that cannot be
    searched, and the exception leaves the wrapper. *)
Example wrapper_raises_unsearchable :
  _fix_metadata_wrapper (R := unit) Sample.p_0000 true Sample.fs_unsearchable
  = (Raised (mk_exn PermissionError "Permission denied: case_0001.nii.gz"),
     Sample.fs_unsearchable).
Proof. vm_compute. reflexivity. Qed.

(** A reference whose name has no [_0000.nii.gz] is its own dependent;
    with backups kept its backup name, [case_0000.gz], is no name of a
    volume, and nothing is written. *)
Example wrapper_error_backup_name :
  let p := mkPath "imagesTr" "case_0000.nii" in
  let fs := {| files := {[p := NiftiFile Sample.mri]}; read_denied := ∅;
               write_denied := ∅; unsearchable := ∅ |} in
  img_0001_path_of p = p
  /\ backup_path_of p = mkPath "imagesTr" "case_0000.gz"
  /\ _fix_metadata_wrapper (R := unit) p false fs
     = (Normal (Some ("error",
                      Some "case_0000.nii: Cannot work out file type of case_0000.gz")),
        fs).
Proof. intros p fs. repeat split; vm_compute; reflexivity. Qed.

(** A float becomes a byte through a 32-bit integer: 2.5, 300.0, -1.0,
    2^32 + 5, 2^31 and a not-a-number; an integer is reduced modulo
    256. *)
Example cast_to_uint8 :
  map (np.cast np.uint8)
    [np.Float (SpecFloat.S754_finite false 5 (-1));
     np.Float (SpecFloat.S754_finite false 75 2);
     np.Float (SpecFloat.S754_finite true 1 0);
     np.Float (SpecFloat.S754_finite false 4294967301 0);
     np.Float (SpecFloat.S754_finite false 1 31);
     np.Float SpecFloat.S754_nan;
     np.Int 300; np.Int (-1)]
  = map np.Int [2; 44; 255; 0; 0; 0; 44; 255].
Proof. vm_compute. reflexivity. Qed.

(** The zooms of a transform are the lengths of its columns; the
    transform of a header without codes puts the centre of the volume
    at the origin. *)
Example zooms_of_scanner_affine :
  zooms_of Sample.scanner_affine = [qz 1; qz 1; qz 2].
Proof. vm_compute. reflexivity. Qed.

Example affine_without_codes :
  affine Sample.plain
  = [ [qz (-1); qz 0; qz 0; QArith_base.Qmake 1 2];
      [qz 0; qz 1; qz 0; QArith_base.Qmake (-1) 2];
      [qz 0; qz 0; qz 1; qz 0]; [qz 0; qz 0; qz 0; qz 1] ].
Proof. vm_compute. reflexivity. Qed.

(** * The reconciler *)

Ltac run_stmt :=
  unfold mbind, stmt_bind, mret, stmt_ret, Return, raise, call, try_except in *;
  simpl in *.

Ltac raised := right; eexists; split; [|reflexivity]; reflexivity.

(** ** File names *)

Lemma lower_app (s t : string) : lower (s +:+ t) = lower s +:+ lower t.
Proof.
  induction s as [|c s IH]; [reflexivity|].
  change (String c s +:+ t) with (String c (s +:+ t)).
  cbn [lower]. rewrite IH. reflexivity.
Qed.

Lemma endswith_app (s suffix : string) : endswith (s +:+ suffix) suffix = true.
Proof.
  induction s as [|c s IH].
  - change ("" +:+ suffix) with suffix.
    destruct suffix; cbn [endswith]; rewrite String.eqb_refl; reflexivity.
  - change (String c s +:+ suffix) with (String c (s +:+ suffix)).
    cbn [endswith]. rewrite IH. apply orb_true_r.
Qed.

(** The backup name ends in [.gz]: it has the name of a volume or the
    library refuses it. *)
Lemma backup_name_compressed (dep : Path) :
  compressed (name (backup_path_of dep)) = true.
Proof.
  unfold compressed, backup_path_of, joinpath. cbn [name].
  rewrite lower_app. change (lower ".gz") with ".gz".
  rewrite endswith_app. reflexivity.
Qed.

Lemma save_target_nii (p : Path) :
  nii_name (name p) = true -> save_target p = Some p.
Proof. intros H. unfold save_target. rewrite H. reflexivity. Qed.

Lemma save_target_compressed (p : Path) :
  compressed (name p) = true -> nii_name (name p) = false -> save_target p = None.
Proof.
  intros Hc Hn. unfold save_target, bare_name. rewrite Hn, Hc. reflexivity.
Qed.

(** ** Loading and saving *)

Lemma load_ok {R} (p : Path) (fs : FileSystem) (img : Nifti1Image) :
  files fs !! p = Some (NiftiFile img) -> p ∉ read_denied fs ->
  parent p ∉ unsearchable fs -> nii_name (name p) = true ->
  load (R := R) p fs = (Normal img, fs).
Proof.
  intros Hf Hr Hs Hn. unfold load.
  rewrite bool_decide_eq_false_2 by exact Hs. rewrite Hf, Hn.
  rewrite bool_decide_eq_false_2 by exact Hr. reflexivity.
Qed.

Lemma save_ok {R} (img : Nifti1Image) (p : Path) (fs : FileSystem) :
  nii_name (name p) = true ->
  p ∉ write_denied fs -> parent p ∉ unsearchable fs ->
  save (R := R) img p fs = (Normal tt, write_file fs p (NiftiFile img)).
Proof.
  intros Hn Hw Hs. unfold save. rewrite (save_target_nii p Hn).
  rewrite bool_decide_eq_false_2 by exact Hs.
  rewrite bool_decide_eq_false_2 by exact Hw. reflexivity.
Qed.

Lemma load_cases {R} (p : Path) (fs : FileSystem) :
  (exists img, files fs !! p = Some (NiftiFile img)
               /\ (p ∉ read_denied fs)
               /\ (parent p ∉ unsearchable fs)
               /\ nii_name (name p) = true
               /\ load (R := R) p fs = (Normal img, fs))
  \/ (exists e, is_Exception (exn_class_of e) = true
                /\ load (R := R) p fs = (Raised e, fs)).
Proof.
  unfold load.
  case_bool_decide as Hs; [raised|].
  destruct (files fs !! p) as [f|] eqn:Hf; [|raised].
  destruct (nii_name (name p)) eqn:Hn; cbn [negb orb]; [|raised].
  case_bool_decide as Hr; [raised|].
  destruct f; [left; eauto 10 | raised].
Qed.

(** Saving under a name that is the name of a volume or ends in a
    compression suffix writes that very path or nothing. *)
Lemma save_cases {R} (img : Nifti1Image) (p : Path) (fs : FileSystem) :
  nii_name (name p) = true \/ compressed (name p) = true ->
  (nii_name (name p) = true
   /\ (p ∉ write_denied fs) /\ (parent p ∉ unsearchable fs)
   /\ save (R := R) img p fs = (Normal tt, write_file fs p (NiftiFile img)))
  \/ (exists e, is_Exception (exn_class_of e) = true
                /\ save (R := R) img p fs = (Raised e, fs)).
Proof.
  intros Hname. unfold save.
  destruct (nii_name (name p)) eqn:Hn.
  - rewrite (save_target_nii p Hn).
    case_bool_decide as Hs; cbn [orb]; [raised|].
    case_bool_decide as Hw; [raised|]. left. auto.
  - destruct Hname as [Hname|Hc]; [discriminate|].
    rewrite (save_target_compressed p Hc Hn). raised.
Qed.

(** ** Building the reconciled volume *)

Lemma zooms_twice (a : Affine) (l : list Q) :
  (zooms_of a ++ drop 3 (zooms_of a ++ l) = zooms_of a ++ l)%list.
Proof. reflexivity. Qed.

(** Lines 57-67 raise on a reference whose affine has a zero column
    and build the reconciled volume otherwise, whichever way the
    constructor takes. *)
Lemma build_reconciled {St R A} (img0 img1 : Nifti1Image)
    (k : Nifti1Image -> stmt St R A) (st : St) :
  (fixed ← Nifti1Image_init (np.astype (dataobj img1) np.uint8)
             (affine img0) (header img0);
   fixed' ← set_qform (set_data_dtype fixed np.uint8) (affine img0)
              (qform_code (header img0));
   k (set_sform fixed' (affine img0) (sform_code (header img0)))) st
  = if degenerate (affine img0)
    then (Raised (mk_exn LinAlgError "SVD did not converge"), st)
    else k (reconciled img0 img1) st.
Proof.
  unfold Nifti1Image_init, set_qform, header_set_qform, mbind, stmt_bind.
  destruct (degenerate (affine img0)) eqn:Hd.
  - destruct (allclose _ _); reflexivity.
  - destruct (allclose _ _); reflexivity.
Qed.

(** ** The statements of [fix_metadata] *)

Lemma bind_normal {St R A B} (m : stmt St R A) (k : A -> stmt St R B) st a st' :
  m st = (Normal a, st') -> (m ≫= k) st = k a st'.
Proof. intros H. unfold mbind, stmt_bind. rewrite H. reflexivity. Qed.

Lemma bind_returned {St R A B} (m : stmt St R A) (k : A -> stmt St R B) st r st' :
  m st = (Returned r, st') -> (m ≫= k) st = (Returned r, st').
Proof. intros H. unfold mbind, stmt_bind. rewrite H. reflexivity. Qed.

Lemma bind_raised {St R A B} (m : stmt St R A) (k : A -> stmt St R B) st e st' :
  m st = (Raised e, st') -> (m ≫= k) st = (Raised e, st').
Proof. intros H. unfold mbind, stmt_bind. rewrite H. reflexivity. Qed.

(** What the statements before the trailing [return False] do: they
    return [True] after their writes, or raise an [Exception] having
    written at most the backup. *)
Lemma fix_metadata_save_and_return_cases ref dep ow fs :
  (exists img0 img1,
      can_fix ref dep ow img0 img1 fs
      /\ fix_metadata_save_and_return ref dep ow fs
         = (Returned true, after_fix dep ow img0 img1 fs))
  \/ (exists e fs',
         is_Exception (exn_class_of e) = true
         /\ fix_metadata_save_and_return ref dep ow fs = (Raised e, fs')
         /\ (fs' = fs
             \/ exists img1, ow = false
                  /\ files fs !! dep = Some (NiftiFile img1)
                  /\ fs' = write_file fs (backup_path_of dep) (NiftiFile img1))).
Proof.
  unfold fix_metadata_save_and_return.
  destruct (load_cases (R := bool) ref fs)
    as [(img0 & H0 & R0 & S0 & N0 & E0)|(e & He & E0)].
  2:{ right. exists e, fs. rewrite (bind_raised _ _ _ _ _ E0). auto. }
  rewrite (bind_normal _ _ _ _ _ E0).
  destruct (load_cases (R := bool) dep fs)
    as [(img1 & H1 & R1 & S1 & N1 & E1)|(e & He & E1)].
  2:{ right. exists e, fs. rewrite (bind_raised _ _ _ _ _ E1). auto. }
  rewrite (bind_normal _ _ _ _ _ E1). cbv zeta.
  rewrite (build_reconciled img0 img1
             (fun fixed =>
                if ow then save fixed dep;; Return true
                else save img1 (backup_path_of dep);; save fixed dep;; Return true)).
  destruct (degenerate (affine img0)) eqn:Hd.
  { right. eexists _, fs. split; [|split; [reflexivity|left; reflexivity]]. reflexivity. }
  destruct ow.
  - destruct (save_cases (R := bool) (reconciled img0 img1) dep fs (or_introl N1))
      as [(_ & W & _ & E)|(e & He & E)].
    + left. exists img0, img1. split.
      * unfold can_fix. repeat split; auto; discriminate.
      * unfold mbind, stmt_bind. rewrite E. reflexivity.
    + right. exists e, fs. rewrite (bind_raised _ _ _ _ _ E). auto.
  - destruct (save_cases (R := bool) img1 (backup_path_of dep) fs
                (or_intror (backup_name_compressed dep)))
      as [(Nb & Wb & _ & Eb)|(e & He & Eb)].
    2:{ right. exists e, fs. rewrite (bind_raised _ _ _ _ _ Eb). auto. }
    rewrite (bind_normal _ _ _ _ _ Eb).
    destruct (save_cases (R := bool) (reconciled img0 img1) dep
                (write_file fs (backup_path_of dep) (NiftiFile img1)) (or_introl N1))
      as [(_ & W & _ & E)|(e & He & E)].
    + left. exists img0, img1. split.
      * unfold can_fix. repeat split; auto.
      * unfold mbind, stmt_bind. rewrite E. reflexivity.
    + right. eexists e, _. rewrite (bind_raised _ _ _ _ _ E).
      split; [exact He|]. split; [reflexivity|].
      right. exists img1. auto.
Qed.

Lemma fix_metadata_cases {R} ref dep ow fs :
  (exists img0 img1,
      can_fix ref dep ow img0 img1 fs
      /\ fix_metadata (R := R) ref dep ow fs
         = (Normal (Some true), after_fix dep ow img0 img1 fs))
  \/ (exists e fs',
         is_Exception (exn_class_of e) = true
         /\ fix_metadata (R := R) ref dep ow fs = (Raised e, fs')
         /\ (fs' = fs
             \/ exists img1, ow = false
                  /\ files fs !! dep = Some (NiftiFile img1)
                  /\ fs' = write_file fs (backup_path_of dep) (NiftiFile img1))).
Proof.
  unfold fix_metadata, fix_metadata_body, call, mbind, stmt_bind.
  destruct (fix_metadata_save_and_return_cases ref dep ow fs)
    as [(img0 & img1 & Hc & ->)|(e & fs' & He & -> & Hfs)].
  - left. eauto.
  - right. eauto.
Qed.

(** A run that can complete cannot raise: the two descriptions of
    [fix_metadata_cases] exclude each other. *)
Lemma can_fix_loads {R} ref dep ow img0 img1 fs :
  can_fix ref dep ow img0 img1 fs ->
  load (R := R) ref fs = (Normal img0, fs) /\ load (R := R) dep fs = (Normal img1, fs).
Proof.
  intros (H0 & R0 & H1 & R1 & _ & _ & S0 & S1 & N0 & N1 & _).
  split; apply load_ok; assumption.
Qed.

Lemma fix_metadata_ok {R} ref dep ow img0 img1 fs :
  can_fix ref dep ow img0 img1 fs ->
  fix_metadata (R := R) ref dep ow fs
  = (Normal (Some true), after_fix dep ow img0 img1 fs).
Proof.
  intros Hc.
  destruct (can_fix_loads (R := bool) ref dep ow img0 img1 fs Hc) as [E0 E1].
  destruct Hc as (H0 & R0 & H1 & R1 & W & Wb & S0 & S1 & N0 & N1 & Hd & Nb).
  unfold fix_metadata, fix_metadata_body, call.
  assert (E : fix_metadata_save_and_return ref dep ow fs
              = (Returned true, after_fix dep ow img0 img1 fs)).
  { unfold fix_metadata_save_and_return.
    rewrite (bind_normal _ _ _ _ _ E0), (bind_normal _ _ _ _ _ E1). cbv zeta.
    rewrite (build_reconciled img0 img1
               (fun fixed =>
                  if ow then save fixed dep;; Return true
                  else save img1 (backup_path_of dep);; save fixed dep;; Return true)),
      Hd.
    destruct ow; unfold after_fix.
    - unfold mbind, stmt_bind. rewrite save_ok by assumption. reflexivity.
    - rewrite (bind_normal _ _ _ _ _
                 (save_ok (R := bool) img1 (backup_path_of dep) fs
                    (Nb eq_refl) (Wb eq_refl) S1)).
      unfold mbind, stmt_bind. rewrite save_ok by assumption. reflexivity. }
  unfold mbind, stmt_bind. rewrite E. reflexivity.
Qed.

Lemma fix_metadata_success {R} ref dep ow fs v fs' :
  fix_metadata (R := R) ref dep ow fs = (Normal v, fs') ->
  exists img0 img1,
    can_fix ref dep ow img0 img1 fs
    /\ v = Some true /\ fs' = after_fix dep ow img0 img1 fs.
Proof.
  intros H.
  destruct (fix_metadata_cases (R := R) ref dep ow fs)
    as [(img0 & img1 & Hc & E)|(e & fs1 & _ & E & _)];
    rewrite E in H; [|discriminate].
  inversion H; subst. eauto.
Qed.

Lemma files_after_fix_dep dep ow img0 img1 fs :
  files (after_fix dep ow img0 img1 fs) !! dep
  = Some (NiftiFile (reconciled img0 img1)).
Proof. unfold after_fix. destruct ow; simpl; apply lookup_insert_eq. Qed.

Lemma files_after_fix_other dep ow img0 img1 fs p :
  p <> dep -> (ow = false -> p <> backup_path_of dep) ->
  files (after_fix dep ow img0 img1 fs) !! p = files fs !! p.
Proof.
  intros Hd Hb. unfold after_fix. destruct ow; simpl.
  - rewrite lookup_insert_ne by congruence. reflexivity.
  - rewrite !lookup_insert_ne; [reflexivity| |congruence].
    intros E. apply Hb; [reflexivity|congruence].
Qed.

Lemma permissions_after_fix dep ow img0 img1 fs :
  read_denied (after_fix dep ow img0 img1 fs) = read_denied fs
  /\ write_denied (after_fix dep ow img0 img1 fs) = write_denied fs.
Proof. unfold after_fix. destruct ow; auto. Qed.

Lemma unsearchable_after_fix dep ow img0 img1 fs :
  unsearchable (after_fix dep ow img0 img1 fs) = unsearchable fs.
Proof. unfold after_fix. destruct ow; reflexivity. Qed.

(** ** The per-pair wrapper *)

Lemma wrapper_unsearchable_eq {R} p ow fs :
  parent p ∈ unsearchable fs ->
  _fix_metadata_wrapper (R := R) p ow fs
  = (Raised (mk_exn PermissionError
               ("Permission denied: " +:+ name (img_0001_path_of p))), fs).
Proof.
  intros Hs.
  unfold _fix_metadata_wrapper, _fix_metadata_wrapper_body, call, mbind, stmt_bind,
    exists_.
  change (parent (img_0001_path_of p)) with (parent p).
  rewrite bool_decide_eq_true_2 by exact Hs. reflexivity.
Qed.

Lemma wrapper_missing_eq {R} p ow fs :
  parent p ∉ unsearchable fs ->
  files fs !! img_0001_path_of p = None ->
  _fix_metadata_wrapper (R := R) p ow fs
  = (Normal (Some ("missing", Some (name p))), fs).
Proof.
  intros Hs Hnone.
  unfold _fix_metadata_wrapper, _fix_metadata_wrapper_body, call, mbind, stmt_bind,
    exists_.
  change (parent (img_0001_path_of p)) with (parent p).
  rewrite bool_decide_eq_false_2 by exact Hs.
  rewrite bool_decide_eq_false_2; [reflexivity|].
  rewrite Hnone. intros [x Hx]. discriminate.
Qed.

Lemma wrapper_present_eq {R} p ow fs :
  parent p ∉ unsearchable fs ->
  is_Some (files fs !! img_0001_path_of p) ->
  _fix_metadata_wrapper (R := R) p ow fs
  = match fix_metadata (R := outcome) p (img_0001_path_of p) ow fs with
    | (Normal _, fs') => (Normal (Some ("success", None)), fs')
    | (Returned r, fs') => (Normal (Some r), fs')
    | (Raised e, fs') =>
        if is_Exception (exn_class_of e)
        then (Normal (Some ("error",
                Some (name (img_0001_path_of p) +:+ ": " +:+ exn_str e))), fs')
        else (Raised e, fs')
    end.
Proof.
  intros Hs Hsome.
  unfold _fix_metadata_wrapper, _fix_metadata_wrapper_body, call, mbind, stmt_bind,
    exists_, try_except.
  change (parent (img_0001_path_of p)) with (parent p).
  rewrite bool_decide_eq_false_2 by exact Hs.
  rewrite bool_decide_eq_true_2 by exact Hsome. simpl.
  destruct (fix_metadata p (img_0001_path_of p) ow fs) as [[v|r|e] fs']; simpl;
    try reflexivity.
  destruct (is_Exception (exn_class_of e)); reflexivity.
Qed.

(** ** Zooms and transforms *)

Module QFacts.
Import QArith_base Qreduction Qabs.
Local Open Scope Z_scope.

(** A fraction in lowest terms is the only one of its value. *)
Lemma lowest_terms_unique (a b : Q) :
  Z.gcd (Qnum a) (Z.pos (Qden a)) = 1 ->
  Z.gcd (Qnum b) (Z.pos (Qden b)) = 1 ->
  Qeq a b -> a = b.
Proof.
  destruct a as [p q], b as [p' q']. unfold Qeq. cbn [Qnum Qden].
  intros Ha Hb E.
  assert (H1 : (Z.pos q' | Z.pos q)).
  { apply (Z.gauss (Z.pos q') p' (Z.pos q)).
    - exists p. lia.
    - rewrite Z.gcd_comm. exact Hb. }
  assert (H2 : (Z.pos q | Z.pos q')).
  { apply (Z.gauss (Z.pos q) p (Z.pos q')).
    - exists p'. lia.
    - rewrite Z.gcd_comm. exact Ha. }
  assert (Hq : Z.pos q = Z.pos q') by (apply Z.divide_antisym_nonneg; [lia|lia|exact H2|exact H1]).
  injection Hq as ->. f_equal.
  apply (Z.mul_cancel_r p p' (Z.pos q')); lia.
Qed.

Lemma Qred_lowest_terms (q : Q) :
  Z.gcd (Qnum q) (Z.pos (Qden q)) = 1 -> Qred q = q.
Proof.
  intros H. apply lowest_terms_unique; [apply gcd_Qred|exact H|apply Qred_correct].
Qed.

Lemma Qred_idem (q : Q) : Qred (Qred q) = Qred q.
Proof. apply Qred_complete, Qred_correct. Qed.

Lemma gcd_square (a b : Z) : Z.gcd a b = 1 -> Z.gcd (a * a) (b * b) = 1.
Proof.
  intros H.
  assert (H1 : Z.gcd (a * a) b = 1).
  { apply Z.bezout_1_gcd.
    destruct (Z.gcd_bezout a b 1 H) as (u & v & E).
    exists (u * u * 1), (2 * u * a * v + v * v * b). nia. }
  apply Z.bezout_1_gcd.
  destruct (Z.gcd_bezout (a * a) b 1 H1) as (u & v & E).
  exists (u * u * a * a + 2 * u * v * b), (v * v). nia.
Qed.

(** The square of a fraction in lowest terms has an exact root. *)
Lemma sqrt_exact_square (q x : Q) :
  Qeq q (Qmult x x) -> sqrt_exact q = Some (Qred (Qabs x)).
Proof.
  intros E. unfold sqrt_exact. cbv zeta.
  assert (Hx : Qeq x (Qred x)) by (symmetry; apply Qred_correct).
  assert (Hq : Qred q = Qmult (Qred x) (Qred x)).
  { rewrite (Qred_complete q (Qmult (Qred x) (Qred x))).
    - apply Qred_lowest_terms. pose proof (gcd_Qred x) as G.
      destruct (Qred x) as [a b]. cbn [Qmult Qnum Qden] in *.
      rewrite Pos2Z.inj_mul. apply gcd_square. exact G.
    - rewrite E. rewrite <- Hx. reflexivity. }
  rewrite Hq.
  assert (Ha : Qred (Qabs x) = Qabs (Qred x)).
  { rewrite (Qred_complete (Qabs x) (Qabs (Qred x))).
    - apply Qred_lowest_terms. pose proof (gcd_Qred x) as G.
      destruct (Qred x) as [a b]. cbn [Qabs Qnum Qden] in *.
      rewrite Z.gcd_abs_l. exact G.
    - apply Qabs_wd. exact Hx. }
  rewrite Ha.
  destruct (Qred x) as [a b]. cbn [Qmult Qnum Qden Qabs].
  rewrite Pos2Z.inj_mul.
  replace (a * a) with (Z.abs a * Z.abs a) by lia.
  rewrite !Z.sqrt_square by lia.
  replace ((0 <=? Z.abs a * Z.abs a) && (Z.abs a * Z.abs a =? Z.abs a * Z.abs a)
           && (Z.pos b * Z.pos b =? Z.pos b * Z.pos b)) with true.
  - reflexivity.
  - symmetry. rewrite !Z.eqb_refl, !andb_true_r. apply Z.leb_le. nia.
Qed.

Lemma norm_of_square (c : list Q) (z : Q) :
  Qeq (sum_of_squares c) (Qmult z z) -> norm c = Qred (Qabs z).
Proof. intros E. unfold norm. rewrite (sqrt_exact_square _ z E). reflexivity. Qed.

(** A zoom as read from a header is positive and in lowest terms. *)
Lemma zoom_read_positive (x : Q) :
  Qred (zoom_read x) = zoom_read x /\ Qlt 0 (zoom_read x).
Proof.
  unfold zoom_read, qeqb. destruct (Qeq_bool x (qz 0)) eqn:E.
  - split; reflexivity.
  - split; [apply Qred_idem|].
    rewrite Qred_correct.
    unfold Qeq_bool in E. apply Z.eqb_neq in E.
    destruct x as [n d]. unfold Qlt, Qabs. cbn [Qnum Qden qz] in *. lia.
Qed.

Lemma Qred_abs_positive (z : Q) :
  Qred z = z -> Qlt 0 z -> Qred (Qabs z) = z.
Proof.
  intros Hr Hp. rewrite <- Hr at 2. apply Qred_complete.
  apply Qabs_pos. apply Qlt_le_weak. exact Hp.
Qed.

Lemma Qred_abs_negated (z : Q) :
  Qred z = z -> Qlt 0 z -> Qred (Qabs (qneg z)) = z.
Proof.
  intros Hr Hp. rewrite <- Hr at 2. apply Qred_complete.
  unfold qneg. rewrite Qred_correct, Qabs_opp.
  apply Qabs_pos. apply Qlt_le_weak. exact Hp.
Qed.

Lemma zoom_read_idem (x : Q) : zoom_read (zoom_read x) = zoom_read x.
Proof.
  destruct (zoom_read_positive x) as [Hr Hp].
  unfold zoom_read at 1. unfold qeqb.
  destruct (Qeq_bool (zoom_read x) (qz 0)) eqn:E.
  - apply Qeq_bool_iff in E. rewrite E in Hp. discriminate.
  - apply Qred_abs_positive; assumption.
Qed.

Lemma qz_1_positive : Qred (qz 1) = qz 1 /\ Qlt 0 (qz 1).
Proof. split; reflexivity. Qed.

(** The zooms of the transform of a header without codes are the
    zooms the transform was made of. *)
Lemma zooms_of_axes (z0 z1 z2 t0 t1 t2 : Q) (last : list Q) :
  (Qred z0 = z0 /\ Qlt 0 z0) -> (Qred z1 = z1 /\ Qlt 0 z1) ->
  (Qred z2 = z2 /\ Qlt 0 z2) ->
  zooms_of [ [qneg z0; qz 0; qz 0; t0]; [qz 0; z1; qz 0; t1];
             [qz 0; qz 0; z2; t2]; last ] = [z0; z1; z2].
Proof.
  intros [R0 P0] [R1 P1] [R2 P2]. unfold zooms_of, column, entry. cbn [nth].
  rewrite (norm_of_square _ (qneg z0)), (norm_of_square _ z1), (norm_of_square _ z2).
  - rewrite Qred_abs_negated, !Qred_abs_positive by assumption. reflexivity.
  - unfold sum_of_squares, qadd, qmul, Qplus', Qmult'. cbn [foldr].
    rewrite !Qred_correct. unfold qz. ring.
  - unfold sum_of_squares, qadd, qmul, Qplus', Qmult'. cbn [foldr].
    rewrite !Qred_correct. unfold qz. ring.
  - unfold sum_of_squares, qadd, qmul, Qplus', Qmult'. cbn [foldr].
    rewrite !Qred_correct. unfold qz. ring.
Qed.

Lemma base_affine_zooms (shape : list nat) (p : list Q) :
  base_affine shape (zooms_of (base_affine shape p) ++ drop 3 p) = base_affine shape p.
Proof.
  unfold base_affine at 2. cbv zeta.
  rewrite zooms_of_axes.
  2-4: destruct (_ <? _)%nat; [apply zoom_read_positive|apply qz_1_positive].
  unfold base_affine. cbv zeta. cbn [app nth].
  destruct (0 <? length shape)%nat, (1 <? length shape)%nat, (2 <? length shape)%nat;
    rewrite ?zoom_read_idem; reflexivity.
Qed.

End QFacts.

(** With data of the reference's shape the reconciled volume has the
    affine of the reference, whatever the codes. *)
Lemma affine_reconciled (img0 img1 : Nifti1Image) :
  np.shape (dataobj img1) = np.shape (dataobj img0) ->
  affine (reconciled img0 img1) = affine img0.
Proof.
  intros Hshape. unfold affine at 1, get_best_affine.
  cbn [reconciled header dataobj qform_code sform_code qform sform pixdim
       np.astype np.shape].
  destruct (negb (sform_code (header img0) =? 0)%Z) eqn:Hs; [reflexivity|].
  destruct (negb (qform_code (header img0) =? 0)%Z) eqn:Hq; [reflexivity|].
  unfold affine, get_best_affine. rewrite Hs, Hq, Hshape.
  apply QFacts.base_affine_zooms.
Qed.

(** * The claims on the reconciler *)

(** C1. When [fix_metadata] completes, the volume it left at the
    dependent path has the reference volume's qform and sform codes.
    Its affine is the reference volume's when the reference has its
    sform code set.  When the reference has neither code set, the
    affine of the written volume is the one its header gives without
    a code: the transform of the dependent volume's own shape and the
    reference's zooms.  It is the reference's affine when the two
    volumes have the same shape; on the sample pair of shapes
    (2, 2, 1) and (4, 2, 1) it is another one. *)
Theorem fix_metadata_geometry_of_written
    {R} (ref dep : Path) (ow : bool) (fs fs' : FileSystem) (v : option bool) :
  fix_metadata (R := R) ref dep ow fs = (Normal v, fs') ->
  exists img_0000 img_0001 written,
    files fs !! ref = Some (NiftiFile img_0000)
    /\ files fs !! dep = Some (NiftiFile img_0001)
    /\ files fs' !! dep = Some (NiftiFile written)
    /\ qform_code (header written) = qform_code (header img_0000)
    /\ sform_code (header written) = sform_code (header img_0000)
    /\ (sform_code (header img_0000) <> 0 -> affine written = affine img_0000)
    /\ (sform_code (header img_0000) = 0 -> qform_code (header img_0000) = 0 ->
        affine written
        = base_affine (np.shape (dataobj img_0001))
            (zooms_of (affine img_0000) ++ drop 3 (pixdim (header img_0000))))
    /\ (sform_code (header img_0000) = 0 -> qform_code (header img_0000) = 0 ->
        np.shape (dataobj img_0001) = np.shape (dataobj img_0000) ->
        affine written = affine img_0000).
Proof.
  intros H.
  destruct (fix_metadata_success ref dep ow fs v fs' H)
    as (img0 & img1 & (H0 & _ & H1 & _) & _ & ->).
  exists img0, img1, (reconciled img0 img1).
  rewrite files_after_fix_dep.
  repeat (split; [auto; fail|]).
  split; [|split].
  - intros Hs. unfold affine at 1, get_best_affine. cbn.
    destruct (Z.eqb_spec (sform_code (header img0)) 0); [contradiction|reflexivity].
  - intros Hs Hq. unfold affine at 1, get_best_affine. cbn.
    rewrite Hs, Hq. reflexivity.
  - intros _ _ Hshape. apply affine_reconciled. exact Hshape.
Qed.

Lemma fix_metadata_geometry_of_written_witness :
  exists written,
    fix_metadata (R := unit) Sample.p_0000 Sample.p_0001 true Sample.fs_no_codes
    = (Normal (Some true),
       write_file Sample.fs_no_codes Sample.p_0001 (NiftiFile written))
    /\ files Sample.fs_no_codes !! Sample.p_0000 = Some (NiftiFile Sample.plain)
    /\ qform_code (header written) = 0
    /\ sform_code (header written) = 0
    /\ entry (affine Sample.plain) 0 3 = QArith_base.Qmake 1 2
    /\ entry (affine written) 0 3 = QArith_base.Qmake 3 2
    /\ affine written <> affine Sample.plain.
Proof.
  pose (fs' := snd (fix_metadata (R := unit) Sample.p_0000 Sample.p_0001 true
                      Sample.fs_no_codes)).
  assert (Hrun : fix_metadata (R := unit) Sample.p_0000 Sample.p_0001 true
                   Sample.fs_no_codes = (Normal (Some true), fs'))
    by (vm_compute; reflexivity).
  destruct (fix_metadata_geometry_of_written (R := unit)
              Sample.p_0000 Sample.p_0001 true Sample.fs_no_codes fs' (Some true) Hrun)
    as (img0 & img1 & written & H0 & H1 & Hw & Hq & Hs & _ & Ha & _).
  change (files Sample.fs_no_codes !! Sample.p_0000)
    with (Some (NiftiFile Sample.plain)) in H0.
  change (files Sample.fs_no_codes !! Sample.p_0001)
    with (Some (NiftiFile Sample.wide_mask)) in H1.
  injection H0 as <-. injection H1 as <-.
  specialize (Ha eq_refl eq_refl).
  assert (Hfs : fs' = write_file Sample.fs_no_codes Sample.p_0001
                        (NiftiFile (reconciled Sample.plain Sample.wide_mask)))
    by (vm_compute; reflexivity).
  assert (Hwr : written = reconciled Sample.plain Sample.wide_mask).
  { rewrite Hfs in Hw. cbn [write_file files] in Hw.
    rewrite lookup_insert_eq in Hw. injection Hw as <-. reflexivity. }
  exists written. rewrite Hrun, Hfs, Hwr at 1.
  split; [reflexivity|]. split; [reflexivity|].
  split; [exact Hq|]. split; [exact Hs|].
  split; [vm_compute; reflexivity|].
  rewrite Ha.
  split; [vm_compute; reflexivity|].
  vm_compute. discriminate.
Defined.

(** Every voxel [astype(np.uint8)] gives is a byte. *)
Lemma cast_uint8_byte (x : np.scalar) :
  exists z, np.cast np.uint8 x = np.Int z /\ 0 <= z < 256.
Proof.
  destruct x as [z|f]; cbn [np.cast np.of_float np.of_int]; eexists;
    (split; [reflexivity|apply Z.mod_pos_bound; lia]).
Qed.

(** C2. When [fix_metadata] completes, the voxel array left at the
    dependent path is the original dependent array cast to [uint8]:
    same shape, same number of voxels, each voxel the cast of the
    original one and a byte.  An integer voxel is reduced modulo 256,
    hence unchanged when it was already a byte; a float voxel whose
    integral part is a byte is replaced by that part. *)
Theorem fix_metadata_voxels_cast_to_uint8
    {R} (ref dep : Path) (ow : bool) (fs fs' : FileSystem) (v : option bool) :
  fix_metadata (R := R) ref dep ow fs = (Normal v, fs') ->
  exists img_0001 written,
    files fs !! dep = Some (NiftiFile img_0001)
    /\ files fs' !! dep = Some (NiftiFile written)
    /\ dataobj written = np.astype (dataobj img_0001) np.uint8
    /\ np.shape (dataobj written) = np.shape (dataobj img_0001)
    /\ np.dtype_of (dataobj written) = np.uint8
    /\ length (np.data (dataobj written)) = length (np.data (dataobj img_0001))
    /\ (forall (i : nat) (x : np.scalar),
          np.data (dataobj img_0001) !! i = Some x ->
          np.data (dataobj written) !! i = Some (np.cast np.uint8 x))
    /\ (forall (i : nat) (x : np.scalar),
          np.data (dataobj written) !! i = Some x ->
          exists z, x = np.Int z /\ 0 <= z < 256)
    /\ (forall (i : nat) (z : Z),
          np.data (dataobj img_0001) !! i = Some (np.Int z) ->
          np.data (dataobj written) !! i = Some (np.Int (z mod 256)))
    /\ (forall (i : nat) (z : Z),
          np.data (dataobj img_0001) !! i = Some (np.Int z) -> 0 <= z < 256 ->
          np.data (dataobj written) !! i = Some (np.Int z))
    /\ (forall (i : nat) (s : bool) (m : positive) (e : Z),
          np.data (dataobj img_0001) !! i
          = Some (np.Float (SpecFloat.S754_finite s m e)) ->
          0 <= np.truncate s m e < 256 ->
          np.data (dataobj written) !! i = Some (np.Int (np.truncate s m e))).
Proof.
  intros H.
  destruct (fix_metadata_success ref dep ow fs v fs' H)
    as (img0 & img1 & (_ & _ & H1 & _) & _ & ->).
  exists img1, (reconciled img0 img1).
  rewrite files_after_fix_dep. cbn [reconciled dataobj np.astype np.shape np.dtype_of np.data].
  repeat (split; [auto; fail|]).
  split; [apply length_map|].
  split.
  { intros i x Hx. rewrite list_lookup_fmap, Hx. reflexivity. }
  split.
  { intros i x Hx. rewrite list_lookup_fmap in Hx.
    destruct (np.data (dataobj img1) !! i) as [y|]; [|discriminate].
    injection Hx as <-. apply cast_uint8_byte. }
  split.
  { intros i z Hx. rewrite list_lookup_fmap, Hx. reflexivity. }
  split.
  { intros i z Hx Hb. rewrite list_lookup_fmap, Hx. cbn.
    rewrite Z.mod_small by lia. reflexivity. }
  intros i s m e Hx Hb. rewrite list_lookup_fmap, Hx.
  cbn [fmap option_fmap option_map np.cast np.of_float np.of_int np.float_to_signed].
  cbv zeta.
  replace ((- 2 ^ (32 - 1) <=? np.truncate s m e)%Z
           && (np.truncate s m e <? 2 ^ (32 - 1))%Z) with true.
  - rewrite Z.mod_small by lia. reflexivity.
  - symmetry. apply andb_true_intro. split; [apply Z.leb_le|apply Z.ltb_lt]; lia.
Qed.

Lemma fix_metadata_voxels_cast_to_uint8_witness :
  let fs' := snd (fix_metadata (R := unit) Sample.p_0000 Sample.p_0001 false
                    Sample.fs_float) in
  fix_metadata (R := unit) Sample.p_0000 Sample.p_0001 false Sample.fs_float
  = (Normal (Some true), fs')
  /\ exists written,
       files fs' !! Sample.p_0001 = Some (NiftiFile written)
       /\ np.data (dataobj written) = map np.Int [2; 44; 255; 0; 7; 44].
Proof.
  intros fs'.
  assert (Hrun : fix_metadata (R := unit) Sample.p_0000 Sample.p_0001 false
                   Sample.fs_float = (Normal (Some true), fs'))
    by (vm_compute; reflexivity).
  split; [exact Hrun|].
  destruct (fix_metadata_voxels_cast_to_uint8 (R := unit)
              Sample.p_0000 Sample.p_0001 false Sample.fs_float fs' (Some true) Hrun)
    as (img1 & written & H1 & Hw & Hd & _).
  exists written. split; [exact Hw|].
  rewrite Hd.
  change (files Sample.fs_float !! Sample.p_0001)
    with (Some (NiftiFile Sample.float_mask)) in H1.
  injection H1 as <-. vm_compute. reflexivity.
Defined.

(** Every exception [fix_metadata] raises is an instance of
    [Exception]. *)
Lemma fix_metadata_raises_Exception {R} ref dep ow fs e fs' :
  fix_metadata (R := R) ref dep ow fs = (Raised e, fs') ->
  is_Exception (exn_class_of e) = true.
Proof.
  intros H.
  destruct (fix_metadata_cases (R := R) ref dep ow fs)
    as [(img0 & img1 & _ & E)|(e1 & fs1 & He & E & _)];
    rewrite E in H; [discriminate|].
  inversion H; subst. exact He.
Qed.

(** The outcomes of the per-pair function: one of its three tuples
    when the directory of the pair can be searched, the error of the
    existence test otherwise. *)
Lemma wrapper_outcomes {R} (p : Path) (ow : bool) (fs : FileSystem) :
  ((parent p ∉ unsearchable fs)
   /\ exists status payload fs',
        _fix_metadata_wrapper (R := R) p ow fs = (Normal (Some (status, payload)), fs')
        /\ (status = "missing" \/ status = "success" \/ status = "error"))
  \/ ((parent p ∈ unsearchable fs)
      /\ _fix_metadata_wrapper (R := R) p ow fs
         = (Raised (mk_exn PermissionError
                      ("Permission denied: " +:+ name (img_0001_path_of p))), fs)).
Proof.
  destruct (decide (parent p ∈ unsearchable fs)) as [Hs|Hs].
  { right. split; [exact Hs|]. apply wrapper_unsearchable_eq. exact Hs. }
  left. split; [exact Hs|].
  destruct (files fs !! img_0001_path_of p) as [f|] eqn:Hf.
  - rewrite wrapper_present_eq by (try rewrite Hf; eauto).
    destruct (fix_metadata_cases (R := outcome) p (img_0001_path_of p) ow fs)
      as [(img0 & img1 & _ & ->)|(e & fs1 & He & -> & _)].
    + do 3 eexists. split; [reflexivity|auto].
    + rewrite He. do 3 eexists. split; [reflexivity|auto].
  - rewrite wrapper_missing_eq by assumption.
    do 3 eexists. split; [reflexivity|auto].
Qed.

(** C3. What [fix_metadata] raises while it loads, builds and saves is
    an instance of [Exception], and the [except] clause of the per-pair
    function turns it into the tuple
    [('error', name + ': ' + str(e))] with the dependent file's name.
    The existence test of line 23 stands before the [try]: in a
    directory that cannot be searched it raises a [PermissionError],
    which leaves the per-pair function with no file touched; in every
    other directory the function hands back one of its three
    tuples. *)
Theorem wrapper_converts_exceptions
    {R} (p : Path) (ow : bool) (fs : FileSystem) :
  (forall e fs',
      fix_metadata (R := outcome) p (img_0001_path_of p) ow fs = (Raised e, fs') ->
      is_Exception (exn_class_of e) = true)
  /\ (forall e fs',
        parent p ∉ unsearchable fs ->
        is_Some (files fs !! img_0001_path_of p) ->
        fix_metadata (R := outcome) p (img_0001_path_of p) ow fs = (Raised e, fs') ->
        _fix_metadata_wrapper (R := R) p ow fs
        = (Normal (Some ("error",
                         Some (name (img_0001_path_of p) +:+ ": " +:+ exn_str e))),
           fs'))
  /\ (parent p ∉ unsearchable fs ->
      exists status payload fs',
        _fix_metadata_wrapper (R := R) p ow fs = (Normal (Some (status, payload)), fs')
        /\ (status = "missing" \/ status = "success" \/ status = "error"))
  /\ (parent p ∈ unsearchable fs ->
      _fix_metadata_wrapper (R := R) p ow fs
      = (Raised (mk_exn PermissionError
                   ("Permission denied: " +:+ name (img_0001_path_of p))), fs)).
Proof.
  split; [|split; [|split]].
  - intros e fs'. apply fix_metadata_raises_Exception.
  - intros e fs' Hs Hsome Hraise.
    rewrite wrapper_present_eq by assumption.
    rewrite Hraise.
    rewrite (fix_metadata_raises_Exception _ _ _ _ _ _ Hraise). reflexivity.
  - intros Hs.
    destruct (wrapper_outcomes (R := R) p ow fs) as [[_ H]|[Hn _]];
      [exact H|contradiction].
  - apply wrapper_unsearchable_eq.
Qed.

Lemma wrapper_converts_exceptions_witness :
  _fix_metadata_wrapper (R := unit) Sample.p_0000 true Sample.fs_locked
  = (Normal (Some ("error",
                   Some ("case_0001.nii.gz: Permission denied: case_0001.nii.gz"))),
     Sample.fs_locked)
  /\ _fix_metadata_wrapper (R := unit) Sample.p_0000 true Sample.fs_unsearchable
     = (Raised (mk_exn PermissionError "Permission denied: case_0001.nii.gz"),
        Sample.fs_unsearchable).
Proof.
  split.
  - apply (proj1 (proj2 (wrapper_converts_exceptions (R := unit)
                           Sample.p_0000 true Sample.fs_locked))
             (mk_exn PermissionError "Permission denied: case_0001.nii.gz")
             Sample.fs_locked).
    + apply not_elem_of_empty.
    + vm_compute. eexists. reflexivity.
    + vm_compute. reflexivity.
  - apply (proj2 (proj2 (proj2 (wrapper_converts_exceptions (R := unit)
                                  Sample.p_0000 true Sample.fs_unsearchable)))).
    change ("imagesTr" ∈ ({["imagesTr"]} : gset string)).
    apply elem_of_singleton_2. reflexivity.
Defined.

(** C8. A call of [fix_metadata] that does not raise has the value
    [True], with [overwrite] set or not; the statements before the
    trailing [return False] never complete normally (they return
    [True] or raise), so control never reaches it. *)
Theorem fix_metadata_return_False_unreachable
    {R} (ref dep : Path) (ow : bool) (fs : FileSystem) :
  match fst (fix_metadata (R := R) ref dep ow fs) with
  | Normal v => v = Some true
  | Returned _ => False
  | Raised e => is_Exception (exn_class_of e) = true
  end
  /\ match fst (fix_metadata_save_and_return ref dep ow fs) with
     | Normal _ => False
     | Returned r => r = true
     | Raised _ => True
     end.
Proof.
  split.
  - destruct (fix_metadata_cases (R := R) ref dep ow fs)
      as [(img0 & img1 & _ & ->)|(e & fs1 & He & -> & _)]; simpl; auto.
  - destruct (fix_metadata_save_and_return_cases ref dep ow fs)
      as [(img0 & img1 & _ & ->)|(e & fs1 & He & -> & _)]; simpl; auto.
Qed.

Example fix_metadata_True_overwrite :
  fst (fix_metadata (R := unit) Sample.p_0000 Sample.p_0001 true Sample.fs0)
  = Normal (Some true).
Proof. vm_compute. reflexivity. Qed.

Example fix_metadata_True_backup :
  fst (fix_metadata (R := unit) Sample.p_0000 Sample.p_0001 false Sample.fs0)
  = Normal (Some true).
Proof. vm_compute. reflexivity. Qed.

(** [except Exception] lets a [KeyboardInterrupt] through. *)
Example try_except_passes_KeyboardInterrupt :
  try_except (St := unit) (R := unit) (A := unit)
    (raise (mk_exn KeyboardInterrupt ""))
    (fun _ => mret tt) tt
  = (Raised (mk_exn KeyboardInterrupt ""), tt).
Proof. reflexivity. Qed.

(** * Facts on [str.replace] and [Path.stem] *)

Lemma str_app_nil_l (t : string) : "" +:+ t = t.
Proof. reflexivity. Qed.

Lemma str_app_cons (c : ascii) (s t : string) :
  String c s +:+ t = String c (s +:+ t).
Proof. reflexivity. Qed.

Lemma str_app_nil_r (s : string) : s +:+ "" = s.
Proof.
  induction s as [|c s IH]; [reflexivity|].
  rewrite str_app_cons, IH. reflexivity.
Qed.

Lemma str_app_assoc (s t u : string) : (s +:+ t) +:+ u = s +:+ (t +:+ u).
Proof.
  induction s as [|c s IH]; [reflexivity|].
  rewrite !str_app_cons, IH. reflexivity.
Qed.

Lemma str_length_app (s t : string) :
  String.length (s +:+ t) = (String.length s + String.length t)%nat.
Proof.
  induction s as [|c s IH]; [reflexivity|].
  rewrite str_app_cons. simpl. rewrite IH. reflexivity.
Qed.

Lemma prefix_refl (s : string) : String.prefix s s = true.
Proof.
  induction s as [|c s IH]; simpl; [reflexivity|].
  destruct (ascii_dec c c); [exact IH|congruence].
Qed.

Lemma prefix_cons (a c : ascii) (p s : string) :
  String.prefix (String a p) (String c s) = true <-> a = c /\ String.prefix p s = true.
Proof.
  simpl. destruct (ascii_dec a c) as [E|E]; split.
  - auto.
  - intros [_ H]. exact H.
  - discriminate.
  - intros [H _]. contradiction.
Qed.

(** An occurrence of [p] at the start of [b ++ t] lies inside [b] or
    runs over the end of [b]. *)
Lemma prefix_app_split (p b t : string) :
  String.prefix p (b +:+ t) = true ->
  String.prefix p b = true \/ exists p2, p = b +:+ p2 /\ String.prefix p2 t = true.
Proof.
  revert p. induction b as [|c b IH]; intros p H.
  - right. exists p. auto.
  - destruct p as [|a p]; [left; reflexivity|].
    rewrite str_app_cons in H. apply prefix_cons in H as [-> H].
    destruct (IH p H) as [Hb|(p2 & -> & H2)].
    + left. apply prefix_cons. auto.
    + right. exists p2. rewrite str_app_cons. auto.
Qed.

Lemma str_mem_app_cons (c : ascii) (s t : string) :
  str_mem c (s +:+ String c t) = true.
Proof.
  induction s as [|a s IH].
  - rewrite str_app_nil_l. simpl. rewrite Ascii.eqb_refl. reflexivity.
  - rewrite str_app_cons. simpl. rewrite IH. apply orb_true_r.
Qed.

(** A pattern whose first character occurs nowhere else in it cannot
    start inside [b] and run into a copy of itself put after [b]. *)
Lemma prefix_no_straddle (a c : ascii) (old' b : string) :
  str_mem a old' = false ->
  String.prefix (String a old') (String c b) = false ->
  String.prefix (String a old') (String c b +:+ String a old') = false.
Proof.
  intros Hmem Hb.
  destruct (String.prefix (String a old') (String c b +:+ String a old')) eqn:E;
    [|reflexivity].
  apply prefix_app_split in E as [E|(p2 & Hp & H2)]; [congruence|].
  rewrite str_app_cons in Hp. injection Hp as -> ->.
  destruct p2 as [|x p2].
  - rewrite str_app_nil_r in Hb. rewrite prefix_refl in Hb. discriminate.
  - apply prefix_cons in H2 as [-> _].
    rewrite str_mem_app_cons in Hmem. discriminate.
Qed.

Lemma replace_from_skip_all (old new : string) (k : nat) (s : string) :
  (String.length s <= k)%nat -> replace_from old new k s = "".
Proof.
  revert k. induction s as [|c s IH]; intros k Hk; simpl; [reflexivity|].
  destruct k as [|k]; [simpl in Hk; lia|]. apply IH. simpl in Hk. lia.
Qed.

(** Replacing a pattern that occurs at the end of the string and
    nowhere before it replaces that suffix. *)
Lemma str_replace_suffix (a : ascii) (old' new stem : string) :
  str_mem a old' = false ->
  str_contains (String a old') stem = false ->
  str_replace (stem +:+ String a old') (String a old') new = stem +:+ new.
Proof.
  intros Hmem. unfold str_replace. cbv iota.
  induction stem as [|c stem IH]; intros Hc.
  - rewrite !str_app_nil_l. cbn [replace_from]. rewrite prefix_refl.
    cbn [String.length]. rewrite Nat.sub_1_r. cbn [Nat.pred].
    rewrite replace_from_skip_all by lia.
    apply str_app_nil_r.
  - cbn [str_contains] in Hc. apply orb_false_elim in Hc as [Hp Hc].
    rewrite !str_app_cons. cbn [replace_from].
    rewrite <- str_app_cons.
    rewrite (prefix_no_straddle a c old' stem Hmem Hp).
    rewrite (IH Hc). reflexivity.
Qed.

Lemma prefix_length (p s : string) :
  String.prefix p s = true -> (String.length p <= String.length s)%nat.
Proof.
  revert s. induction p as [|a p IH]; intros s H; simpl; [lia|].
  destruct s as [|c s]; [discriminate|].
  apply prefix_cons in H as [_ H]. apply IH in H. simpl. lia.
Qed.

Lemma prefix_nil (s : string) : String.prefix "" s = true.
Proof. destruct s; reflexivity. Qed.

Lemma prefix_app_l (p b t : string) :
  String.prefix p b = true -> String.prefix p (b +:+ t) = true.
Proof.
  revert b. induction p as [|a p IH]; intros b H; [apply prefix_nil|].
  destruct b as [|c b]; [discriminate|].
  apply prefix_cons in H as [-> H]. rewrite str_app_cons.
  apply prefix_cons. auto.
Qed.

(** Scanning [stem ++ old] does on [stem] what it does on [stem]
    alone, and then replaces the final [old]: no occurrence runs over
    the boundary. *)
Lemma replace_from_app_old (a : ascii) (old' new stem : string) (k : nat) :
  str_mem a old' = false ->
  (k <= String.length stem)%nat ->
  replace_from (String a old') new k (stem +:+ String a old')
  = replace_from (String a old') new k stem +:+ new.
Proof.
  intros Hmem. revert k. induction stem as [|c stem IH]; intros k Hk.
  - simpl in Hk. assert (k = 0%nat) as -> by lia.
    rewrite !str_app_nil_l. cbn [replace_from]. rewrite prefix_refl.
    cbn [String.length]. rewrite Nat.sub_1_r. cbn [Nat.pred].
    rewrite replace_from_skip_all by lia.
    apply str_app_nil_r.
  - rewrite str_app_cons. destruct k as [|k].
    + cbn [replace_from]. rewrite <- str_app_cons.
      destruct (String.prefix (String a old') (String c stem)) eqn:Hp.
      * rewrite (prefix_app_l _ _ _ Hp).
        apply prefix_length in Hp. simpl in Hp.
        rewrite IH by (simpl; lia).
        rewrite str_app_assoc. reflexivity.
      * rewrite (prefix_no_straddle a c old' stem Hmem Hp).
        rewrite IH by lia. rewrite str_app_cons. reflexivity.
    + cbn [replace_from]. apply IH. simpl in Hk. lia.
Qed.

(** Equal strings have equal suffixes of a given length. *)
Lemma app_suffix_inj (a b s t : string) :
  String.length s = String.length t -> a +:+ s = b +:+ t -> s = t.
Proof.
  intros Hlen. revert b. induction a as [|x a IH]; intros b E.
  - rewrite str_app_nil_l in E. destruct b as [|y b].
    + exact E.
    + apply (f_equal String.length) in E.
      rewrite str_app_cons in E. simpl in E. rewrite str_length_app in E. lia.
  - destruct b as [|y b].
    + rewrite str_app_nil_l in E. apply (f_equal String.length) in E.
      rewrite str_app_cons in E. simpl in E. rewrite str_length_app in E. lia.
    + rewrite !str_app_cons in E. injection E as _ E. apply (IH b E).
Qed.

Lemma str_rfind_app (c : ascii) (b s : string) :
  str_rfind c (b +:+ s)
  = match str_rfind c s with
    | Some i => Some (String.length b + i)%nat
    | None => str_rfind c b
    end.
Proof.
  induction b as [|a b IH].
  - rewrite str_app_nil_l. destruct (str_rfind c s); reflexivity.
  - rewrite str_app_cons. simpl. rewrite IH. destruct (str_rfind c s); reflexivity.
Qed.

Lemma substring_app_l (b s : string) (k : nat) :
  String.substring 0 (String.length b + k) (b +:+ s) = b +:+ String.substring 0 k s.
Proof.
  induction b as [|a b IH]; [reflexivity|].
  rewrite !str_app_cons. simpl. rewrite IH. reflexivity.
Qed.

(** The stem of [base.nii.gz] is [base.nii]. *)
Lemma stem_nii_gz_of (d base : string) :
  stem (mkPath d (base +:+ ".nii.gz")) = base +:+ ".nii".
Proof.
  unfold stem. cbn [name].
  rewrite str_rfind_app. cbn [str_rfind Ascii.eqb Bool.eqb].
  rewrite str_length_app. cbn [String.length].
  replace ((0 <? String.length base + 4)%nat) with true
    by (symmetry; apply Nat.ltb_lt; lia).
  replace ((String.length base + 4 <? String.length base + 7 - 1)%nat) with true
    by (symmetry; apply Nat.ltb_lt; lia).
  cbn [andb]. rewrite substring_app_l. reflexivity.
Qed.


(** The companion of [stem_0000.nii.gz] is [stem_0001.nii.gz] when
    [_0000.nii.gz] does not occur in [stem]. *)
Lemma companion_name_suffix (d stem : string) :
  str_contains "_0000.nii.gz" stem = false ->
  img_0001_path_of (mkPath d (stem +:+ "_0000.nii.gz"))
  = mkPath d (stem +:+ "_0001.nii.gz").
Proof.
  intros Hc. unfold img_0001_path_of, joinpath. cbn [parent name].
  rewrite (str_replace_suffix "_" "0000.nii.gz" "_0001.nii.gz" stem eq_refl Hc).
  reflexivity.
Qed.

(** Whatever comes before it, a final [_0000.nii.gz] becomes
    [_0001.nii.gz]. *)
Lemma companion_name_ends (d stem : string) :
  img_0001_path_of (mkPath d (stem +:+ "_0000.nii.gz"))
  = mkPath d (str_replace stem "_0000.nii.gz" "_0001.nii.gz" +:+ "_0001.nii.gz").
Proof.
  unfold img_0001_path_of, joinpath, str_replace. cbn [parent name].
  rewrite (replace_from_app_old "_" "0000.nii.gz" "_0001.nii.gz" stem 0 eq_refl)
    by lia.
  reflexivity.
Qed.

(** The backup of a [.nii.gz] file is named [..._backup.nii.gz]. *)
Lemma backup_name_ends (d base : string) :
  backup_path_of (mkPath d (base +:+ ".nii.gz"))
  = mkPath d (str_replace base ".nii" "_backup.nii" +:+ "_backup.nii.gz").
Proof.
  unfold backup_path_of, joinpath, str_replace. cbn [parent].
  rewrite stem_nii_gz_of.
  rewrite (replace_from_app_old "." "nii" "_backup.nii" base 0 eq_refl) by lia.
  rewrite str_app_assoc. reflexivity.
Qed.

Lemma names_0001_0000_differ (x stem : string) :
  x +:+ "_0001.nii.gz" <> stem +:+ "_0000.nii.gz".
Proof.
  intros E. apply app_suffix_inj in E; [discriminate|reflexivity].
Qed.

Lemma names_backup_0000_differ (x stem : string) :
  x +:+ "_backup.nii.gz" <> stem +:+ "_0000.nii.gz".
Proof.
  intros E.
  replace (x +:+ "_backup.nii.gz") with ((x +:+ "_backu") +:+ "p.nii.gz") in E
    by (rewrite str_app_assoc; reflexivity).
  replace (stem +:+ "_0000.nii.gz") with ((stem +:+ "_000") +:+ "0.nii.gz") in E
    by (rewrite str_app_assoc; reflexivity).
  apply app_suffix_inj in E; [discriminate|reflexivity].
Qed.



(** For a reference named as the batch driver's pattern
    [*_0000.nii.gz] wants, neither the dependent path nor its backup
    path is the reference path. *)
Lemma conventional_paths_distinct (p : Path) (stem : string) :
  name p = stem +:+ "_0000.nii.gz" ->
  img_0001_path_of p <> p /\ backup_path_of (img_0001_path_of p) <> p.
Proof.
  intros Hn. destruct p as [d n]. cbn [name] in Hn. subst n.
  rewrite companion_name_ends.
  set (r := str_replace stem "_0000.nii.gz" "_0001.nii.gz").
  split.
  - intros E. injection E as E. exact (names_0001_0000_differ _ _ E).
  - replace (r +:+ "_0001.nii.gz") with ((r +:+ "_0001") +:+ ".nii.gz")
      by (rewrite str_app_assoc; reflexivity).
    rewrite backup_name_ends.
    intros E. injection E as E. exact (names_backup_0000_differ _ _ E).
Qed.

(** C4, as stated, fails: [str.replace] rewrites every occurrence of
    [_0000.nii.gz] in the name, not only the one that ends it; and in
    a folder that cannot be searched the existence test raises for a
    dependent file that does not exist, so that no outcome is
    reported. *)
Lemma companion_of_repeated_suffix :
  let p := mkPath "imagesTr" "a_0000.nii.gz_0000.nii.gz" in
  let fs := {| files := {[Sample.p_0000 := NiftiFile Sample.mri]};
               read_denied := ∅; write_denied := ∅;
               unsearchable := {["imagesTr"]} |} in
  name p = "a_0000.nii.gz" +:+ "_0000.nii.gz"
  /\ img_0001_path_of p = mkPath "imagesTr" "a_0001.nii.gz_0001.nii.gz"
  /\ img_0001_path_of p <> mkPath (parent p) ("a_0000.nii.gz" +:+ "_0001.nii.gz")
  /\ files fs !! img_0001_path_of Sample.p_0000 = None
  /\ _fix_metadata_wrapper (R := unit) Sample.p_0000 true fs
     = (Raised (mk_exn PermissionError "Permission denied: case_0001.nii.gz"), fs).
Proof.
  intros p fs. split; [reflexivity|]. split; [reflexivity|].
  split; [vm_compute; discriminate|].
  split; vm_compute; reflexivity.
Qed.

(** C4, amended. The dependent path is the reference path with every
    occurrence of [_0000.nii.gz] in the file name replaced by
    [_0001.nii.gz], in the same directory.  A name that ends in
    [_0000.nii.gz] gets a name that ends in [_0001.nii.gz], and when
    [_0000.nii.gz] occurs nowhere before that end nothing else
    changes.  When no file is at the dependent path, in a directory
    that can be searched, the wrapper reports [('missing', name)] and
    leaves the file system as it was. *)
Theorem companion_path_and_missing
    {R} (p : Path) (ow : bool) (fs : FileSystem) :
  parent (img_0001_path_of p) = parent p
  /\ name (img_0001_path_of p) = str_replace (name p) "_0000.nii.gz" "_0001.nii.gz"
  /\ (forall stem,
        name p = stem +:+ "_0000.nii.gz" ->
        img_0001_path_of p
        = mkPath (parent p)
            (str_replace stem "_0000.nii.gz" "_0001.nii.gz" +:+ "_0001.nii.gz"))
  /\ (forall stem,
        str_contains "_0000.nii.gz" stem = false ->
        name p = stem +:+ "_0000.nii.gz" ->
        img_0001_path_of p = mkPath (parent p) (stem +:+ "_0001.nii.gz"))
  /\ (parent p ∉ unsearchable fs ->
      files fs !! img_0001_path_of p = None ->
      _fix_metadata_wrapper (R := R) p ow fs
      = (Normal (Some ("missing", Some (name p))), fs)).
Proof.
  split; [reflexivity|]. split; [reflexivity|]. split; [|split].
  - intros stem Hn. destruct p as [d n]. cbn [name parent] in *. subst n.
    apply companion_name_ends.
  - intros stem Hc Hn. destruct p as [d n]. cbn [name parent] in *. subst n.
    apply companion_name_suffix. exact Hc.
  - apply wrapper_missing_eq.
Qed.

Lemma companion_path_and_missing_witness :
  img_0001_path_of Sample.p_0000 = mkPath "imagesTr" ("case" +:+ "_0001.nii.gz")
  /\ _fix_metadata_wrapper (R := unit) Sample.p_0000 false Sample.fs_alone
     = (Normal (Some ("missing", Some "case_0000.nii.gz")), Sample.fs_alone).
Proof.
  destruct (companion_path_and_missing (R := unit) Sample.p_0000 false Sample.fs_alone)
    as (_ & _ & _ & Hsuffix & Hmissing).
  split.
  - apply (Hsuffix "case"); reflexivity.
  - apply Hmissing; [apply not_elem_of_empty|]. vm_compute. reflexivity.
Defined.



(** ** Running the reconciler again *)

Lemma cast_uint8_idem (x : np.scalar) :
  np.cast np.uint8 (np.cast np.uint8 x) = np.cast np.uint8 x.
Proof.
  destruct (cast_uint8_byte x) as (z & -> & Hz).
  cbn. rewrite Z.mod_small by lia. reflexivity.
Qed.

Lemma astype_uint8_idem (a : np.ndarray) :
  np.astype (np.astype a np.uint8) np.uint8 = np.astype a np.uint8.
Proof.
  unfold np.astype. simpl. f_equal.
  rewrite map_map. apply map_ext. intros x. apply cast_uint8_idem.
Qed.

Lemma reconciled_again (img0 img1 : Nifti1Image) :
  reconciled img0 (reconciled img0 img1) = reconciled img0 img1.
Proof.
  unfold reconciled. simpl. rewrite astype_uint8_idem. reflexivity.
Qed.

Lemma reconciled_self_again (img : Nifti1Image) :
  reconciled (reconciled img img) (reconciled img img) = reconciled img img.
Proof.
  unfold reconciled at 1.
  rewrite affine_reconciled by reflexivity.
  unfold reconciled.
  cbn [header dataobj qform_code sform_code qform sform pixdim descrip].
  rewrite astype_uint8_idem. reflexivity.
Qed.

Lemma write_file_twice (fs : FileSystem) (p : Path) (f g : File) :
  write_file (write_file fs p f) p g = write_file fs p g.
Proof. unfold write_file. simpl. rewrite insert_insert_eq. reflexivity. Qed.

(** C6, as stated, fails: with backups kept and the reference stored
    under the dependent file's backup name, the first run replaces the
    reference by the original dependent volume, and the second run
    then gives the dependent file that volume's geometry. *)
Lemma second_run_differs_when_backup_is_reference :
  let run := fix_metadata (R := unit) Sample.p_backup Sample.p_0001 false in
  let first := run Sample.fs_backup_taken in
  let second := run (snd first) in
  backup_path_of Sample.p_0001 = Sample.p_backup
  /\ fst first = Normal (Some true)
  /\ fst second = Normal (Some true)
  /\ files (snd second) !! Sample.p_0001 <> files (snd first) !! Sample.p_0001.
Proof.
  intros run first second.
  split; [reflexivity|]. split; [vm_compute; reflexivity|].
  split; [vm_compute; reflexivity|].
  vm_compute. discriminate.
Qed.

Lemma second_run_same {R} (ref dep : Path) (ow : bool) (fs fs1 : FileSystem)
    (v : option bool) :
  (ow = false -> backup_path_of dep = ref -> ref = dep) ->
  fix_metadata (R := R) ref dep ow fs = (Normal v, fs1) ->
  exists fs2,
    fix_metadata (R := R) ref dep ow fs1 = (Normal (Some true), fs2)
    /\ files fs2 !! dep = files fs1 !! dep
    /\ (ow = true -> fs2 = fs1).
Proof.
  intros Halias H.
  destruct (fix_metadata_success ref dep ow fs v fs1 H)
    as (img0 & img1
        & (H0 & R0 & H1 & R1 & W & Wb & S0 & S1 & N0 & N1 & Hd & Nb) & _ & ->).
  set (fixed := reconciled img0 img1).
  set (fs1 := after_fix dep ow img0 img1 fs).
  destruct (permissions_after_fix dep ow img0 img1 fs) as [Hr Hw].
  pose proof (unsearchable_after_fix dep ow img0 img1 fs) as Hu.
  assert (Hdep : files fs1 !! dep = Some (NiftiFile fixed))
    by apply files_after_fix_dep.
  assert (exists img0',
             files fs1 !! ref = Some (NiftiFile img0')
             /\ reconciled img0' fixed = fixed
             /\ degenerate (affine img0') = false)
    as (img0' & Href & Hsame & Hd').
  { destruct (decide (ref = dep)) as [->|Hne].
    - assert (img0 = img1) as -> by congruence.
      exists fixed. split; [exact Hdep|].
      split; [apply reconciled_self_again|].
      unfold fixed. rewrite affine_reconciled by reflexivity. exact Hd.
    - exists img0. split; [|split; [apply reconciled_again|exact Hd]].
      unfold fs1. rewrite files_after_fix_other; [exact H0|exact Hne|].
      intros Hf E. apply Hne. apply Halias; [exact Hf|congruence]. }
  assert (Hcan : can_fix ref dep ow img0' fixed fs1).
  { unfold can_fix. fold fs1 in Hr, Hw, Hu. rewrite Hr, Hw, Hu.
    repeat (split; [assumption|]). exact Nb. }
  exists (after_fix dep ow img0' fixed fs1).
  split; [apply fix_metadata_ok; exact Hcan|].
  split.
  - rewrite files_after_fix_dep, Hsame. symmetry. exact Hdep.
  - intros ->. unfold fs1, after_fix. rewrite Hsame. apply write_file_twice.
Qed.

(** C6, amended. Unless backups are kept and the backup path is the
    reference path (and not the dependent path itself), a second run
    on the files a completed run left completes as well and writes to
    the dependent path the very volume that is already there; without
    backups it changes no file at all.  The exception never arises for
    a reference named [*_0000.nii.gz] and its companion. *)
Theorem second_run_leaves_dependent_unchanged
    {R} (ref dep : Path) (ow : bool) (fs fs1 : FileSystem) (v : option bool) :
  (ow = false -> backup_path_of dep = ref -> ref = dep)
  \/ (exists stem, name ref = stem +:+ "_0000.nii.gz" /\ dep = img_0001_path_of ref) ->
  fix_metadata (R := R) ref dep ow fs = (Normal v, fs1) ->
  exists fs2,
    fix_metadata (R := R) ref dep ow fs1 = (Normal (Some true), fs2)
    /\ files fs2 !! dep = files fs1 !! dep
    /\ (ow = true -> fs2 = fs1).
Proof.
  intros [Halias|(stem & Hn & ->)]; apply second_run_same; [exact Halias|].
  intros _ E. destruct (conventional_paths_distinct ref stem Hn) as [_ Hb].
  contradiction.
Qed.

Lemma second_run_leaves_dependent_unchanged_witness :
  let run := fix_metadata (R := unit) Sample.p_0000 Sample.p_0001 false in
  exists fs2,
    run (snd (run Sample.fs0)) = (Normal (Some true), fs2)
    /\ files fs2 !! Sample.p_0001 = files (snd (run Sample.fs0)) !! Sample.p_0001
    /\ (false = true -> fs2 = snd (run Sample.fs0)).
Proof.
  intros run.
  apply (second_run_leaves_dependent_unchanged (R := unit)
           Sample.p_0000 Sample.p_0001 false Sample.fs0 _ (Some true)).
  - left. intros _ E. vm_compute in E. discriminate.
  - vm_compute. reflexivity.
Defined.

(** C7, as stated, fails: called with one path in both roles, as the
    wrapper does for a name without [_0000.nii.gz], the reconciler
    writes the cast volume over the reference file; and with backups
    kept, a reference stored under the dependent file's backup name is
    replaced by the backup. *)
Lemma reference_rewritten_when_it_is_the_dependent :
  let direct := fix_metadata (R := unit) Sample.p_0001 Sample.p_0001 true Sample.fs0 in
  let wrapped := _fix_metadata_wrapper (R := unit) Sample.p_0001 true Sample.fs0 in
  let backed_up :=
    fix_metadata (R := unit) Sample.p_backup Sample.p_0001 false Sample.fs_backup_taken in
  fst direct = Normal (Some true)
  /\ files (snd direct) !! Sample.p_0001 <> files Sample.fs0 !! Sample.p_0001
  /\ fst wrapped = Normal (Some ("success", None))
  /\ files (snd wrapped) !! Sample.p_0001 <> files Sample.fs0 !! Sample.p_0001
  /\ fst backed_up = Normal (Some true)
  /\ files (snd backed_up) !! Sample.p_backup
     <> files Sample.fs_backup_taken !! Sample.p_backup.
Proof.
  intros direct wrapped backed_up.
  split; [vm_compute; reflexivity|]. split; [vm_compute; discriminate|].
  split; [vm_compute; reflexivity|]. split; [vm_compute; discriminate|].
  split; [vm_compute; reflexivity|]. vm_compute; discriminate.
Qed.

Lemma fix_metadata_keeps_reference {R} (ref dep : Path) (ow : bool) (fs : FileSystem) :
  ref <> dep ->
  (ow = false -> ref <> backup_path_of dep) ->
  files (snd (fix_metadata (R := R) ref dep ow fs)) !! ref = files fs !! ref.
Proof.
  intros Hne Hnb.
  destruct (fix_metadata_cases (R := R) ref dep ow fs)
    as [(img0 & img1 & _ & ->)|(e & fs1 & _ & -> & [->|(img1 & Hf & _ & ->)])];
    cbn [snd].
  - apply files_after_fix_other; assumption.
  - reflexivity.
  - cbn [files write_file]. apply lookup_insert_ne.
    intros E. apply (Hnb Hf). congruence.
Qed.

Lemma wrapper_keeps_reference {R} (ref : Path) (ow : bool) (fs : FileSystem) :
  ref <> img_0001_path_of ref ->
  (ow = false -> ref <> backup_path_of (img_0001_path_of ref)) ->
  files (snd (_fix_metadata_wrapper (R := R) ref ow fs)) !! ref = files fs !! ref.
Proof.
  intros Hne Hnb.
  pose proof (fix_metadata_keeps_reference (R := outcome) ref _ ow fs Hne Hnb) as Hfix.
  destruct (decide (parent ref ∈ unsearchable fs)) as [Hs|Hs].
  { rewrite wrapper_unsearchable_eq by exact Hs. reflexivity. }
  destruct (files fs !! img_0001_path_of ref) as [f|] eqn:Hf.
  - rewrite wrapper_present_eq by (first [exact Hs|rewrite Hf; eauto]).
    destruct (fix_metadata (R := outcome) ref (img_0001_path_of ref) ow fs)
      as [[v|r|e] fs1]; cbn [snd] in *; try exact Hfix.
    destruct (is_Exception (exn_class_of e)); exact Hfix.
  - rewrite wrapper_missing_eq by assumption. reflexivity.
Qed.

(** C7, amended. When the reference path is neither the dependent path
    nor, with backups kept, the backup path, the file at the reference
    path is the same after [fix_metadata] as before, whether the call
    completes or raises, and the same after the wrapper whatever its
    outcome.  This is the case of every reference named
    [*_0000.nii.gz], as the batch driver's pattern selects them. *)
Theorem reference_file_untouched
    {R} (ref : Path) (ow : bool) (fs : FileSystem) :
  (forall dep,
      ref <> dep ->
      (ow = false -> ref <> backup_path_of dep) ->
      files (snd (fix_metadata (R := R) ref dep ow fs)) !! ref = files fs !! ref)
  /\ (ref <> img_0001_path_of ref ->
      (ow = false -> ref <> backup_path_of (img_0001_path_of ref)) ->
      files (snd (_fix_metadata_wrapper (R := R) ref ow fs)) !! ref = files fs !! ref)
  /\ (forall stem,
        name ref = stem +:+ "_0000.nii.gz" ->
        files (snd (_fix_metadata_wrapper (R := R) ref ow fs)) !! ref = files fs !! ref).
Proof.
  split; [|split].
  - intros dep. apply fix_metadata_keeps_reference.
  - apply wrapper_keeps_reference.
  - intros stem Hn.
    destruct (conventional_paths_distinct ref stem Hn) as [Hd Hb].
    apply wrapper_keeps_reference; [congruence|]. intros _ E. apply Hb. congruence.
Qed.

Lemma reference_file_untouched_witness :
  files (snd (fix_metadata (R := unit) Sample.p_0000 Sample.p_0001 false Sample.fs0))
    !! Sample.p_0000
  = files Sample.fs0 !! Sample.p_0000
  /\ files (snd (_fix_metadata_wrapper (R := unit) Sample.p_0000 true Sample.fs_locked))
       !! Sample.p_0000
     = files Sample.fs_locked !! Sample.p_0000.
Proof.
  split.
  - apply (proj1 (reference_file_untouched (R := unit) Sample.p_0000 false Sample.fs0)
             Sample.p_0001).
    + vm_compute. discriminate.
    + intros _. vm_compute. discriminate.
  - apply (proj2 (proj2 (reference_file_untouched (R := unit)
                           Sample.p_0000 true Sample.fs_locked)) "case").
    reflexivity.
Defined.

(** * Further properties of the reconciler *)

Lemma failed_run_frame
    {R} (ref dep : Path) (ow : bool) (fs fs' : FileSystem) (e : exn) :
  fix_metadata (R := R) ref dep ow fs = (Raised e, fs') ->
  files fs' !! dep = files fs !! dep
  /\ (ow = true -> fs' = fs)
  /\ (forall p, p <> backup_path_of dep -> files fs' !! p = files fs !! p)
  /\ read_denied fs' = read_denied fs
  /\ write_denied fs' = write_denied fs.
Proof.
  intros H.
  destruct (fix_metadata_cases (R := R) ref dep ow fs)
    as [(img0 & img1 & _ & E)|(e1 & fs1 & _ & E & Hfs)];
    rewrite E in H; [discriminate|].
  injection H as -> ->.
  destruct Hfs as [->|(img1 & Hf & H1 & ->)]; [auto 10|].
  split; [|split; [|split]].
  - cbn [files write_file].
    destruct (decide (backup_path_of dep = dep)) as [Eb|Hne].
    + rewrite Eb, lookup_insert_eq. symmetry. exact H1.
    + apply lookup_insert_ne. exact Hne.
  - intros ->. discriminate.
  - intros p Hp. cbn [files write_file]. apply lookup_insert_ne. congruence.
  - auto.
Qed.

(** X1. A call of [fix_metadata] that raises leaves the dependent file
    as it was; with [overwrite] set it leaves every file as it was,
    and with backups kept the only path it may have written is the
    backup path. *)
Theorem fix_metadata_failure_keeps_dependent
    {R} (ref dep : Path) (ow : bool) (fs fs' : FileSystem) (e : exn) :
  fix_metadata (R := R) ref dep ow fs = (Raised e, fs') ->
  files fs' !! dep = files fs !! dep
  /\ (ow = true -> fs' = fs)
  /\ (forall p, p <> backup_path_of dep -> files fs' !! p = files fs !! p)
  /\ read_denied fs' = read_denied fs
  /\ write_denied fs' = write_denied fs.
Proof. apply failed_run_frame. Qed.

Lemma fix_metadata_failure_keeps_dependent_witness :
  let r := fix_metadata (R := unit) Sample.p_0000 Sample.p_0001 false Sample.fs_locked in
  fst r = Raised (mk_exn PermissionError "Permission denied: case_0001.nii.gz")
  /\ files (snd r) !! Sample.p_0001 = Some (NiftiFile Sample.mask)
  /\ files (snd r) !! Sample.p_backup = Some (NiftiFile Sample.mask).
Proof.
  intros r.
  assert (Hr : r = (Raised (mk_exn PermissionError "Permission denied: case_0001.nii.gz"),
                    snd r)) by (vm_compute; reflexivity).
  split; [rewrite Hr; reflexivity|].
  split.
  - rewrite (proj1 (fix_metadata_failure_keeps_dependent (R := unit)
                      Sample.p_0000 Sample.p_0001 false Sample.fs_locked _ _ Hr)).
    reflexivity.
  - vm_compute. reflexivity.
Defined.

(** X2. With backups kept, a second completed run stores the
    reconciled volume at the backup path: the original dependent
    volume, which the first run had put there, is overwritten. *)
Theorem second_backup_run_replaces_backup
    {R} (ref dep : Path) (fs fs1 : FileSystem) (v : option bool) :
  backup_path_of dep <> dep ->
  backup_path_of dep <> ref ->
  fix_metadata (R := R) ref dep false fs = (Normal v, fs1) ->
  exists img_0000 img_0001 fs2,
    files fs !! ref = Some (NiftiFile img_0000)
    /\ files fs !! dep = Some (NiftiFile img_0001)
    /\ files fs1 !! backup_path_of dep = Some (NiftiFile img_0001)
    /\ fix_metadata (R := R) ref dep false fs1 = (Normal (Some true), fs2)
    /\ files fs2 !! backup_path_of dep
       = Some (NiftiFile (reconciled img_0000 img_0001)).
Proof.
  intros Hbd Hbr H.
  destruct (fix_metadata_success ref dep false fs v fs1 H)
    as (img0 & img1
        & (H0 & R0 & H1 & R1 & W & Wb & S0 & S1 & N0 & N1 & Hd & Nb) & _ & ->).
  set (fixed := reconciled img0 img1).
  set (fs1 := after_fix dep false img0 img1 fs).
  destruct (permissions_after_fix dep false img0 img1 fs) as [Hr Hw].
  pose proof (unsearchable_after_fix dep false img0 img1 fs) as Hu.
  assert (Hdep : files fs1 !! dep = Some (NiftiFile fixed))
    by apply files_after_fix_dep.
  assert (Hbak : files fs1 !! backup_path_of dep = Some (NiftiFile img1)).
  { unfold fs1, after_fix. cbn [files write_file].
    rewrite lookup_insert_ne by congruence. apply lookup_insert_eq. }
  assert (exists img0',
             files fs1 !! ref = Some (NiftiFile img0')
             /\ reconciled img0' fixed = fixed
             /\ degenerate (affine img0') = false)
    as (img0' & Href & Hsame & Hd').
  { destruct (decide (ref = dep)) as [->|Hne].
    - assert (img0 = img1) as -> by congruence.
      exists fixed. split; [exact Hdep|].
      split; [apply reconciled_self_again|].
      unfold fixed. rewrite affine_reconciled by reflexivity. exact Hd.
    - exists img0. split; [|split; [apply reconciled_again|exact Hd]].
      unfold fs1. rewrite files_after_fix_other; [exact H0|exact Hne|].
      intros _ E. apply Hbr. congruence. }
  assert (Hcan : can_fix ref dep false img0' fixed fs1).
  { unfold can_fix. fold fs1 in Hr, Hw, Hu. rewrite Hr, Hw, Hu.
    repeat (split; [assumption|]). exact Nb. }
  exists img0, img1, (after_fix dep false img0' fixed fs1).
  split; [exact H0|]. split; [exact H1|]. split; [exact Hbak|].
  split; [apply fix_metadata_ok; exact Hcan|].
  unfold after_fix. cbn [files write_file].
  rewrite lookup_insert_ne by congruence. apply lookup_insert_eq.
Qed.

Lemma second_backup_run_replaces_backup_witness :
  let run := fix_metadata (R := unit) Sample.p_0000 Sample.p_0001 false in
  exists img_0000 img_0001 fs2,
    files Sample.fs0 !! Sample.p_0000 = Some (NiftiFile img_0000)
    /\ files Sample.fs0 !! Sample.p_0001 = Some (NiftiFile img_0001)
    /\ files (snd (run Sample.fs0)) !! backup_path_of Sample.p_0001
       = Some (NiftiFile img_0001)
    /\ run (snd (run Sample.fs0)) = (Normal (Some true), fs2)
    /\ files fs2 !! backup_path_of Sample.p_0001
       = Some (NiftiFile (reconciled img_0000 img_0001)).
Proof.
  intros run.
  apply (second_backup_run_replaces_backup (R := unit)
           Sample.p_0000 Sample.p_0001 Sample.fs0 _ (Some true)).
  - vm_compute. discriminate.
  - vm_compute. discriminate.
  - vm_compute. reflexivity.
Defined.

(** The wrapper changes at most the files [fix_metadata] writes. *)
Lemma wrapper_frame {R} (p q : Path) (ow : bool) (fs : FileSystem) :
  q <> img_0001_path_of p ->
  (ow = false -> q <> backup_path_of (img_0001_path_of p)) ->
  files (snd (_fix_metadata_wrapper (R := R) p ow fs)) !! q = files fs !! q.
Proof.
  intros Hne Hnb.
  assert (Hfix : files (snd (fix_metadata (R := outcome) p (img_0001_path_of p) ow fs))
                   !! q = files fs !! q).
  { destruct (fix_metadata_cases (R := outcome) p (img_0001_path_of p) ow fs)
      as [(img0 & img1 & _ & ->)|(e & fs1 & _ & -> & [->|(img1 & Hf & _ & ->)])];
      cbn [snd].
    - apply files_after_fix_other; assumption.
    - reflexivity.
    - cbn [files write_file]. apply lookup_insert_ne.
      intros E. apply (Hnb Hf). congruence. }
  destruct (decide (parent p ∈ unsearchable fs)) as [Hs|Hs].
  { rewrite wrapper_unsearchable_eq by exact Hs. reflexivity. }
  destruct (files fs !! img_0001_path_of p) as [f|] eqn:Hf.
  - rewrite wrapper_present_eq by (first [exact Hs|rewrite Hf; eauto]).
    destruct (fix_metadata (R := outcome) p (img_0001_path_of p) ow fs)
      as [[v|r|e] fs1]; cbn [snd] in *; try exact Hfix.
    destruct (is_Exception (exn_class_of e)); exact Hfix.
  - rewrite wrapper_missing_eq by assumption. reflexivity.
Qed.

Lemma wrapper_permissions {R} (p : Path) (ow : bool) (fs : FileSystem) :
  read_denied (snd (_fix_metadata_wrapper (R := R) p ow fs)) = read_denied fs
  /\ write_denied (snd (_fix_metadata_wrapper (R := R) p ow fs)) = write_denied fs.
Proof.
  assert (Hfix : read_denied (snd (fix_metadata (R := outcome) p (img_0001_path_of p) ow fs))
                 = read_denied fs
                 /\ write_denied (snd (fix_metadata (R := outcome) p (img_0001_path_of p) ow fs))
                    = write_denied fs).
  { destruct (fix_metadata_cases (R := outcome) p (img_0001_path_of p) ow fs)
      as [(img0 & img1 & _ & ->)|(e & fs1 & _ & -> & [->|(img1 & Hf & _ & ->)])];
      cbn [snd]; auto.
    apply permissions_after_fix. }
  destruct (decide (parent p ∈ unsearchable fs)) as [Hs|Hs].
  { rewrite wrapper_unsearchable_eq by exact Hs. auto. }
  destruct (files fs !! img_0001_path_of p) as [f|] eqn:Hf.
  - rewrite wrapper_present_eq by (first [exact Hs|rewrite Hf; eauto]).
    destruct (fix_metadata (R := outcome) p (img_0001_path_of p) ow fs)
      as [[v|r|e] fs1]; cbn [snd] in *; try exact Hfix.
    destruct (is_Exception (exn_class_of e)); exact Hfix.
  - rewrite wrapper_missing_eq by assumption. auto.
Qed.

Lemma wrapper_unsearchable {R} (p : Path) (ow : bool) (fs : FileSystem) :
  unsearchable (snd (_fix_metadata_wrapper (R := R) p ow fs)) = unsearchable fs.
Proof.
  assert (Hfix : unsearchable (snd (fix_metadata (R := outcome) p (img_0001_path_of p) ow fs))
                 = unsearchable fs).
  { destruct (fix_metadata_cases (R := outcome) p (img_0001_path_of p) ow fs)
      as [(img0 & img1 & _ & ->)|(e & fs1 & _ & -> & [->|(img1 & Hf & _ & ->)])];
      cbn [snd]; auto.
    apply unsearchable_after_fix. }
  destruct (decide (parent p ∈ unsearchable fs)) as [Hs|Hs].
  { rewrite wrapper_unsearchable_eq by exact Hs. reflexivity. }
  destruct (files fs !! img_0001_path_of p) as [f|] eqn:Hf.
  - rewrite wrapper_present_eq by (first [exact Hs|rewrite Hf; eauto]).
    destruct (fix_metadata (R := outcome) p (img_0001_path_of p) ow fs)
      as [[v|r|e] fs1]; cbn [snd] in *; try exact Hfix.
    destruct (is_Exception (exn_class_of e)); exact Hfix.
  - rewrite wrapper_missing_eq by assumption. reflexivity.
Qed.

(** X3. In a directory that can be searched the wrapper reports
    ['missing'] exactly when no file is at the dependent path; in a
    directory that cannot be searched it raises the [PermissionError]
    of the existence test and leaves the file system as it was.  When
    both paths hold readable volumes under names of volumes, the
    affine of the reference has no zero column and every path to be
    written is writable, it reports ['success'] and leaves the file
    system of the completed run.  Whenever it reports ['success'],
    both paths held volumes and the dependent path holds the
    reconciled one afterwards. *)
Theorem wrapper_outcome_characterised
    {R} (p : Path) (ow : bool) (fs : FileSystem) :
  (parent p ∉ unsearchable fs ->
   (files fs !! img_0001_path_of p = None
    <-> fst (_fix_metadata_wrapper (R := R) p ow fs)
        = Normal (Some ("missing", Some (name p)))))
  /\ (parent p ∈ unsearchable fs ->
      _fix_metadata_wrapper (R := R) p ow fs
      = (Raised (mk_exn PermissionError
                   ("Permission denied: " +:+ name (img_0001_path_of p))), fs))
  /\ (forall img0 img1,
        can_fix p (img_0001_path_of p) ow img0 img1 fs ->
        _fix_metadata_wrapper (R := R) p ow fs
        = (Normal (Some ("success", None)),
           after_fix (img_0001_path_of p) ow img0 img1 fs))
  /\ (fst (_fix_metadata_wrapper (R := R) p ow fs) = Normal (Some ("success", None)) ->
      exists img0 img1,
        files fs !! p = Some (NiftiFile img0)
        /\ files fs !! img_0001_path_of p = Some (NiftiFile img1)
        /\ files (snd (_fix_metadata_wrapper (R := R) p ow fs)) !! img_0001_path_of p
           = Some (NiftiFile (reconciled img0 img1))).
Proof.
  assert (Hok : forall img0 img1,
             can_fix p (img_0001_path_of p) ow img0 img1 fs ->
             _fix_metadata_wrapper (R := R) p ow fs
             = (Normal (Some ("success", None)),
                after_fix (img_0001_path_of p) ow img0 img1 fs)).
  { intros img0 img1 Hc.
    rewrite wrapper_present_eq.
    - rewrite (fix_metadata_ok (R := outcome) _ _ _ _ _ _ Hc). reflexivity.
    - destruct Hc as (_ & _ & _ & _ & _ & _ & S0 & _). exact S0.
    - destruct Hc as (_ & _ & H1 & _). rewrite H1. eauto. }
  split; [|split; [apply wrapper_unsearchable_eq|split; [exact Hok|]]].
  - intros Hs. split.
    + intros Hn. rewrite wrapper_missing_eq by assumption. reflexivity.
    + intros Hm. destruct (files fs !! img_0001_path_of p) as [f|] eqn:Hf;
        [|reflexivity].
      rewrite wrapper_present_eq in Hm by (first [exact Hs|rewrite Hf; eauto]).
      destruct (fix_metadata_cases (R := outcome) p (img_0001_path_of p) ow fs)
        as [(img0 & img1 & _ & E)|(e & fs1 & He & E & _)];
        rewrite E in Hm; [|rewrite He in Hm]; cbn [fst] in Hm; discriminate.
  - intros Hsuccess.
    destruct (decide (parent p ∈ unsearchable fs)) as [Hs|Hs].
    { rewrite wrapper_unsearchable_eq in Hsuccess by exact Hs. discriminate. }
    destruct (files fs !! img_0001_path_of p) as [f|] eqn:Hf.
    + rewrite wrapper_present_eq in * by (first [exact Hs|rewrite Hf; eauto]).
      destruct (fix_metadata_cases (R := outcome) p (img_0001_path_of p) ow fs)
        as [(img0 & img1 & Hc & E)|(e & fs1 & He & E & _)].
      * rewrite E. cbn [snd]. exists img0, img1.
        destruct Hc as (H0 & _ & H1 & _).
        split; [exact H0|]. split; [congruence|]. apply files_after_fix_dep.
      * rewrite E in Hsuccess. rewrite He in Hsuccess. cbn [fst] in Hsuccess.
        discriminate.
    + rewrite wrapper_missing_eq in Hsuccess by assumption. cbn [fst] in Hsuccess.
      discriminate.
Qed.

Lemma wrapper_outcome_characterised_witness :
  _fix_metadata_wrapper (R := unit) Sample.p_0000 true Sample.fs0
  = (Normal (Some ("success", None)),
     after_fix (img_0001_path_of Sample.p_0000) true Sample.mri Sample.mask Sample.fs0).
Proof.
  apply (proj1 (proj2 (proj2 (wrapper_outcome_characterised (R := unit)
                                Sample.p_0000 true Sample.fs0)))).
  unfold can_fix.
  repeat split; try apply not_elem_of_empty; try discriminate; reflexivity.
Defined.

(** X4. Whatever its outcome, the wrapper changes no file other than
    the dependent file and, with backups kept, its backup; it changes
    no permission; and unless it reports ['success'] the dependent
    file itself is as before. *)
Theorem wrapper_changes_only_its_pair
    {R} (p : Path) (ow : bool) (fs : FileSystem) :
  (forall q,
      q <> img_0001_path_of p ->
      (ow = false -> q <> backup_path_of (img_0001_path_of p)) ->
      files (snd (_fix_metadata_wrapper (R := R) p ow fs)) !! q = files fs !! q)
  /\ read_denied (snd (_fix_metadata_wrapper (R := R) p ow fs)) = read_denied fs
  /\ write_denied (snd (_fix_metadata_wrapper (R := R) p ow fs)) = write_denied fs
  /\ (fst (_fix_metadata_wrapper (R := R) p ow fs) <> Normal (Some ("success", None)) ->
      files (snd (_fix_metadata_wrapper (R := R) p ow fs)) !! img_0001_path_of p
      = files fs !! img_0001_path_of p).
Proof.
  split; [intros q; apply wrapper_frame|].
  split; [apply wrapper_permissions|]. split; [apply wrapper_permissions|].
  intros Hns.
  destruct (decide (parent p ∈ unsearchable fs)) as [Hs|Hs].
  { rewrite wrapper_unsearchable_eq by exact Hs. reflexivity. }
  destruct (files fs !! img_0001_path_of p) as [f|] eqn:Hf.
  - rewrite wrapper_present_eq in * by (first [exact Hs|rewrite Hf; eauto]).
    destruct (fix_metadata (R := outcome) p (img_0001_path_of p) ow fs)
      as [[v|r|e] fs1] eqn:E; cbn [fst snd] in *.
    + contradiction.
    + destruct (fix_metadata_cases (R := outcome) p (img_0001_path_of p) ow fs)
        as [(img0 & img1 & _ & E')|(e' & fs' & _ & E' & _)];
        rewrite E' in E; discriminate.
    + pose proof (proj1 (failed_run_frame p (img_0001_path_of p) ow fs fs1 e E))
        as Hk.
      destruct (is_Exception (exn_class_of e)); cbn [snd]; rewrite Hk; exact Hf.
  - rewrite wrapper_missing_eq by assumption. exact Hf.
Qed.

(** * The label maps: scripts/update_jsons.py *)

(** The loop of [update_step1_map] and [update_step2_map], key by key.
    [map_fold] visits the entries in an order of its own; the keys of a
    dictionary are distinct, so the result is the same in any order. *)
Lemma shift_loop_lookup (init data : gmap string Z) (k : string) :
  map_fold (fun k v new_data => <[k := v + 1]> new_data) init data !! k
  = match data !! k with
    | Some v => Some (v + 1)
    | None => init !! k
    end.
Proof.
  revert k.
  apply (map_fold_weak_ind
           (fun r m => forall k, r !! k = match m !! k with
                                          | Some v => Some (v + 1)
                                          | None => init !! k
                                          end)).
  - intros k. rewrite lookup_empty. reflexivity.
  - intros i x m r Hi IH k.
    destruct (decide (i = k)) as [->|Hne].
    + rewrite !lookup_insert_eq. reflexivity.
    + rewrite !lookup_insert_ne by exact Hne. apply IH.
Qed.

Lemma shifted_lookup (data : gmap string Z) (k : string) :
  UpdateJsons.shifted data !! k
  = match data !! k with
    | Some v => Some (v + 1)
    | None => if decide (k = "101") then Some 1 else None
    end.
Proof.
  unfold UpdateJsons.shifted. rewrite shift_loop_lookup.
  destruct (data !! k); [reflexivity|].
  destruct (decide (k = "101")) as [->|Hne].
  - apply lookup_insert_eq.
  - rewrite lookup_insert_ne by congruence. apply lookup_empty.
Qed.

Lemma update_step1_map_eq {R} (st : gmap string (gmap string Z)) (data : gmap string Z) :
  st !! UpdateJsons.step1_map_path = Some data ->
  UpdateJsons.update_step1_map (R := R) st
  = (Normal None, <[UpdateJsons.step1_map_path := UpdateJsons.shifted data]> st).
Proof.
  intros H.
  unfold UpdateJsons.update_step1_map, UpdateJsons.update_step1_map_body,
    call, mbind, stmt_bind, json.load, json.dump.
  rewrite H. reflexivity.
Qed.

Lemma update_step2_map_eq {R} (st : gmap string (gmap string Z)) (data : gmap string Z) :
  st !! UpdateJsons.step2_map_path = Some data ->
  UpdateJsons.update_step2_map (R := R) st
  = (Normal None, <[UpdateJsons.step2_map_path := UpdateJsons.shifted data]> st).
Proof.
  intros H.
  unfold UpdateJsons.update_step2_map, UpdateJsons.update_step2_map_body,
    call, mbind, stmt_bind, json.load, json.dump.
  rewrite H. reflexivity.
Qed.

Lemma shifted_shifts_label_map (path : string)
    (update : forall R, stmt (gmap string (gmap string Z)) R (option Empty_set)) :
  (forall R st data,
      st !! path = Some data ->
      update R st = (Normal None, <[path := UpdateJsons.shifted data]> st)) ->
  UpdateJsons.shifts_label_map path update.
Proof.
  intros Hupd R st data Hst.
  exists (UpdateJsons.shifted data), (UpdateJsons.shifted (UpdateJsons.shifted data)).
  split; [apply Hupd; exact Hst|].
  split.
  { rewrite (Hupd R _ (UpdateJsons.shifted data)) by apply lookup_insert_eq.
    rewrite insert_insert_eq. reflexivity. }
  split.
  { intros k v Hk. rewrite shifted_lookup, Hk. reflexivity. }
  split.
  { rewrite shifted_lookup. destruct (data !! "101"); [eauto|].
    rewrite decide_True by reflexivity. eauto. }
  split.
  { intros Hk. rewrite shifted_lookup, Hk. rewrite decide_True by reflexivity.
    reflexivity. }
  split.
  { intros v Hk. rewrite shifted_lookup, Hk. reflexivity. }
  split.
  { rewrite shifted_lookup. destruct (data !! "101") as [v|].
    - split.
      + intros E. right. f_equal. injection E as E. lia.
      + intros [E|E]; [discriminate|]. injection E as ->. reflexivity.
    - rewrite decide_True by reflexivity. split; auto. }
  split.
  { intros k Hne Hk. rewrite shifted_lookup, Hk. rewrite decide_False by exact Hne.
    reflexivity. }
  split.
  { intros k v Hk. rewrite !shifted_lookup, Hk. f_equal. lia. }
  intros E.
  assert (H101 : UpdateJsons.shifted (UpdateJsons.shifted data) !! "101" = UpdateJsons.shifted data !! "101")
    by (rewrite E; reflexivity).
  rewrite (shifted_lookup (UpdateJsons.shifted data)) in H101.
  destruct (UpdateJsons.shifted data !! "101") as [w|] eqn:Hw.
  - injection H101 as H101. lia.
  - rewrite decide_True in H101 by reflexivity. discriminate.
Qed.

(** C9, as stated, fails: a map that has the key ["101"] at 0 is
    written back with ["101"] at 1, although ["101"] is a key of the
    input. *)
Lemma label_101_is_1_for_an_input_key :
  let data : gmap string Z := {["101" := 0]} in
  let st : gmap string (gmap string Z) := {[UpdateJsons.step1_map_path := data]} in
  is_Some (data !! "101")
  /\ exists once : gmap string Z,
       UpdateJsons.update_step1_map (R := unit) st
       = (Normal None, <[UpdateJsons.step1_map_path := once]> st)
       /\ once !! "101" = Some 1.
Proof.
  intros data st. split; [eexists; reflexivity|].
  exists (UpdateJsons.shifted data).
  split; [apply update_step1_map_eq; reflexivity|].
  rewrite shifted_lookup. reflexivity.
Qed.

(** C9, amended. [update_step1_map] and [update_step2_map] write a map
    that sends every key of the map read to its value plus one and
    that has the key ["101"]: at 1 when the map read has no ["101"],
    at the old value plus one when it has, hence at 1 exactly when the
    map read has no ["101"] or has it at 0; no other key is added.
    Run again on its own output either function adds one once more,
    so every original value has grown by two and the second output
    differs from the first. *)
Theorem update_maps_shift_every_label :
  UpdateJsons.shifts_label_map UpdateJsons.step1_map_path (@UpdateJsons.update_step1_map)
  /\ UpdateJsons.shifts_label_map UpdateJsons.step2_map_path (@UpdateJsons.update_step2_map).
Proof.
  split; apply shifted_shifts_label_map; intros R st data H.
  - apply update_step1_map_eq. exact H.
  - apply update_step2_map_eq. exact H.
Qed.

Lemma update_maps_shift_every_label_witness :
  let data : gmap string Z := <["63" := 1]> (<["101" := 9]> ∅) in
  let st : gmap string (gmap string Z) := {[UpdateJsons.step1_map_path := data]} in
  exists once twice : gmap string Z,
    UpdateJsons.update_step1_map (R := unit) st
    = (Normal None, <[UpdateJsons.step1_map_path := once]> st)
    /\ once !! "63" = Some 2 /\ once !! "101" = Some 10
    /\ once !! "101" <> Some 1
    /\ twice !! "63" = Some 3 /\ twice <> once.
Proof.
  intros data st.
  destruct (proj1 update_maps_shift_every_label unit st data)
    as (once & twice & H1 & _ & Hk & _ & _ & H101 & Hiff & _ & Hk2 & Hne).
  { reflexivity. }
  exists once, twice.
  split; [exact H1|].
  split; [apply (Hk "63" 1); reflexivity|].
  split; [apply (H101 9); reflexivity|].
  split; [intros E; apply Hiff in E as [E|E]; discriminate E|].
  split; [apply (Hk2 "63" 1); reflexivity|exact Hne].
Defined.

(** * The class order: update_json_order.py and revert_json_order.py *)

Import json.
Local Open Scope list_scope.

Lemma int_eq_JNum (n : Z) (x : value) :
  n <> 0 -> n <> 1 -> int_eq n x = true -> x = JNum n.
Proof.
  intros H0 H1 H. destruct x as [|b|m|s|l|fs]; simpl in H; try discriminate.
  - destruct b; apply Z.eqb_eq in H; congruence.
  - apply Z.eqb_eq in H. congruence.
Qed.

(** [l.remove(n)] drops the first [n] of a list that has one. *)
Lemma list_remove_first (n : Z) (l : list value) :
  n <> 0 -> n <> 1 -> list_contains n l = true ->
  exists pre post,
    l = pre ++ JNum n :: post
    /\ list_contains n pre = false
    /\ list_remove n l = Some (pre ++ post).
Proof.
  intros H0 H1. induction l as [|x l IH]; simpl; [discriminate|].
  destruct (int_eq n x) eqn:Hx; simpl.
  - intros _. exists [], l. rewrite (int_eq_JNum n x H0 H1 Hx). auto.
  - intros Hl. destruct (IH Hl) as (pre & post & -> & Hpre & ->).
    exists (x :: pre), post. simpl. rewrite Hx, Hpre. auto.
Qed.

Lemma move_to_front_list {St R} (n : Z) (l : list value) (st : St) :
  n <> 0 -> n <> 1 ->
  JsonOrder.move_to_front (R := R) n (JArr l) st = (Normal (JArr (JsonOrder.front_moved n l)), st).
Proof.
  intros H0 H1. unfold JsonOrder.move_to_front, JsonOrder.front_moved.
  destruct (list_contains n l) eqn:Hc; [|reflexivity].
  destruct (list_remove_first n l H0 H1 Hc) as (pre & post & _ & _ & ->).
  reflexivity.
Qed.

Lemma front_moved_present (n : Z) (l : list value) :
  n <> 0 -> n <> 1 -> list_contains n l = true ->
  exists pre post,
    l = pre ++ JNum n :: post
    /\ list_contains n pre = false
    /\ JsonOrder.front_moved n l = JNum n :: pre ++ post.
Proof.
  intros H0 H1 Hc. unfold JsonOrder.front_moved. rewrite Hc.
  destruct (list_remove_first n l H0 H1 Hc) as (pre & post & Hl & Hpre & ->).
  eauto.
Qed.

Lemma front_moved_perm (n : Z) (l : list value) :
  n <> 0 -> n <> 1 -> JsonOrder.front_moved n l ≡ₚ l.
Proof.
  intros H0 H1. destruct (list_contains n l) eqn:Hc.
  - destruct (front_moved_present n l H0 H1 Hc) as (pre & post & -> & _ & ->).
    apply Permutation_middle.
  - unfold JsonOrder.front_moved. rewrite Hc. reflexivity.
Qed.

Lemma reorders_classes_intro (n hi : Z) (path : string)
    (update revert : forall R, stmt (gmap string (gmap string value)) R (option Empty_set)) :
  n <> 0 -> n <> 1 ->
  (forall R st data l,
      st !! path = Some data ->
      data !! "regions_class_order" = Some (JArr l) ->
      update R st
      = (Normal None,
         <[path := <["regions_class_order" := JArr (JsonOrder.front_moved n l)]> data]> st)) ->
  (forall R st data,
      st !! path = Some data ->
      revert R st
      = (Normal None,
         <[path := <["regions_class_order" := JArr (range 1 hi)]> data]> st)) ->
  JsonOrder.reorders_classes n hi path update revert.
Proof.
  intros H0 H1 Hupd Hrev. split.
  - intros R st data l Hst Hl.
    exists (JsonOrder.front_moved n l), (<["regions_class_order" := JArr (JsonOrder.front_moved n l)]> data).
    split; [apply Hupd; assumption|].
    split; [apply lookup_insert_eq|].
    split; [intros k Hk; apply lookup_insert_ne; congruence|].
    split; [apply front_moved_perm; assumption|].
    split; [apply front_moved_present; assumption|].
    split; [intros Hc; unfold JsonOrder.front_moved; rewrite Hc; reflexivity|].
    exists (<["regions_class_order" := JArr (range 1 hi)]> data).
    split.
    { rewrite (Hrev R _ _ (lookup_insert_eq _ _ _)).
      rewrite insert_insert_eq. rewrite insert_insert_eq. reflexivity. }
    split; [apply lookup_insert_eq|].
    split.
    { rewrite lookup_insert_eq, Hl. split; intros E; congruence. }
    split.
    + intros E.
      assert (Hp : <[path := <["regions_class_order" := JArr (range 1 hi)]> data]> st
                   !! path = st !! path) by (rewrite E; reflexivity).
      rewrite lookup_insert_eq, Hst in Hp. injection Hp as Hp.
      assert (Hk : <["regions_class_order" := JArr (range 1 hi)]> data
                   !! "regions_class_order" = data !! "regions_class_order")
        by (rewrite Hp; reflexivity).
      rewrite lookup_insert_eq, Hl in Hk. congruence.
    + intros ->. rewrite (insert_id data) by exact Hl. apply insert_id. exact Hst.
  - intros R st data Hst.
    exists (<["regions_class_order" := JArr (range 1 hi)]> data).
    split; [apply Hrev; exact Hst|].
    split; [apply lookup_insert_eq|].
    intros k Hk. apply lookup_insert_ne. congruence.
Qed.

Lemma update_step1_json_eq {R} st data l :
  st !! JsonOrder.step1_path = Some data ->
  data !! "regions_class_order" = Some (JArr l) ->
  JsonOrder.update_step1_json (R := R) st
  = (Normal None,
     <[JsonOrder.step1_path := <["regions_class_order" := JArr (JsonOrder.front_moved 10 l)]> data]> st).
Proof.
  intros Hst Hl.
  unfold JsonOrder.update_step1_json, JsonOrder.update_step1_json_body,
    call, mbind, stmt_bind, json.load, json.dump, JsonOrder.getitem.
  rewrite Hst, Hl. cbn [mret stmt_ret].
  rewrite move_to_front_list by lia. reflexivity.
Qed.

Lemma update_step2_json_eq {R} st data l :
  st !! JsonOrder.step2_path = Some data ->
  data !! "regions_class_order" = Some (JArr l) ->
  JsonOrder.update_step2_json (R := R) st
  = (Normal None,
     <[JsonOrder.step2_path := <["regions_class_order" := JArr (JsonOrder.front_moved 12 l)]> data]> st).
Proof.
  intros Hst Hl.
  unfold JsonOrder.update_step2_json, JsonOrder.update_step2_json_body,
    call, mbind, stmt_bind, json.load, json.dump, JsonOrder.getitem.
  rewrite Hst, Hl. cbn [mret stmt_ret].
  rewrite move_to_front_list by lia. reflexivity.
Qed.

Lemma revert_step1_json_eq {R} st data :
  st !! JsonOrder.step1_path = Some data ->
  JsonOrder.revert_step1_json (R := R) st
  = (Normal None,
     <[JsonOrder.step1_path := <["regions_class_order" := JArr (range 1 11)]> data]> st).
Proof.
  intros Hst.
  unfold JsonOrder.revert_step1_json, JsonOrder.revert_step1_json_body,
    call, mbind, stmt_bind, json.load, json.dump.
  rewrite Hst. reflexivity.
Qed.

Lemma revert_step2_json_eq {R} st data :
  st !! JsonOrder.step2_path = Some data ->
  JsonOrder.revert_step2_json (R := R) st
  = (Normal None,
     <[JsonOrder.step2_path := <["regions_class_order" := JArr (range 1 13)]> data]> st).
Proof.
  intros Hst.
  unfold JsonOrder.revert_step2_json, JsonOrder.revert_step2_json_body,
    call, mbind, stmt_bind, json.load, json.dump.
  rewrite Hst. reflexivity.
Qed.

Example range_1_11 :
  range 1 11 = map JNum [1; 2; 3; 4; 5; 6; 7; 8; 9; 10].
Proof. reflexivity. Qed.

Example range_1_13 :
  range 1 13 = map JNum [1; 2; 3; 4; 5; 6; 7; 8; 9; 10; 11; 12].
Proof. reflexivity. Qed.

(** C10. On a document whose [regions_class_order] is a list,
    [update_step1_json] puts the first 10 of the list at its front (12
    for [update_step2_json]) and leaves a list without one as it is:
    the new list is a permutation of the old one and no other field of
    the document changes.  [revert_step1_json] writes [1 .. 10]
    ([1 .. 12] for step 2) whatever was there.  Reverting after
    updating gives back the original order, and the original file,
    exactly when the original order was [1 .. 10] ([1 .. 12]). *)
Theorem update_then_revert_class_order :
  JsonOrder.reorders_classes 10 11 JsonOrder.step1_path
    (@JsonOrder.update_step1_json) (@JsonOrder.revert_step1_json)
  /\ JsonOrder.reorders_classes 12 13 JsonOrder.step2_path
       (@JsonOrder.update_step2_json) (@JsonOrder.revert_step2_json).
Proof.
  split; apply reorders_classes_intro; try lia; intros.
  - apply update_step1_json_eq; assumption.
  - apply revert_step1_json_eq; assumption.
  - apply update_step2_json_eq; assumption.
  - apply revert_step2_json_eq; assumption.
Qed.

Lemma update_then_revert_class_order_witness :
  let data : gmap string value :=
    <["regions_class_order" := JArr (range 1 11)]>
      (<["numTraining" := JNum 0]> (<["file_ending" := JStr ".nii.gz"]> ∅)) in
  let st : gmap string (gmap string value) := {[JsonOrder.step1_path := data]} in
  exists l' data',
    JsonOrder.update_step1_json (R := unit) st
    = (Normal None, <[JsonOrder.step1_path := data']> st)
    /\ data' !! "regions_class_order" = Some (JArr l')
    /\ l' = map JNum [10; 1; 2; 3; 4; 5; 6; 7; 8; 9]
    /\ data' !! "numTraining" = Some (JNum 0)
    /\ JsonOrder.revert_step1_json (R := unit) (<[JsonOrder.step1_path := data']> st)
       = (Normal None, st).
Proof.
  intros data st.
  destruct (proj1 (proj1 update_then_revert_class_order) unit st data (range 1 11))
    as (l' & data' & Hupd & Hl' & Hother & _ & Hfront & _ & restored & Hrev & _ & _ & Hback).
  { reflexivity. }
  { reflexivity. }
  exists l', data'.
  split; [exact Hupd|]. split; [exact Hl'|]. split.
  - destruct (Hfront eq_refl) as (pre & post & Hsplit & Hpre & ->).
    destruct pre as [|x1 [|x2 [|x3 [|x4 [|x5 [|x6 [|x7 [|x8 [|x9 [|x10 pre]]]]]]]]]];
      try (vm_compute in Hsplit; discriminate).
    + vm_compute in Hsplit. injection Hsplit as <- <- <- <- <- <- <- <- <- <-.
      reflexivity.
    + vm_compute in Hsplit. injection Hsplit as <- <- <- <- <- <- <- <- <- <- _.
      vm_compute in Hpre. discriminate.
  - split.
    + rewrite Hother by discriminate. reflexivity.
    + rewrite Hrev. f_equal. apply Hback. reflexivity.
Defined.


(** * The batch driver *)

Import Batch.

Lemma print_eq {R} (line : string) (w : World) :
  print (R := R) line w = (Normal tt, add_lines w [line]).
Proof. reflexivity. Qed.

Lemma add_lines_add_lines (w : World) (a b : list string) :
  add_lines (add_lines w a) b = add_lines w (a ++ b).
Proof. unfold add_lines. simpl. rewrite app_assoc. reflexivity. Qed.

Lemma ends_with_true (s suffix : string) :
  ends_with s suffix = true -> exists stem, s = stem +:+ suffix.
Proof.
  induction s as [|c s IH]; cbn [ends_with]; intros H.
  - rewrite orb_false_r in H. apply String.eqb_eq in H. subst. exists "". reflexivity.
  - apply orb_true_iff in H as [H|H].
    + apply String.eqb_eq in H. exists "". rewrite <- H. reflexivity.
    + destruct (IH H) as [stem ->]. exists (String c stem). reflexivity.
Qed.

Lemma ends_with_app (stem suffix : string) : ends_with (stem +:+ suffix) suffix = true.
Proof.
  induction stem as [|c stem IH].
  - rewrite str_app_nil_l. destruct suffix; cbn [ends_with]; rewrite String.eqb_refl;
      reflexivity.
  - rewrite str_app_cons. cbn [ends_with]. rewrite IH. apply orb_true_r.
Qed.

(** ** The files of a directory that [glob] selects *)

Lemma elem_of_references_in (fs : FileSystem) (directory : string) (p : Path) :
  p ∈ references_in fs directory
  <-> parent p = directory
      /\ ends_with (name p) "_0000.nii.gz" = true
      /\ is_Some (files fs !! p).
Proof.
  unfold references_in. rewrite merge_sort_Permutation.
  rewrite list_elem_of_filter, elem_of_elements, elem_of_dom. tauto.
Qed.

#[local] Instance name_le_trans :
  Transitive (fun p q : Path => String.le (name p) (name q)).
Proof. intros p q r Hpq Hqr. exact (transitivity (R := String.le) Hpq Hqr). Qed.

#[local] Instance name_le_total :
  Total (fun p q : Path => String.le (name p) (name q)).
Proof. intros p q. apply (total String.le). Qed.

(** The selection only depends on which reference-named files exist. *)
Lemma references_in_ext (fs fs' : FileSystem) (directory : string) :
  (forall q, ends_with (name q) "_0000.nii.gz" = true ->
             (is_Some (files fs' !! q) <-> is_Some (files fs !! q))) ->
  references_in fs' directory = references_in fs directory.
Proof.
  intros Hsame.
  apply (StronglySorted_unique_strong (fun p q => String.le (name p) (name q))).
  - intros x1 x2 H1 H2 H12 H21.
    apply elem_of_references_in in H1 as (P1 & _ & _).
    apply elem_of_references_in in H2 as (P2 & _ & _).
    pose proof (anti_symm String.le _ _ H12 H21) as Hn.
    destruct x1, x2; simpl in *; congruence.
  - apply StronglySorted_merge_sort; apply _.
  - apply StronglySorted_merge_sort; apply _.
  - unfold references_in. rewrite !merge_sort_Permutation.
    apply NoDup_Permutation.
    + apply NoDup_filter, NoDup_elements.
    + apply NoDup_filter, NoDup_elements.
    + intros q. rewrite !list_elem_of_filter, !elem_of_elements, !elem_of_dom.
      split; intros [[Hp He] Hs]; (split; [split; assumption|]); apply (Hsame q He);
        exact Hs.
Qed.

(** ** Joining directory names *)

Lemma joindir_plain (d c : string) :
  d <> "/" -> d <> "." -> joindir d c = d +:+ ("/" +:+ c).
Proof.
  intros H1 H2. unfold joindir.
  rewrite decide_False by exact H1. rewrite decide_False by exact H2. reflexivity.
Qed.

Lemma str_app_cancel_l (d x y : string) : d +:+ x = d +:+ y -> x = y.
Proof.
  induction d as [|c d IH]; [rewrite !str_app_nil_l; auto|].
  rewrite !str_app_cons. intros E. injection E as E. auto.
Qed.

Lemma joindir_long (d c : string) :
  (2 <= String.length c)%nat -> joindir d c <> "/" /\ joindir d c <> ".".
Proof.
  intros Hc. unfold joindir.
  repeat case_decide; split; intros E; apply (f_equal String.length) in E;
    rewrite ?str_length_app in E; simpl in E; lia.
Qed.

(** No file of [imagesTr] is the directory [imagesTs]. *)
Lemma file_of_tr_is_not_ts (d n : string) :
  joindir (joindir d "imagesTr") n <> joindir d "imagesTs".
Proof.
  destruct (joindir_long d "imagesTr") as [H1 H2]; [simpl; lia|].
  rewrite (joindir_plain (joindir d "imagesTr")) by assumption.
  unfold joindir. repeat case_decide; intros E.
  - apply (f_equal (String.get 8)) in E. cbv in E. discriminate.
  - apply (f_equal (String.get 7)) in E. cbv in E. discriminate.
  - rewrite !str_app_assoc in E. apply str_app_cancel_l in E.
    apply (f_equal (String.get 8)) in E. cbv in E. discriminate.
Qed.


(** ** What one pair and a list of pairs leave untouched *)

Lemma wrapper_three_outcomes {R} (p : Path) (ow : bool) (fs : FileSystem) :
  parent p ∉ unsearchable fs ->
  exists status payload fs',
    _fix_metadata_wrapper (R := R) p ow fs = (Normal (Some (status, payload)), fs')
    /\ (status = "missing" \/ status = "success" \/ status = "error").
Proof.
  intros Hs.
  destruct (wrapper_outcomes (R := R) p ow fs) as [[_ H]|[Hn _]];
    [exact H|contradiction].
Qed.

(** The files a reference of [directory] makes the wrapper write are
    in [directory] and are not named as references. *)
Lemma reference_writes_miss (directory : string) (p q : Path) :
  parent p = directory ->
  ends_with (name p) "_0000.nii.gz" = true ->
  ends_with (name q) "_0000.nii.gz" = true \/ parent q <> directory ->
  q <> img_0001_path_of p /\ q <> backup_path_of (img_0001_path_of p).
Proof.
  intros Hp He Hq. apply ends_with_true in He as [stem Hn].
  destruct p as [d n]. cbn [parent name] in *. subst d n.
  rewrite companion_name_ends.
  set (r := str_replace stem "_0000.nii.gz" "_0001.nii.gz").
  replace (r +:+ "_0001.nii.gz") with ((r +:+ "_0001") +:+ ".nii.gz")
    by (rewrite str_app_assoc; reflexivity).
  rewrite backup_name_ends.
  destruct Hq as [Hq|Hq].
  - apply ends_with_true in Hq as [sq Hq]. split; intros ->; cbn [name] in Hq.
    + rewrite str_app_assoc in Hq. exact (names_0001_0000_differ _ _ Hq).
    + exact (names_backup_0000_differ _ _ Hq).
  - split; intros ->; apply Hq; reflexivity.
Qed.

(** A file none of the calls writes is left as it was, wherever the
    map ends. *)
Lemma map_in_order_frame {R} (ow : bool) (l : list Path) (fs : FileSystem) (q : Path) :
  Forall (fun p => q <> img_0001_path_of p
                   /\ q <> backup_path_of (img_0001_path_of p)) l ->
  files (snd (map_in_order (fun p => _fix_metadata_wrapper (R := R) p ow) l fs)) !! q
  = files fs !! q.
Proof.
  revert fs. induction l as [|p l IH]; intros fs Hl; [reflexivity|].
  apply Forall_cons in Hl as [[Hd Hb] Hl].
  pose proof (wrapper_frame (R := R) p q ow fs Hd (fun _ => Hb)) as Hf.
  cbn [map_in_order]. unfold mbind, stmt_bind at 1.
  destruct (_fix_metadata_wrapper p ow fs) as [[r|r|e] fs1]; cbn [snd] in *;
    try exact Hf.
  specialize (IH fs1 Hl). unfold mbind, stmt_bind.
  destruct (map_in_order _ l fs1) as [[rs|r'|e] fs2]; cbn [snd] in *;
    try change (files fs2 !! q = files fs !! q);
    rewrite IH; exact Hf.
Qed.

(** The map over a list goes on after a pair whose folder can be
    searched, and ends with nothing changed at one whose folder
    cannot. *)
Lemma wrapper_step {R} (ow : bool) (x : Path) (rest : list Path) (fs : FileSystem) :
  ((parent x ∉ unsearchable fs)
   /\ snd (map_in_order (fun p => _fix_metadata_wrapper (R := R) p ow) (x :: rest) fs)
      = snd (map_in_order (fun p => _fix_metadata_wrapper (R := R) p ow) rest
               (snd (_fix_metadata_wrapper (R := R) x ow fs))))
  \/ ((parent x ∈ unsearchable fs)
      /\ map_in_order (fun p => _fix_metadata_wrapper (R := R) p ow) (x :: rest) fs
         = (Raised (mk_exn PermissionError
                      ("Permission denied: " +:+ name (img_0001_path_of x))), fs)).
Proof.
  cbn [map_in_order]. unfold mbind, stmt_bind at 1 3.
  destruct (wrapper_outcomes (R := R) x ow fs)
    as [(Hs & status & payload & fs' & -> & _)|[Hs ->]].
  - left. split; [exact Hs|]. cbn [snd]. unfold mbind, stmt_bind.
    destruct (map_in_order _ rest fs') as [[rs|r'|e] fs'']; reflexivity.
  - right. split; [exact Hs|reflexivity].
Qed.

Lemma map_in_order_unsearchable {R} (ow : bool) (l : list Path) (fs : FileSystem) :
  unsearchable (snd (map_in_order (fun p => _fix_metadata_wrapper (R := R) p ow) l fs))
  = unsearchable fs.
Proof.
  revert fs. induction l as [|x l IH]; intros fs; [reflexivity|].
  destruct (wrapper_step (R := R) ow x l fs) as [[_ ->]|[_ ->]]; [|reflexivity].
  rewrite IH. apply wrapper_unsearchable.
Qed.

(** In folders that can be searched there is one result for every
    path, each one of the wrapper's tuples. *)
Lemma map_in_order_wrapper {R} (ow : bool) (l : list Path) (fs : FileSystem) :
  Forall (fun p => parent p ∉ unsearchable fs) l ->
  exists results fs',
    map_in_order (fun p => _fix_metadata_wrapper (R := R) p ow) l fs
    = (Normal results, fs')
    /\ length results = length l
    /\ Forall (fun r => exists status payload,
                 r = Some (status, payload)
                 /\ (status = "missing" \/ status = "success" \/ status = "error"))
         results.
Proof.
  revert fs. induction l as [|p l IH]; intros fs Hl.
  - exists [], fs. repeat split; auto.
  - apply Forall_cons in Hl as [Hp Hl].
    destruct (wrapper_three_outcomes (R := R) p ow fs Hp)
      as (status & payload & fs1 & Hw & Hs).
    destruct (IH fs1) as (results & fs' & Hm & Hlen & Hall).
    { pose proof (wrapper_unsearchable (R := R) p ow fs) as Hu.
      rewrite Hw in Hu. cbn [snd] in Hu. rewrite Hu. exact Hl. }
    exists (Some (status, payload) :: results), fs'.
    split.
    { cbn [map_in_order]. unfold mbind, stmt_bind at 1. rewrite Hw.
      unfold mbind, stmt_bind at 1. rewrite Hm. reflexivity. }
    split; [simpl; lia|]. constructor; eauto.
Qed.

Lemma counts_add_up {St R} (results : list (option outcome)) (st : St) :
  Forall (fun r => exists status payload,
            r = Some (status, payload)
            /\ (status = "missing" \/ status = "success" \/ status = "error"))
    results ->
  exists fixed errors missing : nat,
    count_status (R := R) "success" results st = (Normal fixed, st)
    /\ count_status (R := R) "error" results st = (Normal errors, st)
    /\ count_status (R := R) "missing" results st = (Normal missing, st)
    /\ (fixed + missing + errors = length results)%nat.
Proof.
  induction 1 as [|r results Hr Hrest IH].
  - exists O, O, O. auto.
  - destruct Hr as (status & payload & -> & Hs).
    destruct IH as (f & e & m & Hf & He & Hm & Hsum).
    cbn [count_status]. unfold mbind, stmt_bind. rewrite Hf, He, Hm.
    destruct Hs as [-> | [-> | ->]]; cbn.
    + exists f, e, (S m). repeat split; simpl; lia.
    + exists (S f), e, m. repeat split; simpl; lia.
    + exists f, (S e), m. repeat split; simpl; lia.
Qed.

Lemma print_errors_lines {R} (results : list (option outcome)) (w : World) :
  Forall (fun r => exists status payload,
            r = Some (status, payload)
            /\ (status = "missing" \/ status = "success" \/ status = "error"))
    results ->
  exists lines, print_errors (R := R) results w = (Normal tt, add_lines w lines).
Proof.
  intros H. revert w. induction H as [|r results Hr Hrest IH]; intros w.
  - exists []. unfold add_lines. rewrite app_nil_r. destruct w; reflexivity.
  - destruct Hr as (status & payload & -> & Hs).
    cbn [print_errors]. unfold mbind, stmt_bind at 1.
    destruct (String.eqb status "error").
    + rewrite print_eq. destruct (IH (add_lines w [nl +:+ "Error: " +:+ str_of_payload payload]))
        as [lines ->].
      rewrite add_lines_add_lines. eauto.
    + cbn. destruct (IH w) as [lines ->]. eauto.
Qed.

(** ** Statements that keep a file *)

Lemma keeps_bind (q : Path) {R A B} (m : stmt World R A) (k : A -> stmt World R B)
    (post : A -> Prop) (post' : B -> Prop) :
  keeps q m post ->
  (forall a, post a -> keeps q (k a) post') ->
  keeps q (m ≫= k) post'.
Proof.
  intros Hm Hk w. unfold mbind, stmt_bind.
  destruct (Hm w) as [Hf Hp].
  destruct (m w) as [[a|r|e] w1]; cbn [fst snd] in *; auto.
  destruct (Hk a Hp w1) as [Hf' Hp']. rewrite Hf', Hf. auto.
Qed.

Lemma keeps_seq (q : Path) {R A B} (m : stmt World R A) (k : A -> stmt World R B)
    (post' : B -> Prop) :
  keeps q m (fun _ => True) ->
  (forall a, keeps q (k a) post') ->
  keeps q (m ≫= k) post'.
Proof. intros Hm Hk. apply (keeps_bind q m k (fun _ => True)); auto. Qed.

Lemma keeps_ret (q : Path) {R A} (a : A) (post : A -> Prop) :
  post a -> keeps q (mret (M := stmt World R) a) post.
Proof. intros H w. split; [reflexivity|exact H]. Qed.

Lemma keeps_Return (q : Path) {R A} (r : R) (post : A -> Prop) :
  keeps q (Return (St := World) (A := A) r) post.
Proof. intros w. split; [reflexivity|exact I]. Qed.

Lemma keeps_print (q : Path) {R} (line : string) :
  keeps q (print (R := R) line) (fun _ => True).
Proof. intros w. split; [reflexivity|exact I]. Qed.

Lemma keeps_path_exists (q : Path) {R} (text : string) :
  keeps q (path_exists (R := R) text) (fun _ => True).
Proof.
  intros w. unfold path_exists.
  case_bool_decide; (split; [reflexivity|exact I]).
Qed.

Lemma keeps_glob (q : Path) {R} (directory : string) :
  keeps q (sorted_glob_0000 (R := R) directory)
    (Forall (fun p => parent p = directory
                      /\ ends_with (name p) "_0000.nii.gz" = true)).
Proof.
  intros w. split; [reflexivity|]. cbn [fst sorted_glob_0000].
  apply Forall_forall. intros p Hp.
  apply elem_of_references_in in Hp. tauto.
Qed.

Lemma keeps_count (q : Path) {R} (wanted : string) (results : list (option outcome)) :
  keeps q (count_status (St := World) (R := R) wanted results) (fun _ => True).
Proof.
  induction results as [|[[status payload]|] results IH].
  - apply keeps_ret. exact I.
  - cbn [count_status]. apply keeps_seq; [exact IH|]. intros n. apply keeps_ret. exact I.
  - intros w. split; [reflexivity|exact I].
Qed.

Lemma keeps_print_errors (q : Path) {R} (results : list (option outcome)) :
  keeps q (print_errors (R := R) results) (fun _ => True).
Proof.
  induction results as [|[[status payload]|] results IH].
  - apply keeps_ret. exact I.
  - cbn [print_errors]. apply keeps_seq; [|intros _; exact IH].
    destruct (String.eqb status "error"); [apply keeps_print|apply keeps_ret; exact I].
  - intros w. split; [reflexivity|exact I].
Qed.

Lemma keeps_process_map (q : Path) {R} (ow : bool) (l : list Path) (n : nat) :
  Forall (fun p => q <> img_0001_path_of p
                   /\ q <> backup_path_of (img_0001_path_of p)) l ->
  keeps q (process_map (R := R) (fun p => _fix_metadata_wrapper p ow) l n)
    (fun _ => True).
Proof.
  intros Hl w. unfold process_map.
  destruct (n =? 0)%nat; [split; [reflexivity|exact I]|].
  unfold on_volumes.
  pose proof (map_in_order_frame (R := R) ow l (volumes w) q Hl) as Hframe.
  destruct (map_in_order _ l (volumes w)) as [c fs'].
  cbn [fst snd volumes] in *. split; [exact Hframe|destruct c; exact I].
Qed.

Lemma references_are_harmless (directory : string) (q : Path) (l : list Path) :
  ends_with (name q) "_0000.nii.gz" = true \/ parent q <> directory ->
  Forall (fun p => parent p = directory
                   /\ ends_with (name p) "_0000.nii.gz" = true) l ->
  Forall (fun p => q <> img_0001_path_of p
                   /\ q <> backup_path_of (img_0001_path_of p)) l.
Proof.
  intros Hq Hl. rewrite Forall_forall in *. intros p Hin.
  destruct (Hl p Hin) as [Hp He].
  exact (reference_writes_miss directory p q Hp He Hq).
Qed.

Lemma main_body_keeps (q : Path) (args : Namespace) :
  ends_with (name q) "_0000.nii.gz" = true
  \/ (parent q <> joindir (dataset_path args) "imagesTr"
      /\ parent q <> joindir (dataset_path args) "imagesTs") ->
  keeps q (main_body args) (fun _ => True).
Proof.
  intros Hq.
  assert (Htr : ends_with (name q) "_0000.nii.gz" = true
                \/ parent q <> joindir (dataset_path args) "imagesTr") by tauto.
  assert (Hts : ends_with (name q) "_0000.nii.gz" = true
                \/ parent q <> joindir (dataset_path args) "imagesTs") by tauto.
  unfold main_body. cbv zeta.
  apply keeps_seq; [apply keeps_path_exists|intros b1].
  apply keeps_seq.
  { destruct (negb b1); [|apply keeps_ret; exact I].
    apply keeps_seq; [apply keeps_print|intros _; apply keeps_Return]. }
  intros _.
  apply keeps_seq; [apply keeps_path_exists|intros b2].
  apply keeps_seq.
  { destruct (negb b2); [|apply keeps_ret; exact I].
    apply keeps_seq; [apply keeps_print|intros _; apply keeps_Return]. }
  intros _.
  eapply keeps_bind; [apply keeps_glob|intros tr_files Htr_files].
  apply keeps_seq.
  { destruct (length tr_files =? 0)%nat; [|apply keeps_ret; exact I].
    apply keeps_seq; [apply keeps_print|intros _; apply keeps_Return]. }
  intros _.
  do 5 (apply keeps_seq; [apply keeps_print|intros _]).
  apply keeps_seq.
  { apply keeps_process_map. exact (references_are_harmless _ q _ Htr Htr_files). }
  intros results.
  do 3 (apply keeps_seq; [apply keeps_count|intros ?]).
  apply keeps_seq; [apply keeps_print_errors|intros _].
  apply keeps_seq; [apply keeps_path_exists|intros b3].
  apply keeps_seq.
  { destruct b3; [|apply keeps_ret; exact I].
    eapply keeps_bind; [apply keeps_glob|intros ts_files Hts_files].
    destruct (0 <? length ts_files)%nat; [|apply keeps_ret; exact I].
    apply keeps_seq; [apply keeps_print|intros _].
    apply keeps_seq.
    { apply keeps_process_map. exact (references_are_harmless _ q _ Hts Hts_files). }
    intros results_ts.
    do 3 (apply keeps_seq; [apply keeps_count|intros ?]).
    apply keeps_seq; [apply keeps_print_errors|intros _].
    apply keeps_ret. exact I. }
  intros [[fixed errors] missing].
  do 6 (apply keeps_seq; [apply keeps_print|intros _]).
  destruct (0 <? fixed)%nat; [|apply keeps_ret; exact I].
  apply keeps_seq; [apply keeps_print|intros _]. apply keeps_print.
Qed.

(** X5. Whatever the command line and the files are, [main] leaves
    every file named [*_0000.nii.gz] and every file outside
    [imagesTr] and [imagesTs] as it was. *)
Theorem main_keeps_references_and_other_folders
    {R} (args : Namespace) (w : World) (q : Path) :
  ends_with (name q) "_0000.nii.gz" = true
  \/ (parent q <> joindir (dataset_path args) "imagesTr"
      /\ parent q <> joindir (dataset_path args) "imagesTs") ->
  files (volumes (snd (main (R := R) args w))) !! q = files (volumes w) !! q.
Proof.
  intros Hq. destruct (main_body_keeps q args Hq w) as [Hf _].
  unfold main, call. destruct (main_body args w) as [[a|r|e] w']; exact Hf.
Qed.

Lemma main_keeps_references_and_other_folders_witness :
  files (volumes (snd (main (R := unit) sample_args sample_world)))
    !! mkPath "ds/imagesTr" "a_0000.nii.gz"
  = Some (NiftiFile Sample.mri).
Proof.
  rewrite (main_keeps_references_and_other_folders (R := unit)
             sample_args sample_world (mkPath "ds/imagesTr" "a_0000.nii.gz")).
  - vm_compute. reflexivity.
  - left. vm_compute. reflexivity.
Defined.

(** ** Running [main] *)

Lemma path_exists_eq {R} (text : string) (w : World) :
  dirname text ∉ unsearchable (volumes w) ->
  path_exists (R := R) text w = (Normal (exists_at w text), w).
Proof. intros H. unfold path_exists. rewrite bool_decide_eq_false_2 by exact H. reflexivity. Qed.

Lemma path_exists_raises {R} (text : string) (w : World) :
  dirname text ∈ unsearchable (volumes w) ->
  path_exists (R := R) text w
  = (Raised (mk_exn PermissionError ("Permission denied: " +:+ text)), w).
Proof. intros H. unfold path_exists. rewrite bool_decide_eq_true_2 by exact H. reflexivity. Qed.

Lemma glob_eq {R} (directory : string) (w : World) :
  sorted_glob_0000 (R := R) directory w
  = (Normal (references_in (volumes w) directory), w).
Proof. reflexivity. Qed.

Lemma ret_eq {St R A} (a : A) (st : St) :
  mret (M := stmt St R) a st = (Normal a, st).
Proof. reflexivity. Qed.

Lemma print_then_return {R B} (line : string) (k : unit -> stmt World R B) (r : R)
    (w : World) :
  ((print line;; Return r) ≫= k) w = (Returned r, add_lines w [line]).
Proof. reflexivity. Qed.

Lemma bind_print {R B} (line : string) (k : unit -> stmt World R B) (w : World) :
  (print line ≫= k) w = k tt (add_lines w [line]).
Proof. reflexivity. Qed.

Lemma bind_ret {St R A B} (a : A) (k : A -> stmt St R B) (st : St) :
  (mret a ≫= k) st = k a st.
Proof. reflexivity. Qed.

Lemma bind_assoc {St R A B C} (m : stmt St R A) (k1 : A -> stmt St R B)
    (k2 : B -> stmt St R C) (st : St) :
  ((m ≫= k1) ≫= k2) st = (m ≫= (fun a => k1 a ≫= k2)) st.
Proof. unfold mbind, stmt_bind. destruct (m st) as [[a|r|e] st']; reflexivity. Qed.

Ltac step H := rewrite (bind_normal _ _ _ _ _ H).




(** Whatever its completion, the pool leaves the volumes of the calls
    made. *)
Lemma process_map_volumes {R} (ow : bool) (l : list Path) (n : nat) (w : World) :
  (0 < n)%nat ->
  snd (process_map (R := R) (fun p => _fix_metadata_wrapper p ow) l n w)
  = with_volumes w
      (snd (map_in_order (fun p => _fix_metadata_wrapper (R := R) p ow) l (volumes w))).
Proof.
  intros Hn. unfold process_map.
  destruct n as [|n]; [lia|]. cbn [Nat.eqb]. unfold on_volumes.
  destruct (map_in_order _ l (volumes w)) as [c fs']. reflexivity.
Qed.

Lemma exists_at_ext (w w' : World) (text : string) :
  directories w' = directories w ->
  (forall p, path_text p = text ->
             (is_Some (files (volumes w') !! p) <-> is_Some (files (volumes w) !! p))) ->
  exists_at w' text = exists_at w text.
Proof.
  intros Hd Hf. unfold exists_at. rewrite Hd. f_equal.
  apply bool_decide_ext. unfold set_Exists.
  split; intros (p & Hp & Ht); exists p; (split; [|exact Ht]);
    apply elem_of_dom; apply elem_of_dom in Hp; apply (Hf p Ht); exact Hp.
Qed.



(** * Further properties of the class-order scripts *)

Lemma front_moved_again (n : Z) (l : list value) :
  n <> 0 -> n <> 1 ->
  JsonOrder.front_moved n (JsonOrder.front_moved n l) = JsonOrder.front_moved n l.
Proof.
  intros H0 H1. destruct (list_contains n l) eqn:Hc.
  - destruct (front_moved_present n l H0 H1 Hc) as (pre & post & _ & _ & ->).
    unfold JsonOrder.front_moved. cbn [list_contains existsb int_eq list_remove].
    rewrite Z.eqb_refl. reflexivity.
  - unfold JsonOrder.front_moved at 2. rewrite Hc.
    unfold JsonOrder.front_moved. rewrite Hc. reflexivity.
Qed.

Lemma update_step1_json_run {R} (st : gmap string (gmap string value)) :
  JsonOrder.update_step1_json (R := R) st = order_update_run 10 JsonOrder.step1_path st.
Proof.
  unfold order_update_run.
  destruct (st !! JsonOrder.step1_path) as [data|] eqn:Hst.
  - destruct (data !! "regions_class_order") as [v|] eqn:Hv.
    + destruct v as [|b|m|s|l|fields];
        try (unfold JsonOrder.update_step1_json, JsonOrder.update_step1_json_body,
               call, mbind, stmt_bind, json.load, json.dump, JsonOrder.getitem;
             rewrite Hst, Hv; reflexivity).
      * apply update_step1_json_eq; assumption.
      * unfold JsonOrder.update_step1_json, JsonOrder.update_step1_json_body,
          call, mbind, stmt_bind, json.load, json.dump, JsonOrder.getitem.
        rewrite Hst, Hv. cbn [mret stmt_ret JsonOrder.move_to_front].
        rewrite (insert_id data) by exact Hv. rewrite insert_id by exact Hst.
        reflexivity.
    + unfold JsonOrder.update_step1_json, JsonOrder.update_step1_json_body,
        call, mbind, stmt_bind, json.load, json.dump, JsonOrder.getitem.
      rewrite Hst, Hv. reflexivity.
  - unfold JsonOrder.update_step1_json, JsonOrder.update_step1_json_body,
      call, mbind, stmt_bind, json.load. rewrite Hst. reflexivity.
Qed.

Lemma update_step2_json_run {R} (st : gmap string (gmap string value)) :
  JsonOrder.update_step2_json (R := R) st = order_update_run 12 JsonOrder.step2_path st.
Proof.
  unfold order_update_run.
  destruct (st !! JsonOrder.step2_path) as [data|] eqn:Hst.
  - destruct (data !! "regions_class_order") as [v|] eqn:Hv.
    + destruct v as [|b|m|s|l|fields];
        try (unfold JsonOrder.update_step2_json, JsonOrder.update_step2_json_body,
               call, mbind, stmt_bind, json.load, json.dump, JsonOrder.getitem;
             rewrite Hst, Hv; reflexivity).
      * apply update_step2_json_eq; assumption.
      * unfold JsonOrder.update_step2_json, JsonOrder.update_step2_json_body,
          call, mbind, stmt_bind, json.load, json.dump, JsonOrder.getitem.
        rewrite Hst, Hv. cbn [mret stmt_ret JsonOrder.move_to_front].
        rewrite (insert_id data) by exact Hv. rewrite insert_id by exact Hst.
        reflexivity.
    + unfold JsonOrder.update_step2_json, JsonOrder.update_step2_json_body,
        call, mbind, stmt_bind, json.load, json.dump, JsonOrder.getitem.
      rewrite Hst, Hv. reflexivity.
  - unfold JsonOrder.update_step2_json, JsonOrder.update_step2_json_body,
      call, mbind, stmt_bind, json.load. rewrite Hst. reflexivity.
Qed.

Lemma order_update_run_again {R} (n : Z) (path : string)
    (st : gmap string (gmap string value)) :
  n <> 0 -> n <> 1 ->
  order_update_run (R := R) n path (snd (order_update_run (R := R) n path st))
  = order_update_run (R := R) n path st.
Proof.
  intros H0 H1. unfold order_update_run at 2 3.
  destruct (st !! path) as [data|] eqn:Hst; cbn [snd].
  - destruct (data !! "regions_class_order") as [v|] eqn:Hv; cbn [snd].
    + destruct v as [|b|m|s|l|fields]; cbn [snd];
        try (unfold order_update_run; rewrite Hst, Hv; reflexivity).
      unfold order_update_run. rewrite lookup_insert_eq, lookup_insert_eq.
      rewrite front_moved_again by assumption.
      rewrite insert_insert_eq, insert_insert_eq. reflexivity.
    + unfold order_update_run; rewrite Hst, Hv; reflexivity.
  - unfold order_update_run; rewrite Hst; reflexivity.
Qed.

(** X8. [update_step1_json] and [update_step2_json] are idempotent:
    run on the store a first run left, each completes or raises as
    the first run did and leaves every file as the first run left
    it. *)
Theorem update_json_order_idempotent {R} (st : gmap string (gmap string value)) :
  JsonOrder.update_step1_json (R := R) (snd (JsonOrder.update_step1_json (R := R) st))
  = JsonOrder.update_step1_json (R := R) st
  /\ JsonOrder.update_step2_json (R := R) (snd (JsonOrder.update_step2_json (R := R) st))
     = JsonOrder.update_step2_json (R := R) st.
Proof.
  split.
  - rewrite !update_step1_json_run. apply order_update_run_again; lia.
  - rewrite !update_step2_json_run. apply order_update_run_again; lia.
Qed.

Lemma order_update_rejects (n : Z) (path : string)
    (update : forall R, stmt (gmap string (gmap string value)) R (option Empty_set)) :
  (forall R st, update R st = order_update_run (R := R) n path st) ->
  JsonOrder.rejects_order path update.
Proof.
  intros Hrun R st. rewrite Hrun. unfold order_update_run.
  split; [|split; [|split; [|split; [|split]]]].
  - intros ->. eauto.
  - intros data -> ->. eauto.
  - intros data v -> -> Hl Hf.
    destruct v as [|b|m|s|l|fields]; eauto.
    + exfalso. exact (Hl l eq_refl).
    + exfalso. exact (Hf fields eq_refl).
  - intros data fields -> ->. reflexivity.
  - intros data l -> ->. eauto.
  - intros e st'.
    destruct (st !! path) as [data|]; [|intros [= _ <-]; reflexivity].
    destruct (data !! "regions_class_order") as [[|b|m|s|l|fields]|];
      intros H; try discriminate H; injection H as _ <-; reflexivity.
Qed.

(** X9. What [update_step1_json] and [update_step2_json] do with a
    file they cannot reorder: they raise a [FileNotFoundError] when
    there is no file at the path, a [KeyError] when the description
    has no [regions_class_order], and a [TypeError] when the order is
    neither a list nor an object.  An order that is an
    object is accepted and the file is left as it is; on an order
    that is a list the function completes, so [list.remove] does not
    raise its [ValueError] here.  A run that raises changes no
    file. *)
Theorem update_json_order_failures :
  JsonOrder.rejects_order JsonOrder.step1_path (@JsonOrder.update_step1_json)
  /\ JsonOrder.rejects_order JsonOrder.step2_path (@JsonOrder.update_step2_json).
Proof.
  split.
  - apply (order_update_rejects 10). intros R st. apply update_step1_json_run.
  - apply (order_update_rejects 12). intros R st. apply update_step2_json_run.
Qed.

Lemma update_json_order_failures_witness :
  let st : gmap string (gmap string value) :=
    {[JsonOrder.step1_path := {["regions_class_order" := JStr "1,2,3"]}]} in
  exists e,
    JsonOrder.update_step1_json (R := unit) st = (Raised e, st)
    /\ exn_class_of e = TypeError.
Proof.
  intros st.
  destruct (proj1 update_json_order_failures unit st) as (_ & _ & Htype & _).
  apply (Htype {["regions_class_order" := JStr "1,2,3"]} (JStr "1,2,3"));
    try reflexivity; discriminate.
Defined.

(** X10. Whatever order the document holds, reverting and then
    updating leaves LDH first and the other classes ascending:
    [10, 1, ..., 9] for step 1 and [12, 1, ..., 11] for step 2; and a
    further revert gives the file of the first revert again. *)
Theorem revert_then_update_class_order
    {R} (st : gmap string (gmap string value)) :
  (forall data,
      st !! JsonOrder.step1_path = Some data ->
      let reverted := snd (JsonOrder.revert_step1_json (R := R) st) in
      let updated := snd (JsonOrder.update_step1_json (R := R) reverted) in
      JsonOrder.update_step1_json (R := R) reverted
      = (Normal None,
         <[JsonOrder.step1_path :=
             <["regions_class_order" := JArr (JNum 10 :: range 1 10)]> data]> st)
      /\ JsonOrder.revert_step1_json (R := R) updated = (Normal None, reverted))
  /\ (forall data,
        st !! JsonOrder.step2_path = Some data ->
        let reverted := snd (JsonOrder.revert_step2_json (R := R) st) in
        let updated := snd (JsonOrder.update_step2_json (R := R) reverted) in
        JsonOrder.update_step2_json (R := R) reverted
        = (Normal None,
           <[JsonOrder.step2_path :=
               <["regions_class_order" := JArr (JNum 12 :: range 1 12)]> data]> st)
        /\ JsonOrder.revert_step2_json (R := R) updated = (Normal None, reverted)).
Proof.
  split; intros data Hst reverted updated; subst updated reverted.
  - rewrite (revert_step1_json_eq st data Hst). cbn [snd].
    rewrite (update_step1_json_eq _ _ (range 1 11) (lookup_insert_eq _ _ _)
               (lookup_insert_eq _ _ _)).
    rewrite !insert_insert_eq. split; [reflexivity|]. cbn [snd].
    rewrite (revert_step1_json_eq _ _ (lookup_insert_eq _ _ _)).
    rewrite !insert_insert_eq. reflexivity.
  - rewrite (revert_step2_json_eq st data Hst). cbn [snd].
    rewrite (update_step2_json_eq _ _ (range 1 13) (lookup_insert_eq _ _ _)
               (lookup_insert_eq _ _ _)).
    rewrite !insert_insert_eq. split; [reflexivity|]. cbn [snd].
    rewrite (revert_step2_json_eq _ _ (lookup_insert_eq _ _ _)).
    rewrite !insert_insert_eq. reflexivity.
Qed.

Lemma revert_then_update_class_order_witness :
  let st : gmap string (gmap string value) :=
    {[JsonOrder.step1_path :=
        {["regions_class_order" := JArr [JNum 3; JNum 10; JNum 3]]}]} in
  JsonOrder.update_step1_json (R := unit)
    (snd (JsonOrder.revert_step1_json (R := unit) st))
  = (Normal None,
     {[JsonOrder.step1_path :=
         {["regions_class_order" := JArr (map JNum [10; 1; 2; 3; 4; 5; 6; 7; 8; 9])]}]}).
Proof.
  intros st.
  rewrite (proj1 (proj1 (revert_then_update_class_order (R := unit) st) _
                    (lookup_insert_eq _ _ _))).
  reflexivity.
Defined.

(** * The data set descriptions: scripts/update_jsons.py *)

Lemma dict_get_set (k k0 : string) (v : value) (d : list (string * value)) :
  UpdateDatasets.dict_get k (UpdateDatasets.dict_set k0 v d) = if String.eqb k0 k then Some v else UpdateDatasets.dict_get k d.
Proof.
  induction d as [|[k' v'] d IH]; cbn [UpdateDatasets.dict_set UpdateDatasets.dict_get].
  - reflexivity.
  - destruct (String.eqb_spec k' k0) as [->|Hne]; cbn [UpdateDatasets.dict_get].
    + destruct (String.eqb k0 k); reflexivity.
    + rewrite IH. destruct (String.eqb_spec k' k) as [->|Hne'].
      * destruct (String.eqb_spec k0 k) as [->|_]; [contradiction|reflexivity].
      * reflexivity.
Qed.

Lemma dict_get_not_in (k : string) (d : list (string * value)) :
  k ∉ d.*1 -> UpdateDatasets.dict_get k d = None.
Proof.
  induction d as [|[k' v'] d IH]; cbn [UpdateDatasets.dict_get fmap list_fmap fst]; [reflexivity|].
  intros Hn. apply not_elem_of_cons in Hn as [Hne Hn].
  destruct (String.eqb_spec k' k) as [->|_]; [contradiction|]. apply IH. exact Hn.
Qed.

Lemma dict_get_elem_of (k : string) (v : value) (d : list (string * value)) :
  UpdateDatasets.dict_get k d = Some v -> (k, v) ∈ d.
Proof.
  induction d as [|[k' v'] d IH]; cbn [UpdateDatasets.dict_get]; [discriminate|].
  destruct (String.eqb_spec k' k) as [->|_].
  - intros [= ->]. left.
  - intros H. right. apply IH. exact H.
Qed.

Lemma dict_set_keys (k : string) (v : value) (d : list (string * value)) :
  (UpdateDatasets.dict_set k v d).*1 = if bool_decide (k ∈ d.*1) then d.*1 else d.*1 ++ [k].
Proof.
  induction d as [|[k' v'] d IH]; cbn [UpdateDatasets.dict_set fmap list_fmap fst].
  - reflexivity.
  - destruct (String.eqb_spec k' k) as [->|Hne]; cbn [fmap list_fmap fst].
    + rewrite bool_decide_eq_true_2 by left. reflexivity.
    + fold (fmap (M := list) (@fst string value)). rewrite IH.
      destruct (bool_decide (k ∈ d.*1)) eqn:Hd.
      * apply bool_decide_eq_true_1 in Hd.
        rewrite bool_decide_eq_true_2 by (right; exact Hd). reflexivity.
      * apply bool_decide_eq_false_1 in Hd.
        rewrite bool_decide_eq_false_2; [reflexivity|].
        intros Hin. apply elem_of_cons in Hin as [->|Hin]; [congruence|contradiction].
Qed.

Lemma dict_set_NoDup (k : string) (v : value) (d : list (string * value)) :
  NoDup d.*1 -> NoDup (UpdateDatasets.dict_set k v d).*1.
Proof.
  intros Hd. rewrite dict_set_keys.
  destruct (bool_decide (k ∈ d.*1)) eqn:Hk; [exact Hd|].
  apply bool_decide_eq_false_1 in Hk.
  apply NoDup_app. split; [exact Hd|]. split.
  - intros x Hx Hx'. apply list_elem_of_singleton in Hx'. subst. contradiction.
  - apply NoDup_singleton.
Qed.

Lemma add_1_is_int (x : value) :
  UpdateDatasets.is_int x = true -> UpdateDatasets.add_1 x = inr (JNum (UpdateDatasets.int_of x + 1)).
Proof. destruct x as [|[]| | | |]; try discriminate; reflexivity. Qed.

Lemma add_1_ok (x y : value) :
  UpdateDatasets.add_1 x = inr y -> UpdateDatasets.is_int x = true /\ y = JNum (UpdateDatasets.int_of x + 1).
Proof.
  destruct x as [|[]| | | |]; cbn; intros H; try discriminate;
    injection H as <-; auto.
Qed.

Lemma add_1_each_ok (l : list value) :
  forallb UpdateDatasets.is_int l = true ->
  UpdateDatasets.add_1_each l = inr (map (fun x => JNum (UpdateDatasets.int_of x + 1)) l).
Proof.
  induction l as [|x l IH]; cbn [forallb UpdateDatasets.add_1_each map]; [reflexivity|].
  intros H. apply andb_prop in H as [Hx Hl].
  rewrite (add_1_is_int x Hx), (IH Hl). reflexivity.
Qed.

Lemma add_1_each_fails (l : list value) (e : UpdateDatasets.error) :
  UpdateDatasets.add_1_each l = inl e ->
  exists x, x ∈ l /\ UpdateDatasets.is_int x = false /\ e = UpdateDatasets.TypeError x.
Proof.
  induction l as [|x l IH]; cbn [UpdateDatasets.add_1_each]; [discriminate|].
  destruct (UpdateDatasets.is_int x) eqn:Hx.
  - rewrite (add_1_is_int x Hx).
    destruct (UpdateDatasets.add_1_each l) as [e'|r]; [|discriminate].
    intros [= ->]. destruct (IH eq_refl) as (y & Hy & Hy' & ->).
    exists y. split; [right; exact Hy|auto].
  - intros H. exists x. split; [left|]. split; [exact Hx|].
    destruct x as [| | | | |]; cbn in Hx, H; try discriminate; congruence.
Qed.

Lemma add_1_each_forallb (l r : list value) :
  UpdateDatasets.add_1_each l = inr r -> forallb UpdateDatasets.is_int l = true.
Proof.
  revert r. induction l as [|x l IH]; intros r; cbn [forallb UpdateDatasets.add_1_each];
    [reflexivity|].
  destruct (UpdateDatasets.add_1 x) as [e|y] eqn:Hx; [discriminate|].
  destruct (UpdateDatasets.add_1_each l) as [e|r'] eqn:Hl; [discriminate|].
  intros _. rewrite (proj1 (add_1_ok x y Hx)), (IH r' eq_refl). reflexivity.
Qed.

(** One turn of the loop on a label that can be raised. *)
Lemma shift_labels_step (k : string) (v : value) (todo acc : list (string * value)) :
  UpdateDatasets.raisable v = true ->
  UpdateDatasets.shift_labels ((k, v) :: todo) acc
  = UpdateDatasets.shift_labels todo
      (if String.eqb k "background" || negb (UpdateDatasets.carried v) then acc
       else UpdateDatasets.dict_set k (UpdateDatasets.raised_value v) acc).
Proof.
  intros Hv. cbn [UpdateDatasets.shift_labels].
  destruct (String.eqb k "background"); cbn [orb]; [reflexivity|].
  destruct v as [|b|n|s|l|f]; cbn [UpdateDatasets.carried negb UpdateDatasets.raised_value]; try reflexivity.
  cbn [UpdateDatasets.raisable] in Hv. rewrite (add_1_each_ok l Hv). reflexivity.
Qed.

Lemma shift_labels_fails (todo acc : list (string * value)) (e : UpdateDatasets.error) :
  UpdateDatasets.shift_labels todo acc = inl e ->
  exists k l x,
    (k, JArr l) ∈ todo /\ k <> "background" /\ x ∈ l /\ UpdateDatasets.is_int x = false
    /\ e = UpdateDatasets.TypeError x.
Proof.
  revert acc. induction todo as [|[k v] todo IH]; intros acc; [discriminate|].
  destruct (UpdateDatasets.raisable v) eqn:Hv.
  - rewrite (shift_labels_step k v todo acc Hv). intros H.
    destruct (IH _ H) as (k' & l & x & Hin & Hrest).
    exists k', l, x. split; [right; exact Hin|exact Hrest].
  - destruct v as [|b|n|s|l|f]; try discriminate.
    cbn [UpdateDatasets.shift_labels].
    destruct (String.eqb_spec k "background") as [->|Hk].
    + intros H. destruct (IH _ H) as (k' & l' & x & Hin & Hrest).
      exists k', l', x. split; [right; exact Hin|exact Hrest].
    + destruct (UpdateDatasets.add_1_each l) as [e'|r] eqn:Hl.
      * intros [= ->]. destruct (add_1_each_fails l e Hl) as (x & Hx & Hx' & ->).
        exists k, l, x. split; [left|auto].
      * cbn [UpdateDatasets.raisable] in Hv.
        rewrite (add_1_each_forallb l r Hl) in Hv. discriminate.
Qed.

Lemma shift_labels_succeeds (todo acc : list (string * value)) :
  (forall k v, (k, v) ∈ todo -> k <> "background" -> UpdateDatasets.raisable v = true) ->
  exists new_labels, UpdateDatasets.shift_labels todo acc = inr new_labels.
Proof.
  intros Hall. destruct (UpdateDatasets.shift_labels todo acc) as [e|new] eqn:H; [|eauto].
  destruct (shift_labels_fails todo acc e H) as (k & l & x & Hin & Hk & Hx & Hx' & _).
  pose proof (Hall k (JArr l) Hin Hk) as Hr. cbn [UpdateDatasets.raisable] in Hr.
  rewrite forallb_forall in Hr. rewrite (Hr x) in Hx'; [discriminate|].
  apply list_elem_of_In. exact Hx.
Qed.

(** What the loop leaves under each key. *)
Lemma shift_labels_get (todo acc new_labels : list (string * value)) (k : string) :
  NoDup todo.*1 ->
  UpdateDatasets.shift_labels todo acc = inr new_labels ->
  UpdateDatasets.dict_get k new_labels
  = match UpdateDatasets.dict_get k todo with
    | Some v =>
        if String.eqb k "background" || negb (UpdateDatasets.carried v) then UpdateDatasets.dict_get k acc
        else Some (UpdateDatasets.raised_value v)
    | None => UpdateDatasets.dict_get k acc
    end.
Proof.
  revert acc. induction todo as [|[k0 v0] todo IH]; intros acc Hnd H.
  - injection H as <-. reflexivity.
  - cbn [fmap list_fmap fst] in Hnd. apply NoDup_cons in Hnd as [Hk0 Hnd].
    assert (Hr : UpdateDatasets.raisable v0 = true \/ String.eqb k0 "background" = true).
    { destruct (UpdateDatasets.raisable v0) eqn:Hv; [auto|]. right.
      destruct v0 as [|b|n|s|l|f]; try discriminate.
      cbn [UpdateDatasets.shift_labels] in H.
      destruct (String.eqb k0 "background"); [reflexivity|].
      destruct (UpdateDatasets.add_1_each l) as [e|r] eqn:Hl; [discriminate|].
      cbn [UpdateDatasets.raisable] in Hv.
      rewrite (add_1_each_forallb l r Hl) in Hv. discriminate. }
    assert (H' : UpdateDatasets.shift_labels todo
                   (if String.eqb k0 "background" || negb (UpdateDatasets.carried v0) then acc
                    else UpdateDatasets.dict_set k0 (UpdateDatasets.raised_value v0) acc) = inr new_labels).
    { destruct Hr as [Hr|Hr].
      - rewrite <- (shift_labels_step k0 v0 todo acc Hr). exact H.
      - rewrite Hr. cbn [orb]. cbn [UpdateDatasets.shift_labels] in H. rewrite Hr in H. exact H. }
    rewrite (IH _ Hnd H'). cbn [UpdateDatasets.dict_get].
    destruct (String.eqb_spec k0 k) as [->|Hne].
    + rewrite (dict_get_not_in k todo Hk0).
      destruct (String.eqb k "background" || negb (UpdateDatasets.carried v0)); [reflexivity|].
      rewrite dict_get_set, String.eqb_refl. reflexivity.
    + assert (Hacc : UpdateDatasets.dict_get k
                       (if String.eqb k0 "background" || negb (UpdateDatasets.carried v0) then acc
                        else UpdateDatasets.dict_set k0 (UpdateDatasets.raised_value v0) acc)
                     = UpdateDatasets.dict_get k acc).
      { destruct (String.eqb k0 "background" || negb (UpdateDatasets.carried v0)); [reflexivity|].
        rewrite dict_get_set. destruct (String.eqb_spec k0 k); [contradiction|reflexivity]. }
      rewrite Hacc. reflexivity.
Qed.

Lemma shift_labels_NoDup (todo acc new_labels : list (string * value)) :
  NoDup acc.*1 ->
  UpdateDatasets.shift_labels todo acc = inr new_labels ->
  NoDup new_labels.*1.
Proof.
  revert acc. induction todo as [|[k0 v0] todo IH]; intros acc Hnd H.
  - injection H as <-. exact Hnd.
  - cbn [UpdateDatasets.shift_labels] in H.
    destruct (String.eqb k0 "background"); [exact (IH _ Hnd H)|].
    destruct v0 as [|b|n|s|l|f]; try exact (IH _ Hnd H).
    + exact (IH _ (dict_set_NoDup _ _ _ Hnd) H).
    + exact (IH _ (dict_set_NoDup _ _ _ Hnd) H).
    + destruct (UpdateDatasets.add_1_each l) as [e|r]; [discriminate|].
      exact (IH _ (dict_set_NoDup _ _ _ Hnd) H).
Qed.

Lemma kept_keys_cons k v todo :
  UpdateDatasets.kept_keys ((k, v) :: todo)
  = if String.eqb k "background" || negb (UpdateDatasets.carried v) then UpdateDatasets.kept_keys todo
    else k :: UpdateDatasets.kept_keys todo.
Proof.
  unfold UpdateDatasets.kept_keys. rewrite filter_cons. cbn [fst snd].
  destruct (String.eqb_spec k "background") as [->|Hk]; cbn [orb].
  - rewrite decide_False by tauto. reflexivity.
  - destruct (UpdateDatasets.carried v); cbn [negb].
    + rewrite decide_True by tauto. reflexivity.
    + rewrite decide_False; [reflexivity|]. intros [_ H]. discriminate.
Qed.

Lemma kept_keys_subset k todo : k ∈ UpdateDatasets.kept_keys todo -> k ∈ todo.*1.
Proof.
  unfold UpdateDatasets.kept_keys. intros H. apply list_elem_of_fmap in H as (kv & -> & H).
  apply list_elem_of_filter in H as [_ H]. apply list_elem_of_fmap. eauto.
Qed.

Lemma filter_ext_elem_of {A} (P Q : A -> Prop)
    `{!forall x, Decision (P x)} `{!forall x, Decision (Q x)} (l : list A) :
  (forall x, x ∈ l -> (P x <-> Q x)) -> filter P l = filter Q l.
Proof.
  induction l as [|x l IH]; intros Hext; [reflexivity|].
  rewrite !filter_cons.
  rewrite IH by (intros y Hy; apply Hext; right; exact Hy).
  pose proof (Hext x (list_elem_of_here _ _)) as Hx.
  destruct (decide (P x)) as [HP|HP], (decide (Q x)) as [HQ|HQ];
    try reflexivity; tauto.
Qed.

Lemma shift_labels_keys (todo acc new_labels : list (string * value)) :
  NoDup todo.*1 ->
  UpdateDatasets.shift_labels todo acc = inr new_labels ->
  new_labels.*1 = acc.*1 ++ filter (fun k => k ∉ acc.*1) (UpdateDatasets.kept_keys todo).
Proof.
  revert acc. induction todo as [|[k0 v0] todo IH]; intros acc Hnd H.
  - injection H as <-. cbn. rewrite app_nil_r. reflexivity.
  - cbn [fmap list_fmap fst] in Hnd. apply NoDup_cons in Hnd as [Hk0 Hnd].
    assert (Hr : UpdateDatasets.raisable v0 = true \/ String.eqb k0 "background" = true).
    { destruct (UpdateDatasets.raisable v0) eqn:Hv; [auto|]. right.
      destruct v0 as [|b|n|s|l|f]; try discriminate.
      cbn [UpdateDatasets.shift_labels] in H.
      destruct (String.eqb k0 "background"); [reflexivity|].
      destruct (UpdateDatasets.add_1_each l) as [e|r] eqn:Hl; [discriminate|].
      cbn [UpdateDatasets.raisable] in Hv.
      rewrite (add_1_each_forallb l r Hl) in Hv. discriminate. }
    assert (H' : UpdateDatasets.shift_labels todo
                   (if String.eqb k0 "background" || negb (UpdateDatasets.carried v0) then acc
                    else UpdateDatasets.dict_set k0 (UpdateDatasets.raised_value v0) acc) = inr new_labels).
    { destruct Hr as [Hr|Hr].
      - rewrite <- (shift_labels_step k0 v0 todo acc Hr). exact H.
      - rewrite Hr. cbn [orb]. cbn [UpdateDatasets.shift_labels] in H. rewrite Hr in H. exact H. }
    rewrite (IH _ Hnd H'), kept_keys_cons.
    destruct (String.eqb k0 "background" || negb (UpdateDatasets.carried v0)); [reflexivity|].
    rewrite dict_set_keys, filter_cons.
    destruct (decide (k0 ∈ acc.*1)) as [Hin|Hout].
    + rewrite bool_decide_eq_true_2 by exact Hin.
      rewrite decide_False by tauto. reflexivity.
    + rewrite bool_decide_eq_false_2 by exact Hout.
      rewrite decide_True by exact Hout. rewrite <- app_assoc. cbn [app].
      f_equal. f_equal. apply filter_ext_elem_of.
      intros k Hk. rewrite elem_of_app, list_elem_of_singleton.
      split; [tauto|]. intros Hn [Ha| ->]; [contradiction|].
      apply Hk0. apply kept_keys_subset. exact Hk.
Qed.

Lemma update_dataset_at_run (path : string) (hi : Z)
    (st : gmap string (gmap string value)) :
  UpdateDatasets.update_dataset_at path hi st
  = match st !! path with
    | None => (inl (UpdateDatasets.FileNotFoundError path), st)
    | Some data =>
        match data !! "labels" with
        | None => (inl (UpdateDatasets.KeyError "labels"), st)
        | Some labels =>
            match UpdateDatasets.items labels with
            | inl e => (inl e, st)
            | inr todo =>
                match UpdateDatasets.shift_labels todo [("background", JNum 0); ("LDH", JNum 1)] with
                | inl e => (inl e, st)
                | inr new_labels =>
                    (inr tt,
                     <[path := <["regions_class_order" := JArr (range 1 hi)]>
                                 (<["labels" := JObj new_labels]> data)]> st)
                end
            end
        end
    end.
Proof.
  unfold UpdateDatasets.update_dataset_at, mbind, UpdateDatasets.io_bind, UpdateDatasets.load, UpdateDatasets.getitem, UpdateDatasets.eval, UpdateDatasets.dump.
  destruct (st !! path) as [data|]; [|reflexivity].
  destruct (data !! "labels") as [labels|]; [|reflexivity].
  cbn [mret UpdateDatasets.io_ret].
  destruct (UpdateDatasets.items labels) as [e|todo]; [reflexivity|].
  destruct (UpdateDatasets.shift_labels todo _) as [e|new_labels]; reflexivity.
Qed.

Lemma raises_labels_at (path : string) (hi : Z) :
  UpdateDatasets.raises_labels path hi (UpdateDatasets.update_dataset_at path hi).
Proof.
  intros st data fields Hst Hl Hnd Hall.
  destruct (shift_labels_succeeds fields [("background", JNum 0); ("LDH", JNum 1)] Hall)
    as [new_labels Hnew].
  exists new_labels. split.
  { rewrite update_dataset_at_run, Hst, Hl. cbn [UpdateDatasets.items]. rewrite Hnew. reflexivity. }
  split.
  { apply (fun H => shift_labels_NoDup fields _ new_labels H Hnew).
    cbn. apply NoDup_cons. split; [|apply NoDup_singleton].
    intros H. apply list_elem_of_singleton in H. discriminate. }
  split.
  { rewrite (shift_labels_keys fields _ new_labels Hnd Hnew). cbn [fmap list_fmap fst app].
    do 2 f_equal. apply filter_ext_elem_of. intros k Hk.
    rewrite !elem_of_cons, elem_of_nil.
    split; [tauto|]. intros Hne [->|[->|[]]]; [|contradiction].
    unfold UpdateDatasets.kept_keys in Hk.
    apply list_elem_of_fmap in Hk as ([k' v'] & Hk' & Hk).
    apply list_elem_of_filter in Hk as [[Hbg _] _]. cbn [fst] in *. congruence. }
  split; [|split].
  - rewrite (shift_labels_get fields _ new_labels "background" Hnd Hnew).
    destruct (UpdateDatasets.dict_get "background" fields); reflexivity.
  - intros k v Hk Hv Hc.
    rewrite (shift_labels_get fields _ new_labels k Hnd Hnew), Hv, Hc.
    destruct (String.eqb_spec k "background"); [contradiction|reflexivity].
  - intros k Hk Hv.
    rewrite (shift_labels_get fields _ new_labels k Hnd Hnew).
    assert (Hinit : UpdateDatasets.dict_get k [("background", JNum 0); ("LDH", JNum 1)]
                    = if String.eqb k "LDH" then Some (JNum 1) else None).
    { cbn [UpdateDatasets.dict_get]. rewrite (String.eqb_sym "background" k).
      destruct (String.eqb_spec k "background"); [contradiction|].
      rewrite (String.eqb_sym "LDH" k). reflexivity. }
    destruct (UpdateDatasets.dict_get k fields) as [v|]; [|exact Hinit].
    rewrite (Hv v eq_refl). rewrite orb_true_r. exact Hinit.
Qed.



Lemma dict_get_of_elem (k : string) (v : value) (d : list (string * value)) :
  NoDup d.*1 -> (k, v) ∈ d -> UpdateDatasets.dict_get k d = Some v.
Proof.
  induction d as [|[k' v'] d IH]; intros Hnd Hin.
  - apply elem_of_nil in Hin. contradiction.
  - cbn [fmap list_fmap fst] in Hnd. apply NoDup_cons in Hnd as [Hk' Hnd].
    cbn [UpdateDatasets.dict_get]. apply elem_of_cons in Hin as [[= -> ->]|Hin].
    + rewrite String.eqb_refl. reflexivity.
    + destruct (String.eqb_spec k' k) as [->|_]; [|exact (IH Hnd Hin)].
      exfalso. apply Hk'. apply list_elem_of_fmap. exists (k, v). auto.
Qed.

Lemma raised_value_again (v : value) :
  UpdateDatasets.carried v = true ->
  UpdateDatasets.carried (UpdateDatasets.raised_value v) = true /\ UpdateDatasets.raisable (UpdateDatasets.raised_value v) = true.
Proof.
  destruct v as [|b|n|s|l|f]; try discriminate; intros _; (split; [reflexivity|]);
    try reflexivity.
  cbn [UpdateDatasets.raised_value UpdateDatasets.raisable]. apply forallb_forall. intros x Hx.
  apply in_map_iff in Hx as (y & <- & _). reflexivity.
Qed.

Lemma raises_again_at (path : string) (hi : Z) :
  UpdateDatasets.raises_again path (UpdateDatasets.update_dataset_at path hi).
Proof.
  intros st data fields Hst Hl Hnd Hall.
  destruct (raises_labels_at path hi st data fields Hst Hl Hnd Hall)
    as (once & Hrun1 & Hnd1 & _ & Hbg1 & Hkept1 & Hrest1).
  set (data1 := <["regions_class_order" := JArr (range 1 hi)]>
                  (<["labels" := JObj once]> data)) in *.
  assert (Hvalues : forall k v,
             (k, v) ∈ once -> k <> "background" ->
             UpdateDatasets.carried v = true /\ UpdateDatasets.raisable v = true).
  { intros k v Hin Hk. pose proof (dict_get_of_elem k v once Hnd1 Hin) as Hget.
    destruct (UpdateDatasets.dict_get k fields) as [v0|] eqn:Hf.
    - destruct (UpdateDatasets.carried v0) eqn:Hc.
      + rewrite (Hkept1 k v0 Hk Hf Hc) in Hget. injection Hget as <-.
        apply raised_value_again. exact Hc.
      + rewrite (Hrest1 k Hk) in Hget by (intros v1 Hv1; congruence).
        destruct (String.eqb k "LDH"); [|discriminate].
        injection Hget as <-. auto.
    - rewrite (Hrest1 k Hk) in Hget by (intros v1 Hv1; congruence).
      destruct (String.eqb k "LDH"); [|discriminate].
      injection Hget as <-. auto. }
  destruct (raises_labels_at path hi (<[path := data1]> st) data1 once)
    as (twice & Hrun2 & Hnd2 & _ & Hbg2 & Hkept2 & Hrest2).
  { apply lookup_insert_eq. }
  { unfold data1. rewrite lookup_insert_ne by discriminate. apply lookup_insert_eq. }
  { exact Hnd1. }
  { intros k v Hin Hk. apply (Hvalues k v Hin Hk). }
  eexists _, _, _, twice.
  split; [exact Hrun1|]. split; [exact Hrun2|].
  split; [apply lookup_insert_eq|].
  split; [rewrite lookup_insert_ne by discriminate; apply lookup_insert_eq|].
  split; [exact Hbg2|]. split.
  - intros k v Hk Hv Hc. apply (Hkept2 k _ Hk (Hkept1 k v Hk Hv Hc)).
    apply raised_value_again. exact Hc.
  - intros k Hk Hv. pose proof (Hrest1 k Hk Hv) as Hone.
    destruct (String.eqb k "LDH") eqn:HL.
    + exact (Hkept2 k _ Hk Hone eq_refl).
    + rewrite (Hrest2 k Hk) by (intros v1 Hv1; congruence).
      rewrite HL. reflexivity.
Qed.


(** X11. On a description whose label values are integers or lists of
    integers, [update_step1_dataset] and [update_step2_dataset] write
    labels that start with [background] = 0 and [LDH], followed by the
    other integer and list labels in their old order, each raised by
    one (a list entry by entry); a label of another type is dropped,
    and [LDH] is 1 unless the description had an integer or list
    label of that name.  [regions_class_order] becomes [1 .. 10]
    ([1 .. 12] for step 2) and no other field changes. *)
Theorem update_datasets_raise_labels :
  UpdateDatasets.raises_labels UpdateDatasets.step1_path 11
    UpdateDatasets.update_step1_dataset
  /\ UpdateDatasets.raises_labels UpdateDatasets.step2_path 13
       UpdateDatasets.update_step2_dataset.
Proof.
  split.
  - exact (raises_labels_at UpdateDatasets.step1_path 11).
  - exact (raises_labels_at UpdateDatasets.step2_path 13).
Qed.

Lemma sample_labels_raisable (k : string) (v : value) :
  (k, v) ∈ UpdateDatasets.sample_labels -> k <> "background" ->
  UpdateDatasets.raisable v = true.
Proof.
  intros Hin _. unfold UpdateDatasets.sample_labels in Hin.
  repeat (apply elem_of_cons in Hin as [Hin|Hin]; [injection Hin as -> ->; reflexivity|]).
  apply elem_of_nil in Hin. contradiction.
Qed.

Lemma sample_labels_NoDup : NoDup UpdateDatasets.sample_labels.*1.
Proof. apply (bool_decide_unpack _). vm_compute. exact I. Qed.

Lemma update_datasets_raise_labels_witness :
  exists new_labels,
    fst (UpdateDatasets.update_step1_dataset UpdateDatasets.sample_store) = inr tt
    /\ snd (UpdateDatasets.update_step1_dataset UpdateDatasets.sample_store)
         !! UpdateDatasets.step1_path
       = Some (<["regions_class_order" := JArr (range 1 11)]>
                 (<["labels" := JObj new_labels]> {["numTraining" := JNum 0]}))
    /\ new_labels.*1 = ["background"; "LDH"; "disc"; "disc_C2_C3"; "cord"]
    /\ UpdateDatasets.dict_get "disc" new_labels = Some (JArr [JNum 2; JNum 3])
    /\ UpdateDatasets.dict_get "cord" new_labels = Some (JNum 10)
    /\ UpdateDatasets.dict_get "LDH" new_labels = Some (JNum 1)
    /\ UpdateDatasets.dict_get "comment" new_labels = None.
Proof.
  destruct (proj1 update_datasets_raise_labels UpdateDatasets.sample_store
              (<["labels" := JObj UpdateDatasets.sample_labels]> {["numTraining" := JNum 0]})
              UpdateDatasets.sample_labels)
    as (new_labels & Hrun & _ & Hkeys & _ & Hkept & Hrest).
  { reflexivity. }
  { reflexivity. }
  { exact sample_labels_NoDup. }
  { exact sample_labels_raisable. }
  exists new_labels. rewrite Hrun. cbn [fst snd].
  split; [reflexivity|]. split.
  { rewrite lookup_insert_eq. rewrite insert_insert_eq. reflexivity. }
  split; [rewrite Hkeys; vm_compute; reflexivity|].
  split; [apply (Hkept "disc" (JArr [JNum 1; JNum 2])); [discriminate|reflexivity..]|].
  split; [apply (Hkept "cord" (JNum 9)); [discriminate|reflexivity..]|].
  split.
  - apply (Hrest "LDH"); [discriminate|]. intros v Hv. discriminate.
  - apply (Hrest "comment"); [discriminate|]. intros v [= <-]. reflexivity.
Defined.



(** X13. The two functions are not idempotent: on a description whose
    labels can be raised, a second run completes as well and raises
    every integer and list label once more, and [LDH], which the
    first run had set to 1, becomes 2; [background] stays 0. *)
Theorem update_datasets_twice :
  UpdateDatasets.raises_again UpdateDatasets.step1_path
    UpdateDatasets.update_step1_dataset
  /\ UpdateDatasets.raises_again UpdateDatasets.step2_path
       UpdateDatasets.update_step2_dataset.
Proof.
  split.
  - exact (raises_again_at UpdateDatasets.step1_path 11).
  - exact (raises_again_at UpdateDatasets.step2_path 13).
Qed.

Lemma update_datasets_twice_witness :
  exists st1 st2 data2 twice,
    UpdateDatasets.update_step1_dataset UpdateDatasets.sample_store = (inr tt, st1)
    /\ UpdateDatasets.update_step1_dataset st1 = (inr tt, st2)
    /\ st2 !! UpdateDatasets.step1_path = Some data2
    /\ data2 !! "labels" = Some (JObj twice)
    /\ UpdateDatasets.dict_get "cord" twice = Some (JNum 11)
    /\ UpdateDatasets.dict_get "LDH" twice = Some (JNum 2).
Proof.
  destruct (proj1 update_datasets_twice UpdateDatasets.sample_store
              (<["labels" := JObj UpdateDatasets.sample_labels]> {["numTraining" := JNum 0]})
              UpdateDatasets.sample_labels)
    as (st1 & st2 & data2 & twice & Hrun1 & Hrun2 & Hst2 & Hl2 & _ & Hkept & Hrest).
  { reflexivity. }
  { reflexivity. }
  { exact sample_labels_NoDup. }
  { exact sample_labels_raisable. }
  exists st1, st2, data2, twice.
  split; [exact Hrun1|]. split; [exact Hrun2|]. split; [exact Hst2|].
  split; [exact Hl2|]. split.
  - apply (Hkept "cord" (JNum 9)); [discriminate|reflexivity..].
  - apply (Hrest "LDH"); [discriminate|]. intros v Hv. discriminate.
Defined.

(** * The batch driver: what a run does to the files *)





Lemma map_in_order_permissions {R} (ow : bool) (l : list Path) (fs : FileSystem) :
  read_denied (snd (map_in_order (fun p => _fix_metadata_wrapper (R := R) p ow) l fs))
  = read_denied fs
  /\ write_denied (snd (map_in_order (fun p => _fix_metadata_wrapper (R := R) p ow) l fs))
     = write_denied fs.
Proof.
  revert fs. induction l as [|x l IH]; intros fs; [split; reflexivity|].
  destruct (wrapper_step (R := R) ow x l fs) as [[_ ->]|[_ ->]];
    [|split; reflexivity].
  destruct (IH (snd (_fix_metadata_wrapper (R := R) x ow fs))) as [-> ->].
  apply wrapper_permissions.
Qed.






(** The map ends with one result for every path, or with the
    exception of a pair whose folder cannot be searched. *)
Lemma map_in_order_cases {R} (ow : bool) (l : list Path) (fs : FileSystem) :
  (exists results fs',
      map_in_order (fun p => _fix_metadata_wrapper (R := R) p ow) l fs
      = (Normal results, fs')
      /\ Forall (fun r => exists status payload,
                   r = Some (status, payload)
                   /\ (status = "missing" \/ status = "success" \/ status = "error"))
           results)
  \/ (exists e fs',
         map_in_order (fun p => _fix_metadata_wrapper (R := R) p ow) l fs
         = (Raised e, fs')
         /\ ~ Forall (fun p => parent p ∉ unsearchable fs) l).
Proof.
  destruct (decide (Forall (fun p => parent p ∉ unsearchable fs) l)) as [Hl|Hl].
  - left. destruct (map_in_order_wrapper (R := R) ow l fs Hl)
      as (results & fs' & Hm & _ & Hall).
    eauto.
  - right. revert fs Hl. induction l as [|x l IH]; intros fs Hl.
    { exfalso. apply Hl. constructor. }
    destruct (wrapper_step (R := R) ow x l fs) as [[Hs Hsnd]|[Hs Hm]].
    + destruct (wrapper_three_outcomes (R := R) x ow fs Hs)
        as (status & payload & fs1 & Hw & _).
      destruct (IH fs1) as (e & fs' & Hm & _).
      { pose proof (wrapper_unsearchable (R := R) x ow fs) as Hu.
        rewrite Hw in Hu. cbn [snd] in Hu. rewrite Hu.
        intros Hrest. apply Hl. constructor; assumption. }
      exists e, fs'. split; [|exact Hl].
      cbn [map_in_order]. unfold mbind, stmt_bind at 1. rewrite Hw.
      unfold mbind, stmt_bind at 1. rewrite Hm. reflexivity.
    + eauto.
Qed.

Lemma process_map_cases {R} (ow : bool) (l : list Path) (n : nat) (w : World) :
  (0 < n)%nat ->
  let w' :=
    with_volumes w
      (snd (map_in_order (fun p => _fix_metadata_wrapper (R := R) p ow) l (volumes w))) in
  (exists results,
      process_map (R := R) (fun p => _fix_metadata_wrapper p ow) l n w
      = (Normal results, w')
      /\ Forall (fun r => exists status payload,
                   r = Some (status, payload)
                   /\ (status = "missing" \/ status = "success" \/ status = "error"))
           results)
  \/ (exists e,
         process_map (R := R) (fun p => _fix_metadata_wrapper p ow) l n w
         = (Raised e, w')
         /\ ~ Forall (fun p => parent p ∉ unsearchable (volumes w)) l).
Proof.
  intros Hn w'. subst w'. unfold process_map.
  destruct n as [|n]; [lia|]. cbn [Nat.eqb]. unfold on_volumes.
  destruct (map_in_order_cases (R := R) ow l (volumes w))
    as [(results & fs' & -> & Hall)|(e & fs' & -> & Hnot)]; cbn [snd]; eauto.
Qed.

(** The volumes [main] leaves are those at the start, or those the
    run of the wrapper over the sorted files of [imagesTr] leaves, or
    those the run over the files of [imagesTs] leaves after it; when
    [main] gets to the processing and every folder it examines a path
    in can be searched, both runs are made. *)
Lemma main_volumes {R} (args : Namespace) (w : World) :
  let d := dataset_path args in
  let tr := joindir d "imagesTr" in
  let ts := joindir d "imagesTs" in
  let run l fs :=
    snd (map_in_order (fun p => _fix_metadata_wrapper (R := unit) p (main_overwrite args))
           l fs) in
  let fs1 := run (references_in (volumes w) tr) (volumes w) in
  let fs2 := run (references_in (volumes w) ts) fs1 in
  let fs' := volumes (snd (main (R := R) args w)) in
  (fs' = volumes w \/ fs' = fs1 \/ fs' = fs2)
  /\ ((0 < max_workers args)%nat ->
      Forall (fun x => x ∉ unsearchable (volumes w)) (searched_folders args) ->
      exists_at w d = true ->
      exists_at w tr = true ->
      references_in (volumes w) tr <> [] ->
      fs' = if exists_at w ts then fs2 else fs1).
Proof.
  intros d tr ts run fs1 fs2 fs'. subst fs'.
  assert (Hsf : Forall (fun x => x ∉ unsearchable (volumes w)) (searched_folders args) ->
                (dirname d ∉ unsearchable (volumes w))
                /\ (dirname tr ∉ unsearchable (volumes w))
                /\ (dirname ts ∉ unsearchable (volumes w))
                /\ (tr ∉ unsearchable (volumes w))
                /\ (ts ∉ unsearchable (volumes w))).
  { unfold searched_folders. cbv zeta. fold d. fold tr. fold ts. intros Hs.
    apply Forall_cons in Hs as [H1 Hs]. apply Forall_cons in Hs as [H2 Hs].
    apply Forall_cons in Hs as [H3 Hs]. apply Forall_cons in Hs as [H4 Hs].
    apply Forall_cons in Hs as [H5 _]. auto. }
  unfold main, call, main_body. cbv zeta. fold d. fold tr. fold ts.
  destruct (decide (dirname d ∈ unsearchable (volumes w))) as [Hsd|Hsd].
  { rewrite (bind_raised _ _ _ _ _ (path_exists_raises (R := unit) d w Hsd)).
    split; [left; reflexivity|].
    intros _ Hs. apply Hsf in Hs as (? & _). contradiction. }
  step (path_exists_eq (R := unit) d w Hsd).
  destruct (exists_at w d) eqn:Hd; cbn [negb].
  2:{ rewrite print_then_return. split; [left; reflexivity|discriminate]. }
  step (ret_eq (St := World) (R := unit) tt w).
  destruct (decide (dirname tr ∈ unsearchable (volumes w))) as [Hstr|Hstr].
  { rewrite (bind_raised _ _ _ _ _ (path_exists_raises (R := unit) tr w Hstr)).
    split; [left; reflexivity|].
    intros _ Hs. apply Hsf in Hs as (_ & ? & _). contradiction. }
  step (path_exists_eq (R := unit) tr w Hstr).
  destruct (exists_at w tr) eqn:Htr; cbn [negb].
  2:{ rewrite print_then_return. split; [left; reflexivity|discriminate]. }
  step (ret_eq (St := World) (R := unit) tt w).
  step (glob_eq (R := unit) tr w).
  set (tr_files := references_in (volumes w) tr) in *.
  destruct (length tr_files =? 0)%nat eqn:Hlen0.
  { rewrite print_then_return. split; [left; reflexivity|].
    intros _ _ _ _ Hne. apply Nat.eqb_eq in Hlen0.
    destruct tr_files; [contradiction|discriminate]. }
  step (ret_eq (St := World) (R := unit) tt w).
  do 5 rewrite bind_print.
  rewrite !add_lines_add_lines. cbn [app].
  set (header := [_; _; _; _; _]).
  destruct (0 <? max_workers args)%nat eqn:Hn.
  2:{ apply Nat.ltb_ge in Hn. assert (Hz : max_workers args = 0%nat) by lia.
      rewrite (bind_raised _ _ _ (mk_exn ValueError "max_workers must be greater than 0")
                 (add_lines w header)).
      - split; [left; reflexivity|]. intros Hpos. lia.
      - unfold process_map. rewrite Hz. reflexivity. }
  apply Nat.ltb_lt in Hn.
  assert (Htr_files : Forall (fun p => parent p = tr
                                       /\ ends_with (name p) "_0000.nii.gz" = true)
                        tr_files).
  { apply Forall_forall. intros p Hp. apply elem_of_references_in in Hp. tauto. }
  assert (Hfolder : forall dir fs, unsearchable fs = unsearchable (volumes w) ->
             dir ∉ unsearchable (volumes w) ->
             Forall (fun p => parent p ∉ unsearchable fs)
               (references_in (volumes w) dir)).
  { intros dir fs Hu Hdir. apply Forall_forall. intros p Hp.
    apply elem_of_references_in in Hp. destruct Hp as (Hpar & _).
    rewrite Hu, Hpar. exact Hdir. }
  assert (Hu1 : unsearchable fs1 = unsearchable (volumes w))
    by apply map_in_order_unsearchable.
  destruct (process_map_cases (R := unit) (main_overwrite args) tr_files
              (max_workers args) (add_lines w header) Hn)
    as [(results & Hpm & Hall)|(e & Hpm & Hnot)];
    cbn [volumes add_lines] in Hpm; fold (run tr_files (volumes w)) in Hpm;
    fold fs1 in Hpm.
  2:{ rewrite (bind_raised _ _ _ _ _ Hpm). split; [right; left; reflexivity|].
      intros _ Hs. apply Hsf in Hs as (_ & _ & _ & Htru & _).
      exfalso. apply Hnot. exact (Hfolder tr _ eq_refl Htru). }
  step Hpm.
  destruct (counts_add_up (St := World) (R := unit) results
              (with_volumes (add_lines w header) fs1) Hall)
    as (f1 & e1 & m1 & Hf1 & He1 & Hm1 & Hsum1).
  step Hf1. step He1. step Hm1.
  destruct (print_errors_lines (R := unit) results
              (with_volumes (add_lines w header) fs1) Hall) as [errs1 Hpe1].
  step Hpe1.
  set (w3 := add_lines (with_volumes (add_lines w header) fs1) errs1).
  assert (Hframe : forall q,
             Forall (fun p => q <> img_0001_path_of p
                              /\ q <> backup_path_of (img_0001_path_of p)) tr_files ->
             files fs1 !! q = files (volumes w) !! q).
  { intros q Hq. apply map_in_order_frame. exact Hq. }
  assert (Hex : exists_at w3 ts = exists_at w ts).
  { apply exists_at_ext; [reflexivity|]. intros p Ht. cbn [w3 volumes add_lines with_volumes].
    rewrite (Hframe p); [reflexivity|].
    apply (references_are_harmless tr p tr_files); [|exact Htr_files].
    right. intros Hp. unfold path_text in Ht. rewrite Hp in Ht.
    exact (file_of_tr_is_not_ts d (name p) Ht). }
  assert (Hrefs : references_in (volumes w3) ts = references_in (volumes w) ts).
  { apply references_in_ext. intros q Hq. cbn [w3 volumes add_lines with_volumes].
    rewrite (Hframe q); [reflexivity|].
    apply (references_are_harmless tr q tr_files); [left; exact Hq|exact Htr_files]. }
  destruct (decide (dirname ts ∈ unsearchable (volumes w3))) as [Hsts|Hsts].
  { rewrite (bind_raised _ _ _ _ _ (path_exists_raises (R := unit) ts w3 Hsts)).
    split; [right; left; reflexivity|].
    intros _ Hs. apply Hsf in Hs as (_ & _ & Hsts' & _).
    cbn [w3 volumes add_lines with_volumes] in Hsts. rewrite Hu1 in Hsts.
    contradiction. }
  step (path_exists_eq (R := unit) ts w3 Hsts). rewrite Hex.
  assert (Hfinish : forall (w4 : World) (fixed errors missing : nat),
             exists w',
               (let '(fixed_count, error_count, missing_count) := (fixed, errors, missing) in
                print (R := unit) (nl +:+ str_repeat "=" 50);;
                print "Summary:";;
                print ("  Fixed: " +:+ pretty fixed_count);;
                print ("  Missing _0001 files: " +:+ pretty missing_count);;
                print ("  Errors: " +:+ pretty error_count);;
                print (str_repeat "=" 50);;
                (if (0 <? fixed_count)%nat
                 then print (nl +:+ "Metadata has been fixed. You can now run:");;
                      print "  nnUNetv2_extract_fingerprint -d 102 -np 8"
                 else mret tt)) w4 = (Normal tt, w')
               /\ volumes w' = volumes w4).
  { intros w4 fixed errors missing. cbv zeta iota beta.
    do 6 rewrite bind_print. rewrite !add_lines_add_lines. cbn [app].
    destruct (0 <? fixed)%nat.
    - rewrite bind_print. rewrite print_eq, add_lines_add_lines. cbn [app].
      eexists. split; reflexivity.
    - rewrite ret_eq. eexists. split; reflexivity. }
  set (ts_files := references_in (volumes w) ts) in *.
  destruct (exists_at w ts).
  - rewrite bind_assoc. step (glob_eq (R := unit) ts w3). rewrite Hrefs.
    destruct (0 <? length ts_files)%nat eqn:Hts.
    + rewrite bind_assoc, bind_print. cbv beta. rewrite bind_assoc.
      set (ts_line := nl +:+ "Processing test set: " +:+ _).
      destruct (process_map_cases (R := unit) (main_overwrite args) ts_files
                  (max_workers args) (add_lines w3 [ts_line]) Hn)
        as [(results2 & Hpm2 & Hall2)|(e & Hpm2 & Hnot)];
        cbn [volumes add_lines w3 with_volumes] in Hpm2;
        fold (run ts_files fs1) in Hpm2; fold fs2 in Hpm2.
      2:{ rewrite (bind_raised _ _ _ _ _ Hpm2).
          split; [right; right; reflexivity|reflexivity]. }
      step Hpm2. rewrite bind_assoc.
      destruct (counts_add_up (St := World) (R := unit) results2
                  (with_volumes (add_lines w3 [ts_line]) fs2) Hall2)
        as (f2 & e2 & m2 & Hf2 & He2 & Hm2 & Hsum2).
      step Hf2. rewrite bind_assoc. step He2. rewrite bind_assoc.
      step Hm2. rewrite bind_assoc.
      destruct (print_errors_lines (R := unit) results2
                  (with_volumes (add_lines w3 [ts_line]) fs2) Hall2) as [errs2 Hpe2].
      step Hpe2. rewrite bind_ret.
      destruct (Hfinish (add_lines (with_volumes (add_lines w3 [ts_line]) fs2) errs2)
                  (f1 + f2)%nat (e1 + e2)%nat (m1 + m2)%nat)
        as (w' & Hrun & Hvol).
      rewrite Hrun. cbn [snd]. rewrite Hvol.
      split; [right; right; reflexivity|reflexivity].
    + rewrite bind_ret.
      destruct (Hfinish w3 f1 e1 m1) as (w' & Hrun & Hvol).
      rewrite Hrun. cbn [snd]. rewrite Hvol.
      apply Nat.ltb_ge in Hts.
      assert (Hfs2 : fs2 = fs1).
      { unfold fs2. destruct ts_files; [reflexivity|simpl in Hts; lia]. }
      rewrite Hfs2. split; [right; left; reflexivity|reflexivity].
  - rewrite bind_ret.
    destruct (Hfinish w3 f1 e1 m1) as (w' & Hrun & Hvol).
    rewrite Hrun. cbn [snd]. rewrite Hvol.
    split; [right; left; reflexivity|reflexivity].
Qed.

Lemma wrapper_state {R} (p : Path) (ow : bool) (fs : FileSystem) :
  let dep := img_0001_path_of p in
  let fs' := snd (_fix_metadata_wrapper (R := R) p ow fs) in
  fs' = fs
  \/ (exists img1,
         ow = false /\ files fs !! dep = Some (NiftiFile img1)
         /\ fs' = write_file fs (backup_path_of dep) (NiftiFile img1))
  \/ (exists img0 img1,
         can_fix p dep ow img0 img1 fs /\ fs' = after_fix dep ow img0 img1 fs).
Proof.
  intros dep fs'. subst fs'.
  destruct (decide (parent p ∈ unsearchable fs)) as [Hs|Hs].
  { rewrite wrapper_unsearchable_eq by exact Hs. auto. }
  destruct (files fs !! dep) as [f|] eqn:Hf.
  - rewrite wrapper_present_eq by (first [exact Hs|fold dep; rewrite Hf; eauto]).
    fold dep.
    destruct (fix_metadata_cases (R := outcome) p dep ow fs)
      as [(img0 & img1 & Hc & ->)|(e & fs1 & He & -> & Hfs)].
    + right. right. exists img0, img1. auto.
    + rewrite He. cbn [snd]. destruct Hfs as [->|(img1 & -> & H1 & ->)]; [auto|].
      right. left. exists img1. rewrite Hf in H1. auto.
  - rewrite wrapper_missing_eq by assumption. auto.
Qed.

Lemma wrapper_domain {R} (p : Path) (ow : bool) (fs : FileSystem) (q : Path) :
  let fs' := snd (_fix_metadata_wrapper (R := R) p ow fs) in
  (is_Some (files fs !! q) -> is_Some (files fs' !! q))
  /\ (is_Some (files fs' !! q) ->
      is_Some (files fs !! q)
      \/ (ow = false /\ q = backup_path_of (img_0001_path_of p))).
Proof.
  intros fs'. subst fs'.
  destruct (wrapper_state (R := R) p ow fs)
    as [->|[(img1 & -> & H1 & ->)|(img0 & img1 & Hc & ->)]].
  - split; [intros H; exact H|intros H; left; exact H].
  - cbn [files write_file].
    destruct (decide (q = backup_path_of (img_0001_path_of p))) as [->|Hne].
    + rewrite lookup_insert_eq. eauto.
    + rewrite lookup_insert_ne by congruence.
      split; [intros H; exact H|intros H; left; exact H].
  - destruct Hc as (_ & _ & H1 & _).
    destruct (decide (q = img_0001_path_of p)) as [->|Hd].
    + rewrite files_after_fix_dep, H1. eauto.
    + destruct ow.
      * rewrite files_after_fix_other by (congruence || discriminate).
        split; [intros H; exact H|intros H; left; exact H].
      * destruct (decide (q = backup_path_of (img_0001_path_of p))) as [->|Hb].
        -- split; [|auto]. intros _. unfold after_fix. cbn [files write_file].
           rewrite lookup_insert_ne by congruence. rewrite lookup_insert_eq. eauto.
        -- rewrite files_after_fix_other by (intros; congruence).
           split; [intros H; exact H|intros H; left; exact H].
Qed.

Lemma map_in_order_domain {R} (ow : bool) (l : list Path) (fs : FileSystem) (q : Path) :
  let fs' := snd (map_in_order (fun p => _fix_metadata_wrapper (R := R) p ow) l fs) in
  (is_Some (files fs !! q) -> is_Some (files fs' !! q))
  /\ (is_Some (files fs' !! q) ->
      is_Some (files fs !! q)
      \/ (ow = false /\ exists p, p ∈ l /\ q = backup_path_of (img_0001_path_of p))).
Proof.
  revert fs. induction l as [|x l IH]; intros fs fs'; subst fs'; [cbn; auto|].
  destruct (wrapper_step (R := R) ow x l fs) as [[_ ->]|[_ ->]]; [|cbn [snd]; auto].
  destruct (IH (snd (_fix_metadata_wrapper (R := R) x ow fs))) as [Hkeep Hnew].
  destruct (wrapper_domain (R := R) x ow fs q) as [Hkeep1 Hnew1].
  split; [auto|]. intros H.
  destruct (Hnew H) as [H1|(How & p & Hp & ->)].
  - destruct (Hnew1 H1) as [H0|(How & ->)]; [auto|].
    right. split; [exact How|]. exists x. split; [left|reflexivity].
  - right. split; [exact How|]. exists p. split; [right; exact Hp|reflexivity].
Qed.

Lemma dependent_parent (p : Path) :
  parent (img_0001_path_of p) = parent p
  /\ parent (backup_path_of (img_0001_path_of p)) = parent p.
Proof. split; reflexivity. Qed.

(** X14. [main] deletes no file and changes no permission, whatever
    the arguments and the files are; a file that is there afterwards
    and was not there before is the backup of the dependent of a
    [*_0000.nii.gz] file of [imagesTr] or [imagesTs], and there is
    none with [--no-backup]. *)
Theorem main_never_deletes {R} (args : Namespace) (w : World) :
  let tr := joindir (dataset_path args) "imagesTr" in
  let ts := joindir (dataset_path args) "imagesTs" in
  let fs' := volumes (snd (main (R := R) args w)) in
  read_denied fs' = read_denied (volumes w)
  /\ write_denied fs' = write_denied (volumes w)
  /\ (forall q, is_Some (files (volumes w) !! q) -> is_Some (files fs' !! q))
  /\ (forall q,
        is_Some (files fs' !! q) -> ~ is_Some (files (volumes w) !! q) ->
        no_backup args = false
        /\ exists p,
             (p ∈ references_in (volumes w) tr \/ p ∈ references_in (volumes w) ts)
             /\ q = backup_path_of (img_0001_path_of p)).
Proof.
  intros tr ts fs'. subst fs'.
  set (ow := main_overwrite args).
  set (fs1 := snd (map_in_order (fun p => _fix_metadata_wrapper (R := unit) p ow)
                     (references_in (volumes w) tr) (volumes w))).
  set (fs2 := snd (map_in_order (fun p => _fix_metadata_wrapper (R := unit) p ow)
                     (references_in (volumes w) ts) fs1)).
  destruct (map_in_order_permissions (R := unit) ow (references_in (volumes w) tr)
              (volumes w)) as [Hr1 Hw1].
  fold fs1 in Hr1, Hw1.
  assert (Hd1 := fun q => map_in_order_domain (R := unit) ow
                            (references_in (volumes w) tr) (volumes w) q).
  cbv zeta in Hd1. fold fs1 in Hd1.
  destruct (map_in_order_permissions (R := unit) ow (references_in (volumes w) ts) fs1)
    as [Hr2 Hw2].
  fold fs2 in Hr2, Hw2.
  assert (Hd2 := fun q => map_in_order_domain (R := unit) ow
                            (references_in (volumes w) ts) fs1 q).
  cbv zeta in Hd2. fold fs2 in Hd2.
  destruct (proj1 (main_volumes (R := R) args w)) as [->|[->| ->]];
    fold tr; fold ts; fold ow; fold fs1; fold fs2.
  - split; [reflexivity|]. split; [reflexivity|]. split; [auto|].
    intros q H Hn. contradiction.
  - split; [exact Hr1|]. split; [exact Hw1|]. split.
    + intros q H. apply Hd1, H.
    + intros q H Hn.
      destruct (proj2 (Hd1 q) H) as [H0|(How & p & Hp & ->)]; [contradiction|].
      split; [exact How|]. exists p. auto.
  - split; [congruence|]. split; [congruence|]. split.
    + intros q H. apply Hd2, Hd1, H.
    + intros q H Hn.
      destruct (proj2 (Hd2 q) H) as [H1|(How & p & Hp & ->)].
      * destruct (proj2 (Hd1 q) H1) as [H0|(How & p & Hp & ->)]; [contradiction|].
        split; [exact How|]. exists p. auto.
      * split; [exact How|]. exists p. auto.
Qed.




(** * scripts/revert_jsons.py and the other scripts *)

Lemma revert_and_append_ldh_step1_eq {R} (st : gmap string (gmap string value)) :
  exists data,
    RevertJsons.revert_and_append_ldh_step1 (R := R) st
    = (Normal None, <[JsonOrder.step1_path := data]> st)
    /\ data !! "regions_class_order" = Some (JArr (range 1 11))
    /\ data !! "labels"
       = Some (JObj [("background", JNum 0);
                     ("disc", JArr (map JNum [1; 2; 3; 4; 5]));
                     ("disc_C2_C3", JNum 2);
                     ("disc_C7_T1", JNum 3);
                     ("disc_T12_L1", JNum 4);
                     ("disc_L5_S", JNum 5);
                     ("vertebrae", JArr (map JNum [6; 7]));
                     ("vertebrae_C1", JNum 7);
                     ("canal", JArr (map JNum [8; 9]));
                     ("cord", JNum 9);
                     ("LDH", JNum 10)]).
Proof.
  eexists. split; [reflexivity|]. split; vm_compute; reflexivity.
Qed.

Lemma revert_and_append_ldh_step2_eq {R} (st : gmap string (gmap string value)) :
  exists data,
    RevertJsons.revert_and_append_ldh_step2 (R := R) st
    = (Normal None, <[JsonOrder.step2_path := data]> st)
    /\ data !! "regions_class_order" = Some (JArr (range 1 13))
    /\ data !! "labels"
       = Some (JObj [("background", JNum 0);
                     ("disc", JArr (map JNum [1; 2; 3; 4; 5]));
                     ("disc_C2_C3", JNum 2);
                     ("disc_C7_T1", JNum 3);
                     ("disc_T12_L1", JNum 4);
                     ("disc_L5_S", JNum 5);
                     ("vertebrae", JArr (map JNum [6; 7; 8; 9]));
                     ("vertebrae_O", JNum 7);
                     ("vertebrae_E", JNum 8);
                     ("sacrum", JNum 9);
                     ("canal", JArr (map JNum [10; 11]));
                     ("cord", JNum 11);
                     ("LDH", JNum 12)]).
Proof.
  eexists. split; [reflexivity|]. split; vm_compute; reflexivity.
Qed.

(** X16. Whatever the files held, on the descriptions
    [revert_and_append_ldh_step1] and [revert_and_append_ldh_step2]
    write, [update_step1_json] and [update_step2_json] complete and
    put LDH first, [10, 1, ..., 9] and [12, 1, ..., 11], and
    [revert_step1_json] and [revert_step2_json] then give back
    exactly the files revert_jsons.py wrote. *)
Theorem revert_jsons_then_class_order {R} (st : gmap string (gmap string value)) :
  (let written := snd (RevertJsons.revert_and_append_ldh_step1 (R := R) st) in
   exists data,
     JsonOrder.update_step1_json (R := R) written
     = (Normal None, <[JsonOrder.step1_path := data]> written)
     /\ data !! "regions_class_order"
        = Some (JArr (map JNum [10; 1; 2; 3; 4; 5; 6; 7; 8; 9]))
     /\ JsonOrder.revert_step1_json (R := R) (<[JsonOrder.step1_path := data]> written)
        = (Normal None, written))
  /\ (let written := snd (RevertJsons.revert_and_append_ldh_step2 (R := R) st) in
      exists data,
        JsonOrder.update_step2_json (R := R) written
        = (Normal None, <[JsonOrder.step2_path := data]> written)
        /\ data !! "regions_class_order"
           = Some (JArr (map JNum [12; 1; 2; 3; 4; 5; 6; 7; 8; 9; 10; 11]))
        /\ JsonOrder.revert_step2_json (R := R) (<[JsonOrder.step2_path := data]> written)
           = (Normal None, written)).
Proof.
  split; intros written; subst written.
  - destruct (revert_and_append_ldh_step1_eq (R := R) st) as (doc & -> & Hrco & _).
    cbn [snd].
    rewrite (update_step1_json_eq _ doc (range 1 11) (lookup_insert_eq _ _ _) Hrco).
    eexists. split; [reflexivity|]. split; [apply lookup_insert_eq|].
    rewrite (revert_step1_json_eq _ _ (lookup_insert_eq _ _ _)).
    rewrite !insert_insert_eq. rewrite (insert_id doc) by exact Hrco. reflexivity.
  - destruct (revert_and_append_ldh_step2_eq (R := R) st) as (doc & -> & Hrco & _).
    cbn [snd].
    rewrite (update_step2_json_eq _ doc (range 1 13) (lookup_insert_eq _ _ _) Hrco).
    eexists. split; [reflexivity|]. split; [apply lookup_insert_eq|].
    rewrite (revert_step2_json_eq _ _ (lookup_insert_eq _ _ _)).
    rewrite !insert_insert_eq. rewrite (insert_id doc) by exact Hrco. reflexivity.
Qed.

(** X17. Whatever the files held, on the descriptions revert_jsons.py
    writes, [update_step1_dataset] and [update_step2_dataset]
    complete and raise LDH from 10 to 11 (from 12 to 13 for step 2),
    a class that is not in the [regions_class_order] 1..10 (1..12)
    they write; [cord] becomes 10 (12). *)
Theorem revert_jsons_then_update_datasets {R} (st : gmap string (gmap string value)) :
  (exists data labels,
      UpdateDatasets.update_step1_dataset
        (snd (RevertJsons.revert_and_append_ldh_step1 (R := R) st))
      = (inr tt, <[UpdateDatasets.step1_path := data]> st)
      /\ data !! "labels" = Some (JObj labels)
      /\ data !! "regions_class_order" = Some (JArr (range 1 11))
      /\ UpdateDatasets.dict_get "LDH" labels = Some (JNum 11)
      /\ UpdateDatasets.dict_get "cord" labels = Some (JNum 10)
      /\ list_contains 11 (range 1 11) = false)
  /\ (exists data labels,
         UpdateDatasets.update_step2_dataset
           (snd (RevertJsons.revert_and_append_ldh_step2 (R := R) st))
         = (inr tt, <[UpdateDatasets.step2_path := data]> st)
         /\ data !! "labels" = Some (JObj labels)
         /\ data !! "regions_class_order" = Some (JArr (range 1 13))
         /\ UpdateDatasets.dict_get "LDH" labels = Some (JNum 13)
         /\ UpdateDatasets.dict_get "cord" labels = Some (JNum 12)
         /\ list_contains 13 (range 1 13) = false).
Proof.
  split.
  - destruct (revert_and_append_ldh_step1_eq (R := R) st) as (doc & -> & _ & Hlabels).
    cbn [snd].
    change UpdateDatasets.update_step1_dataset
      with (UpdateDatasets.update_dataset_at UpdateDatasets.step1_path 11).
    rewrite update_dataset_at_run.
    change UpdateDatasets.step1_path with JsonOrder.step1_path.
    rewrite lookup_insert_eq, Hlabels. cbn [UpdateDatasets.items].
    match goal with
    | |- context [UpdateDatasets.shift_labels ?a ?b] =>
        let r := eval vm_compute in (UpdateDatasets.shift_labels a b) in
        change (UpdateDatasets.shift_labels a b) with r
    end.
    cbv iota beta. rewrite insert_insert_eq.
    eexists _, _. split; [reflexivity|].
    split; [rewrite lookup_insert_ne by discriminate; apply lookup_insert_eq|].
    split; [apply lookup_insert_eq|]. repeat split.
  - destruct (revert_and_append_ldh_step2_eq (R := R) st) as (doc & -> & _ & Hlabels).
    cbn [snd].
    change UpdateDatasets.update_step2_dataset
      with (UpdateDatasets.update_dataset_at UpdateDatasets.step2_path 13).
    rewrite update_dataset_at_run.
    change UpdateDatasets.step2_path with JsonOrder.step2_path.
    rewrite lookup_insert_eq, Hlabels. cbn [UpdateDatasets.items].
    match goal with
    | |- context [UpdateDatasets.shift_labels ?a ?b] =>
        let r := eval vm_compute in (UpdateDatasets.shift_labels a b) in
        change (UpdateDatasets.shift_labels a b) with r
    end.
    cbv iota beta. rewrite insert_insert_eq.
    eexists _, _. split; [reflexivity|].
    split; [rewrite lookup_insert_ne by discriminate; apply lookup_insert_eq|].
    split; [apply lookup_insert_eq|]. repeat split.
Qed.

(** X18. Whatever the files held, the label maps [update_maps] writes
    and the descriptions [revert_and_append_ldh_step1] and
    [revert_and_append_ldh_step2] write go together: every class of
    a map is the value of a label or an entry of a list label of the
    description of its step and is listed in its
    [regions_class_order], and label 101 is sent to the class of
    [LDH], 10 and 12. *)
Theorem revert_jsons_writes_consistent_files
    {R} (maps : gmap string (gmap string Z)) (datasets : gmap string (gmap string value)) :
  let maps' := snd (RevertJsons.update_maps (R := R) maps) in
  let datasets' :=
    snd (RevertJsons.revert_and_append_ldh_step2 (R := R)
           (snd (RevertJsons.revert_and_append_ldh_step1 (R := R) datasets))) in
  (exists map1 data1,
      maps' !! UpdateJsons.step1_map_path = Some map1
      /\ datasets' !! JsonOrder.step1_path = Some data1
      /\ RevertJsons.consistent map1 data1)
  /\ (exists map2 data2,
         maps' !! UpdateJsons.step2_map_path = Some map2
         /\ datasets' !! JsonOrder.step2_path = Some data2
         /\ RevertJsons.consistent map2 data2).
Proof.
  intros maps' datasets'. subst maps' datasets'.
  destruct (revert_and_append_ldh_step1_eq (R := R) datasets)
    as (data1 & -> & Horder1 & Hlabels1).
  cbn [snd].
  destruct (revert_and_append_ldh_step2_eq (R := R) (<[JsonOrder.step1_path := data1]> datasets))
    as (data2 & -> & Horder2 & Hlabels2).
  cbn [snd]. split.
  - eexists _, data1. split.
    { unfold RevertJsons.update_maps, RevertJsons.update_maps_body, call, mbind,
        stmt_bind, json.dump. cbn [snd].
      rewrite lookup_insert_ne by discriminate. apply lookup_insert_eq. }
    split.
    { rewrite lookup_insert_ne by discriminate. apply lookup_insert_eq. }
    eexists _, _, 10. split; [exact Hlabels1|]. split; [exact Horder1|].
    split; [|split; reflexivity].
    apply (bool_decide_unpack _). vm_compute. exact I.
  - eexists _, data2. split.
    { unfold RevertJsons.update_maps, RevertJsons.update_maps_body, call, mbind,
        stmt_bind, json.dump. cbn [snd]. apply lookup_insert_eq. }
    split; [apply lookup_insert_eq|].
    eexists _, _, 12. split; [exact Hlabels2|]. split; [exact Horder2|].
    split; [|split; reflexivity].
    apply (bool_decide_unpack _). vm_compute. exact I.
Qed.
